(** * prediction.js: dates, parsing, scaling, error metrics and the CSV report

    A shallow embedding of [src/prediction.js].  The script reads a table of
    daily closing prices, scales dates and prices to the unit interval, fits a
    linear model, scores it and writes a forecast for the next thirty
    weekdays.

    Conventions of the embedding:
    - a JavaScript number is a binary64 value ([float], the kernel's
      primitive floats), so NaN, the infinities and rounding are those of
      the platform;
    - a Date object is its time value ([DateObject]): [Some t] with [t] the
      milliseconds since the epoch, or [None] for an Invalid Date (time
      value NaN);
    - the host's local time zone is a parameter [LocalTZA], a fixed offset of
      local time from UTC in milliseconds (daylight saving changes are not
      modelled);
    - a function that can throw returns a [completion];
    - the calendar follows ECMA-262, section "Time Values and Time Range". *)

From Stdlib Require Import Reals Lra Psatz.
From Stdlib Require Import ZArith QArith List String Ascii Bool Lia Floats.
Import ListNotations.

Local Open Scope string_scope.
Local Open Scope Z_scope.

(** ** Completions *)

Inductive error : Type :=
| RangeError
| Error (message : string).

Inductive completion (A : Type) : Type :=
| Returns (value : A)
| Throws (e : error).

Arguments Returns {A} value.
Arguments Throws {A} e.

(** ** The calendar of ECMA-262 *)

Module Calendar.

Definition msPerDay : Z := 86400000.

(** The largest time value of a valid Date, 100,000,000 days after the epoch. *)
Definition maxTime : Z := 8640000000000000.

Definition Day (t : Z) : Z := t / msPerDay.
Definition TimeWithinDay (t : Z) : Z := t mod msPerDay.

(** 0 is Sunday, 6 is Saturday; day 0 (1 January 1970) was a Thursday. *)
Definition WeekDayOfDay (d : Z) : Z := (d + 4) mod 7.
Definition WeekDay (t : Z) : Z := WeekDayOfDay (Day t).

Definition DayFromYear (y : Z) : Z :=
  365 * (y - 1970) + (y - 1969) / 4 - (y - 1901) / 100 + (y - 1601) / 400.

Definition InLeapYear (y : Z) : bool :=
  ((y mod 4 =? 0) && negb (y mod 100 =? 0)) || (y mod 400 =? 0).

Definition DaysInYear (y : Z) : Z := if InLeapYear y then 366 else 365.

(** The largest [y] with [DayFromYear y <= d]: an estimate from the mean
    length of a year, corrected by at most one. *)
Definition YearFromDay (d : Z) : Z :=
  let e := 1970 + (400 * d) / 146097 in
  if d <? DayFromYear e then e - 1
  else if DayFromYear (e + 1) <=? d then e + 1
  else e.

Definition DayWithinYear (d : Z) : Z := d - DayFromYear (YearFromDay d).

(** Number of days before the first of month [m] (0 = January). *)
Definition monthStart (leap : bool) (m : Z) : Z :=
  let l := if leap then 1 else 0 in
  match m with
  | 0 => 0
  | 1 => 31
  | 2 => 59 + l
  | 3 => 90 + l
  | 4 => 120 + l
  | 5 => 151 + l
  | 6 => 181 + l
  | 7 => 212 + l
  | 8 => 243 + l
  | 9 => 273 + l
  | 10 => 304 + l
  | 11 => 334 + l
  | _ => 365 + l
  end.

Definition DaysInMonth (leap : bool) (m : Z) : Z :=
  monthStart leap (m + 1) - monthStart leap m.

Definition monthOfYearDay (leap : bool) (k : Z) : Z :=
  if k <? monthStart leap 1 then 0
  else if k <? monthStart leap 2 then 1
  else if k <? monthStart leap 3 then 2
  else if k <? monthStart leap 4 then 3
  else if k <? monthStart leap 5 then 4
  else if k <? monthStart leap 6 then 5
  else if k <? monthStart leap 7 then 6
  else if k <? monthStart leap 8 then 7
  else if k <? monthStart leap 9 then 8
  else if k <? monthStart leap 10 then 9
  else if k <? monthStart leap 11 then 10
  else 11.

Definition MonthFromDay (d : Z) : Z :=
  monthOfYearDay (InLeapYear (YearFromDay d)) (DayWithinYear d).

Definition DateFromDay (d : Z) : Z :=
  DayWithinYear d
  - monthStart (InLeapYear (YearFromDay d)) (MonthFromDay d) + 1.

Definition YearFromTime (t : Z) : Z := YearFromDay (Day t).
Definition MonthFromTime (t : Z) : Z := MonthFromDay (Day t).
Definition DateFromTime (t : Z) : Z := DateFromDay (Day t).

Definition HourFromTime (t : Z) : Z := (t / 3600000) mod 24.
Definition MinFromTime (t : Z) : Z := (t / 60000) mod 60.
Definition SecFromTime (t : Z) : Z := (t / 1000) mod 60.
Definition msFromTime (t : Z) : Z := t mod 1000.

(** [MakeDay year month date] for integral arguments: the day number of
    the first of the month, plus [date - 1]. *)
Definition MakeDay (year month date : Z) : Z :=
  let ym := year + month / 12 in
  let mn := month mod 12 in
  DayFromYear ym + monthStart (InLeapYear ym) mn + date - 1.

Definition MakeDate (day time : Z) : Z := day * msPerDay + time.

Definition TimeClip (t : Z) : option Z :=
  if Z.abs t <=? maxTime then Some t else None.

End Calendar.

Import Calendar.

(** ** Strings *)

Definition digitChar (n : Z) : ascii := ascii_of_nat (48 + Z.to_nat n).

(** The last [w] decimal digits of [n], most significant first: the
    zero-padded fields of [toISOString]. *)
Fixpoint fixedWidth (w : nat) (n : Z) : string :=
  match w with
  | O => ""
  | S w' => fixedWidth w' (n / 10) ++ String (digitChar (n mod 10)) ""
  end.

(** [s.split(sep)] for a one-character separator. *)
Fixpoint split (sep : ascii) (s : string) : list string :=
  match s with
  | "" => [""]
  | String c s' =>
      if Ascii.eqb c sep then "" :: split sep s'
      else match split sep s' with
           | h :: t => String c h :: t
           | [] => [String c ""]
           end
  end.

(** [c] does not occur in [s]. *)
Fixpoint absent (c : ascii) (s : string) : Prop :=
  match s with
  | "" => True
  | String a s' => Ascii.eqb a c = false /\ absent c s'
  end.

(** Array element access: [undefined] past the end. *)
Definition element {A : Type} (l : list A) (i : nat) : option A := nth_error l i.


(** [s.trim()], [s.padStart(n, "0")] and the global replacement of one
    character.  Strings are sequences of code units below 256; the white
    space of ECMA-262 in that range is TAB, LF, VT, FF, CR, SP and NBSP. *)
Definition isWhiteSpace (c : ascii) : bool :=
  let n := nat_of_ascii c in
  ((9 <=? n) && (n <=? 13))%nat || (n =? 32)%nat || (n =? 160)%nat.

Fixpoint trimStart (s : string) : string :=
  match s with
  | String c s' => if isWhiteSpace c then trimStart s' else s
  | "" => ""
  end.

Fixpoint trimEnd (s : string) : string :=
  match s with
  | String c s' =>
      match trimEnd s' with
      | "" => if isWhiteSpace c then "" else String c ""
      | r => String c r
      end
  | "" => ""
  end.

Definition trim (s : string) : string := trimEnd (trimStart s).

Fixpoint repeatChar (c : ascii) (n : nat) : string :=
  match n with
  | O => ""
  | S n' => String c (repeatChar c n')
  end.

Definition padStart (s : string) (targetLength : nat) (c : ascii) : string :=
  (repeatChar c (targetLength - String.length s) ++ s)%string.

(** [s.replace(/c/g, by)] for a pattern that is the one character [c]. *)
Fixpoint replaceAll (c : ascii) (by_ : string) (s : string) : string :=
  match s with
  | "" => ""
  | String a s' =>
      if Ascii.eqb a c then (by_ ++ replaceAll c by_ s')%string
      else String a (replaceAll c by_ s')
  end.

Fixpoint join (sep : string) (l : list string) : string :=
  match l with
  | [] => ""
  | [s] => s
  | s :: l' => (s ++ sep ++ join sep l')%string
  end.

(** Decimal digits of a non-negative integer, and [String(n)] for an
    integral Number. *)
Fixpoint digitsOf (fuel : nat) (n : Z) (acc : string) : string :=
  match fuel with
  | O => acc
  | S fuel' =>
      let acc' := String (digitChar (n mod 10)) acc in
      if n / 10 =? 0 then acc' else digitsOf fuel' (n / 10) acc'
  end.

Definition decimalOfZ (z : Z) : string :=
  let fuel := S (Z.to_nat (Z.log2 (Z.abs z))) in
  if z <? 0 then String "-" (digitsOf fuel (- z) "") else digitsOf fuel z "".

(** ** Numbers

    A Number is a binary64 value.  Conversions between decimal text and
    binary64 go through the exact value and round to nearest, ties to even. *)

Definition isNaN (x : float) : bool := PrimFloat.is_nan x.

(** The Number nearest to the integer [z]. *)
Definition numberOfZ (z : Z) : float := SF2Prim (binary_normalize prec emax z 0 false).

(** The Number nearest to [m * 10 ^ e10], for [0 <= m], with sign [neg]. *)
Definition decimalToNumber (neg : bool) (m e10 : Z) : float :=
  SF2Prim
    (match m with
     | Zpos _ =>
         if 0 <=? e10 then
           match m * 10 ^ e10 with
           | Zpos p => binary_round prec emax neg p 0
           | _ => S754_zero neg
           end
         else
           let '(q, e, l) := SFdiv_core_binary prec emax m 0 (10 ^ (- e10)) 0 in
           binary_round_aux prec emax neg q e l
     | _ => S754_zero neg
     end).

(** [ToIntegerOrInfinity] of a finite Number; [None] for NaN and the
    infinities. *)
Definition finiteInteger (x : float) : option Z :=
  match Prim2SF x with
  | S754_zero _ => Some 0
  | S754_finite s m e =>
      let a := if 0 <=? e then Zpos m * 2 ^ e else Zpos m / 2 ^ (- e) in
      Some (if s then - a else a)
  | _ => None
  end.

Definition toLower (c : ascii) : ascii :=
  let n := nat_of_ascii c in
  if ((65 <=? n) && (n <=? 90))%nat then ascii_of_nat (n + 32) else c.

Definition isDigit (c : ascii) : bool :=
  let n := nat_of_ascii c in ((48 <=? n) && (n <=? 57))%nat.

Definition digitValue (c : ascii) : Z := Z.of_nat (nat_of_ascii c) - 48.

(** The longest run of decimal digits at the head of [s]: its value on top
    of [acc], the number of digits, and the rest of the string. *)
Fixpoint scanDigits (s : string) (acc : Z) (count : Z) : Z * Z * string :=
  match s with
  | String c s' =>
      if isDigit c then scanDigits s' (10 * acc + digitValue c) (count + 1)
      else (acc, count, s)
  | "" => (acc, count, s)
  end.

Definition startsWith (p s : string) : option string :=
  if String.prefix p s then Some (substring (String.length p) (String.length s) s)
  else None.

(** The exponent part of a decimal literal, when there is a well-formed one. *)
Definition scanExponent (s : string) : Z * string :=
  match s with
  | String c s' =>
      if Ascii.eqb c "e" || Ascii.eqb c "E" then
        let '(neg, s'') :=
          match s' with
          | String "+" r => (false, r)
          | String "-" r => (true, r)
          | _ => (false, s')
          end in
        let '(x, n, rest) := scanDigits s'' 0 0 in
        if 0 <? n then (if neg then - x else x, rest) else (0, s)
      else (0, s)
  | "" => (0, s)
  end.

(** The longest prefix of [s] that is a [StrDecimalLiteral] (sign,
    [Infinity], or digits with an optional fraction and exponent): its value
    and the rest of the string; [None] when no prefix is one. *)
Definition scanDecimal (s : string) : option (float * string) :=
  let '(neg, body) :=
    match s with
    | String "+" r => (false, r)
    | String "-" r => (true, r)
    | _ => (false, s)
    end in
  match startsWith "Infinity" body with
  | Some rest => Some (if neg then neg_infinity else infinity, rest)
  | None =>
      let '(i, ni, afterInt) := scanDigits body 0 0 in
      let '(m, nf, afterFrac) :=
        match afterInt with
        | String "." r =>
            let '(m, nf, rest) := scanDigits r i 0 in
            if (0 <? ni) || (0 <? nf) then (m, nf, rest) else (i, 0, afterInt)
        | _ => (i, 0, afterInt)
        end in
      if (0 <? ni) || (0 <? nf) then
        let '(x, rest) := scanExponent afterFrac in
        Some (decimalToNumber neg m (x - nf), rest)
      else None
  end.

(** The global [parseFloat]. *)
Definition parseFloat (s : string) : float :=
  match scanDecimal (trimStart s) with
  | Some (x, _) => x
  | None => nan
  end.

(** A literal in base 16, 8 or 2: [0x], [0o] or [0b], in either case, and
    one digit or more. *)
Definition radixDigit (c : ascii) : option Z :=
  let n := Z.of_nat (nat_of_ascii c) in
  if (48 <=? n) && (n <=? 57) then Some (n - 48)
  else if (97 <=? n) && (n <=? 102) then Some (n - 87)
  else if (65 <=? n) && (n <=? 70) then Some (n - 55)
  else None.

Fixpoint radixValue (radix : Z) (s : string) (acc : Z) : option Z :=
  match s with
  | "" => Some acc
  | String c s' =>
      match radixDigit c with
      | Some v => if v <? radix then radixValue radix s' (radix * acc + v) else None
      | None => None
      end
  end.

Definition radixLiteral (s : string) : option float :=
  match s with
  | String "0" (String p (String c r)) =>
      let radix :=
        match toLower p with
        | "x"%char => 16
        | "o"%char => 8
        | "b"%char => 2
        | _ => 0
        end in
      if radix =? 0 then None
      else option_map numberOfZ (radixValue radix (String c r) 0)
  | _ => None
  end.

(** [ToNumber] of a string: white space around a literal, which is empty,
    decimal, or in base 16, 8 or 2. *)
Definition StringToNumber (s : string) : float :=
  match trim s with
  | "" => zero
  | t =>
      match radixLiteral t with
      | Some x => x
      | None =>
          match scanDecimal t with
          | Some (x, "") => x
          | _ => nan
          end
      end
  end.

(** [ToNumber] of a value that is a string or [undefined]. *)
Definition ToNumber (v : option string) : float :=
  match v with
  | Some s => StringToNumber s
  | None => nan
  end.

(** [ToString] of a value that is a string or [undefined]. *)
Definition ToString (v : option string) : string :=
  match v with
  | Some s => s
  | None => "undefined"
  end.

(** ** Date objects *)

(** The time value of a Date: [None] is NaN, an Invalid Date. *)
Definition DateObject : Type := option Z.

(** An integral Number or NaN, as the Date getters return it. *)
Definition intOrNaN : Type := option Z.

(** [x !== n] for a getter's result [x]: NaN differs from every number. *)
Definition strictNotEqual (x : intOrNaN) (n : Z) : bool :=
  match x with
  | Some v => negb (v =? n)
  | None => true
  end.

(** [x + n]. *)
Definition plus (x : intOrNaN) (n : Z) : intOrNaN := option_map (fun v => v + n) x.

(** [Date.prototype.toISOString]: UTC fields; the year has four digits from
    0 to 9999 and a sign and six digits otherwise; throws on an Invalid Date. *)
Definition isoYear (y : Z) : string :=
  if (0 <=? y) && (y <=? 9999) then fixedWidth 4 y
  else
    let sign := if y <? 0 then "-" else "+" in
    (sign ++ fixedWidth 6 (Z.abs y))%string.

Definition isoDateOfDay (d : Z) : string :=
  (isoYear (YearFromDay d) ++ "-" ++ fixedWidth 2 (MonthFromDay d + 1)
     ++ "-" ++ fixedWidth 2 (DateFromDay d))%string.

Definition toISOString (date : DateObject) : completion string :=
  match date with
  | None => Throws RangeError
  | Some t =>
      Returns (isoDateOfDay (Day t) ++ "T" ++ fixedWidth 2 (HourFromTime t)
                 ++ ":" ++ fixedWidth 2 (MinFromTime t)
                 ++ ":" ++ fixedWidth 2 (SecFromTime t)
                 ++ "." ++ fixedWidth 3 (msFromTime t) ++ "Z")%string
  end.

Definition getTime (date : DateObject) : intOrNaN := date.


(** ** Scaling

    The scaling of [prepareData] and its inverse in [predictPrices] are
    written once, over the four arithmetic operations, and run on Numbers;
    the instance on rationals is the same arithmetic without rounding. *)

Class Arithmetic (A : Type) : Type :=
  { plus_ : A -> A -> A;
    minus_ : A -> A -> A;
    times_ : A -> A -> A;
    divide_ : A -> A -> A }.

#[export] Instance NumberArithmetic : Arithmetic float :=
  { plus_ := PrimFloat.add;
    minus_ := PrimFloat.sub;
    times_ := PrimFloat.mul;
    divide_ := PrimFloat.div }.

#[export] Instance ExactArithmetic : Arithmetic Q :=
  { plus_ := Qplus;
    minus_ := Qminus;
    times_ := Qmult;
    divide_ := Qdiv }.

(** [(value - min) / (max - min)]. *)
Definition normalize {A : Type} `{Arithmetic A} (value min max : A) : A :=
  divide_ (minus_ value min) (minus_ max min).

(** [prediction * (maxPrice - minPrice) + minPrice]. *)
Definition denormalize {A : Type} `{Arithmetic A} (prediction minPrice maxPrice : A) : A :=
  plus_ (times_ prediction (minus_ maxPrice minPrice)) minPrice.

(** ** Rows and results *)

Module Raw.
Record row : Type := { Date : string; close : string }.
End Raw.

(** The result of [prepareData]; [xs] and [ys] are the arrays handed to
    [tf.tensor2d]. *)
Record prepared : Type :=
  { xs : list float;
    ys : list float;
    minDate : float;
    maxDate : float;
    minPrice : float;
    maxPrice : float }.

Record metrics : Type := { mse : float; rmse : float }.

(** *** Date.parse

    The embedding recognises the two forms that the program hands to
    [Date.parse]: the ISO date [YYYY-MM-DD], read as UTC, and the form
    [Mon D, YYYY] with an English month abbreviation, which ECMA-262 leaves
    to the implementation and V8 reads as local time.  On any other string
    it yields NaN, the result that ECMA-262 gives to an unrecognisable
    string; an engine may recognise more. *)

Definition monthNames : list string :=
  ["jan"; "feb"; "mar"; "apr"; "may"; "jun"; "jul"; "aug"; "sep"; "oct"; "nov"; "dec"].

Fixpoint indexOf (s : string) (l : list string) (i : Z) : option Z :=
  match l with
  | [] => None
  | x :: l' => if String.eqb x s then Some i else indexOf s l' (i + 1)
  end.

(** The index, from 0, of a three-letter month abbreviation, whatever its case. *)
Definition monthIndex (a b c : ascii) : option Z :=
  indexOf (String (toLower a) (String (toLower b) (String (toLower c) ""))) monthNames 0.

(** The English abbreviation of month [m], capitalised. *)
Definition monthAbbreviation (m : Z) : string :=
  nth (Z.to_nat m)
      ["Jan"; "Feb"; "Mar"; "Apr"; "May"; "Jun"; "Jul"; "Aug"; "Sep"; "Oct"; "Nov"; "Dec"] "".

(** Year, month (from 0) and day of [YYYY-MM-DD]; the day is checked against
    31 only, as V8 does, and a day past the end of the month carries over. *)
Definition isoFields (s : string) : option (Z * Z * Z) :=
  match s with
  | String y1 (String y2 (String y3 (String y4 (String "-" (String m1 (String m2
      (String "-" (String d1 (String d2 ""))))))))) =>
      if forallb isDigit [y1; y2; y3; y4; m1; m2; d1; d2] then
        let y := 1000 * digitValue y1 + 100 * digitValue y2
                 + 10 * digitValue y3 + digitValue y4 in
        let m := 10 * digitValue m1 + digitValue m2 in
        let d := 10 * digitValue d1 + digitValue d2 in
        if (1 <=? m) && (m <=? 12) && (1 <=? d) && (d <=? 31)
        then Some (y, m - 1, d) else None
      else None
  | _ => None
  end.

(** Year, month (from 0) and day of [Mon D, YYYY], for a year of four digits
    from 0100 on. *)
Definition legacyFields (s : string) : option (Z * Z * Z) :=
  match s with
  | String a (String b (String c (String " " r))) =>
      match monthIndex a b c with
      | Some m =>
          let '(d, nd, r1) := scanDigits r 0 0 in
          match r1 with
          | String "," (String " " r2) =>
              let '(y, ny, r3) := scanDigits r2 0 0 in
              if (1 <=? nd) && (nd <=? 2) && (1 <=? d) && (d <=? 31)
                 && (ny =? 4) && (100 <=? y) && String.eqb r3 ""
              then Some (y, m, d) else None
          | _ => None
          end
      | None => None
      end
  | _ => None
  end.

Section Host.

(** Offset of the host's local time from UTC, in milliseconds. *)
Variable LocalTZA : Z.

Definition LocalTime (t : Z) : Z := t + LocalTZA.
Definition UTC (t : Z) : Z := t - LocalTZA.

Definition getDay (date : DateObject) : intOrNaN :=
  option_map (fun t => WeekDay (LocalTime t)) date.

Definition getDate (date : DateObject) : intOrNaN :=
  option_map (fun t => DateFromTime (LocalTime t)) date.

Definition getMonth (date : DateObject) : intOrNaN :=
  option_map (fun t => MonthFromTime (LocalTime t)) date.

Definition getFullYear (date : DateObject) : intOrNaN :=
  option_map (fun t => YearFromTime (LocalTime t)) date.

(** [date.setDate(dt)]: the new time value of the object. *)
Definition setDate (date : DateObject) (dt : intOrNaN) : DateObject :=
  match date, dt with
  | Some t, Some n =>
      let lt := LocalTime t in
      TimeClip (UTC (MakeDate (MakeDay (YearFromTime lt) (MonthFromTime lt) n)
                              (TimeWithinDay lt)))
  | _, _ => None
  end.

Definition Date_parse (s : string) : intOrNaN :=
  match isoFields s with
  | Some (y, m, d) => TimeClip (MakeDate (MakeDay y m d) 0)
  | None =>
      match legacyFields s with
      | Some (y, m, d) => TimeClip (UTC (MakeDate (MakeDay y m d) 0))
      | None => None
      end
  end.

(** [new Date(value)] for a time value and for a string. *)
Definition newDateOfTime (tv : intOrNaN) : DateObject :=
  match tv with
  | Some t => TimeClip t
  | None => None
  end.

Definition newDateOfString (s : string) : DateObject := newDateOfTime (Date_parse s).

(** [new Date(year, month, date)]: local midnight of the day; a year from
    0 to 99 stands for 1900 + year. *)
Definition MakeFullYear (y : Z) : Z :=
  if (0 <=? y) && (y <=? 99) then 1900 + y else y.

Definition newDate (year : option string) (month : intOrNaN) (date : option string)
  : DateObject :=
  match finiteInteger (ToNumber year), month, finiteInteger (ToNumber date) with
  | Some y, Some m, Some dt =>
      TimeClip (UTC (MakeDate (MakeDay (MakeFullYear y) m dt) 0))
  | _, _, _ => None
  end.

(** [String(x)] for a getter's result. *)
Definition String_ (x : intOrNaN) : string :=
  match x with
  | Some z => decimalOfZ z
  | None => "NaN"
  end.

(** *** formatDateToISO *)

Definition formatDateToISO (dateStr : string) : string :=
  let parts := split "-" dateStr in
  let day := element parts 0 in
  let monthStr := element parts 1 in
  let year := element parts 2 in
  let month :=
    getMonth (newDateOfTime (Date_parse (ToString monthStr ++ " 1, 2020"))) in
  let date := newDate year month day in
  let yearFormatted := getFullYear date in
  let monthFormatted := padStart (String_ (plus (getMonth date) 1)) 2 "0" in
  let dayFormatted := padStart (String_ (getDate date)) 2 "0" in
  (String_ yearFormatted ++ "-" ++ monthFormatted ++ "-" ++ dayFormatted)%string.

(** *** getNext30Weekdays *)

(** One pass through the body of the [while] loop, on the array built so
    far and the current date. *)
Definition loopBody (weekdays : list string) (currentDate : DateObject)
  : completion (list string * DateObject) :=
  let dayOfWeek := getDay currentDate in
  let pushed :=
    if strictNotEqual dayOfWeek 0 && strictNotEqual dayOfWeek 6 then
      match toISOString currentDate with
      | Returns iso => Returns (weekdays ++ [hd "" (split "T" iso)])%list
      | Throws e => Throws e
      end
    else Returns weekdays in
  match pushed with
  | Returns weekdays' =>
      Returns (weekdays', setDate currentDate (plus (getDate currentDate) 1))
  | Throws e => Throws e
  end.

(** The loop, with [fuel] bounding the number of passes through its body;
    [None] when the bound is reached before the loop ends. *)
Fixpoint whileLoop (fuel : nat) (weekdays : list string) (currentDate : DateObject)
  : option (completion (list string)) :=
  if (List.length weekdays <? 30)%nat then
    match fuel with
    | O => None
    | S fuel' =>
        match loopBody weekdays currentDate with
        | Returns (weekdays', currentDate') => whileLoop fuel' weekdays' currentDate'
        | Throws e => Some (Throws e)
        end
    end
  else Some (Returns weekdays).

(** [startDate] is a Date object; [new Date(startDate)] copies its time
    value. *)
Definition getNext30Weekdays (fuel : nat) (startDate : DateObject)
  : option (completion (list string)) :=
  whileLoop fuel [] startDate.

(** *** prepareData *)

(** [Math.max(...l)] and [Math.min(...l)]. *)
Fixpoint maxFrom (highest : float) (l : list float) : float :=
  match l with
  | [] => highest
  | x :: l' =>
      if isNaN x then nan
      else if (PrimFloat.is_zero x && negb (PrimFloat.get_sign x))
              && (PrimFloat.is_zero highest && PrimFloat.get_sign highest)
      then maxFrom x l'
      else if (highest <? x)%float then maxFrom x l'
      else maxFrom highest l'
  end.

Fixpoint minFrom (lowest : float) (l : list float) : float :=
  match l with
  | [] => lowest
  | x :: l' =>
      if isNaN x then nan
      else if (PrimFloat.is_zero x && PrimFloat.get_sign x)
              && (PrimFloat.is_zero lowest && negb (PrimFloat.get_sign lowest))
      then minFrom x l'
      else if (x <? lowest)%float then minFrom x l'
      else minFrom lowest l'
  end.

Definition Math_max (l : list float) : float := maxFrom neg_infinity l.
Definition Math_min (l : list float) : float := minFrom infinity l.

(** The Number of a time value. *)
Definition numberOfTime (tv : intOrNaN) : float :=
  match tv with
  | Some t => numberOfZ t
  | None => nan
  end.

(** The timestamp and the price parsed from a row. *)
Definition parsedDate (row : Raw.row) : float :=
  numberOfTime (getTime (newDateOfString (formatDateToISO (Raw.Date row)))).

Definition parsedPrice (row : Raw.row) : float :=
  parseFloat (replaceAll "," "" (Raw.close row)).

Definition prepareData (data : list Raw.row) : completion prepared :=
  let dates := map parsedDate data in
  let prices := map parsedPrice data in
  if existsb isNaN dates || existsb isNaN prices then
    Throws (Error "Data contains NaN values")
  else
    let maxDate := Math_max dates in
    let minDate := Math_min dates in
    let maxPrice := Math_max prices in
    let minPrice := Math_min prices in
    Returns {| xs := map (fun date => normalize date minDate maxDate) dates;
               ys := map (fun price => normalize price minPrice maxPrice) prices;
               minDate := minDate; maxDate := maxDate;
               minPrice := minPrice; maxPrice := maxPrice |}.

End Host.

(** ** predictPrices

    [model] is the [predict] method of the trained model, together with the
    conversions to and from the tensors it works on: it maps the array of
    scaled dates to the array of predictions.  The result is the array
    returned together with the lines written by [console.warn]. *)

Definition denormalizeOrZero (prediction minPrice maxPrice : float)
  : float * list string :=
  let value := denormalize prediction minPrice maxPrice in
  if isNaN value then (zero, ["Prediction is NaN"]) else (value, []).

Fixpoint mapLogged {A B : Type} (f : A -> B * list string) (l : list A)
  : list B * list string :=
  match l with
  | [] => ([], [])
  | x :: l' =>
      let '(y, w) := f x in
      let '(ys, ws) := mapLogged f l' in
      (y :: ys, (w ++ ws)%list)
  end.

Definition predictPrices (model : list float -> list float) (dates : list float)
  (minDate maxDate minPrice maxPrice : float) : list float * list string :=
  let normalizedDates :=
    map (fun date => ((date - minDate) / (maxDate - minDate))%float) dates in
  let predictions := model normalizedDates in
  mapLogged (fun prediction => denormalizeOrZero prediction minPrice maxPrice)
            predictions.

(** ** calculateErrorMetrics *)

(** [l.reduce((acc, x, index) => f acc x index, init)]. *)
Fixpoint reduceFrom {A B : Type} (f : B -> A -> nat -> B) (index : nat) (acc : B)
  (l : list A) : B :=
  match l with
  | [] => acc
  | x :: l' => reduceFrom f (S index) (f acc x index) l'
  end.

Definition reduce {A B : Type} (f : B -> A -> nat -> B) (init : B) (l : list A) : B :=
  reduceFrom f 0 init l.

(** [l[index]] as a Number: [undefined] past the end, which arithmetic
    turns into NaN. *)
Definition numberAt (l : list float) (index : nat) : float := nth index l nan.

Definition calculateErrorMetrics (actualPrices predictedPrices : list float) : metrics :=
  let mse :=
    (reduce (fun sum actual index =>
               let error := (actual - numberAt predictedPrices index)%float in
               (sum + error * error)%float)
            zero actualPrices
     / numberOfZ (Z.of_nat (List.length actualPrices)))%float in
  let rmse := PrimFloat.sqrt mse in
  {| mse := mse; rmse := rmse |}.

(** The mean of the squared differences, index by index, as the
    specification words it. *)
Definition meanSquaredDifference (a p : list float) : float :=
  (fold_left (fun sum ap => (sum + (fst ap - snd ap) * (fst ap - snd ap))%float)
             (combine a p) zero
   / numberOfZ (Z.of_nat (List.length a)))%float.

(** ** Number.prototype.toFixed *)

(** The exact value of a finite Number [x] is [m * 2 ^ e]; [scaledRound x k]
    is the integer nearest to [|x| * k], the larger one on a tie. *)
Definition scaledRound (x : float) (k : Z) : Z :=
  match Prim2SF x with
  | S754_finite _ m e =>
      if 0 <=? e then Zpos m * 2 ^ e * k
      else (2 * (Zpos m * k) + 2 ^ (- e)) / (2 * 2 ^ (- e))
  | _ => 0
  end.

Fixpoint stripTrailingZeros (s : string) : string :=
  match s with
  | "" => ""
  | String c s' =>
      match stripTrailingZeros s' with
      | "" => if Ascii.eqb c "0" then "" else String c ""
      | r => String c r
      end
  end.

(** The shortest decimal with [k] or more significant digits that reads
    back as the integral Number [x] of exact value [X], if [k] digits or
    fewer than 18 suffice; of two candidates the one nearer to [X]. *)
Fixpoint shortestDecimal (fuel : nat) (k : Z) (x : float) (X : Z) (n : Z) : Z :=
  match fuel with
  | O => X
  | S fuel' =>
      let p := 10 ^ (n - k) in
      let lo := (X / p) * p in
      let hi := lo + p in
      let okLo := PrimFloat.Leibniz.eqb (numberOfZ lo) x in
      let okHi := PrimFloat.Leibniz.eqb (numberOfZ hi) x in
      if okLo && okHi then
        (if X - lo <? hi - X then lo
         else if hi - X <? X - lo then hi
         else if Z.even (X / p) then lo else hi)
      else if okLo then lo
      else if okHi then hi
      else shortestDecimal fuel' (k + 1) x X n
  end.

(** [Number::toString] for a finite Number of magnitude 1e21 or more,
    which is an integer: the digits, a point after the first when there are
    several, and the exponent. *)
Definition exponentialString (x : float) : string :=
  let X := scaledRound x 1 in
  let n := Z.of_nat (String.length (decimalOfZ X)) in
  let v := decimalOfZ (shortestDecimal 17 1 x X n) in
  let exponent := decimalOfZ (Z.of_nat (String.length v) - 1) in
  match stripTrailingZeros v with
  | String c "" => String c ("e+" ++ exponent)
  | String c r => String c ("." ++ r ++ "e+" ++ exponent)
  | "" => "0"
  end.

(** [x.toFixed(fractionDigits)], for [fractionDigits] from 0 to 100. *)
Definition toFixed (x : float) (fractionDigits : nat) : string :=
  if isNaN x then "NaN"
  else if PrimFloat.is_infinity x then
    (if (x <? 0)%float then "-Infinity" else "Infinity")
  else
    let s := if (x <? 0)%float then "-" else "" in
    let a := PrimFloat.abs x in
    if (1e21 <=? a)%float then (s ++ exponentialString a)%string
    else
      let n := scaledRound a (10 ^ Z.of_nat fractionDigits) in
      match fractionDigits with
      | O => (s ++ decimalOfZ n)%string
      | _ =>
          (s ++ decimalOfZ (n / 10 ^ Z.of_nat fractionDigits) ++ "."
             ++ fixedWidth fractionDigits (n mod 10 ^ Z.of_nat fractionDigits))%string
      end.

(** ** Papa.unparse and the file system

    Objects are lists of keys with their values; a later entry for a key
    replaces an earlier one, as in an object literal.  [unparse] writes the
    header and one line for each row, with the columns it is given, lines
    separated by CR LF; a field is quoted when it holds a comma, a quote, a
    line break, or a space at either end.  An empty array gives the empty
    text, without a header. *)

Definition quoteChar : ascii := ascii_of_nat 34.
Definition CR : ascii := ascii_of_nat 13.
Definition LF : ascii := ascii_of_nat 10.
Definition newline : string := String CR (String LF "").

Fixpoint contains (c : ascii) (s : string) : bool :=
  match s with
  | "" => false
  | String a s' => Ascii.eqb a c || contains c s'
  end.

Fixpoint lastChar (s : string) : option ascii :=
  match s with
  | "" => None
  | String c "" => Some c
  | String _ s' => lastChar s'
  end.

Definition firstChar (s : string) : option ascii :=
  match s with
  | "" => None
  | String c _ => Some c
  end.

Definition isSpace (c : option ascii) : bool :=
  match c with
  | Some a => Ascii.eqb a " "
  | None => false
  end.

Definition needsQuotes (s : string) : bool :=
  contains CR s || contains LF s || contains quoteChar s || contains "," s
  || isSpace (firstChar s) || isSpace (lastChar s).

(** A field as [unparse] writes it; [undefined] is written as nothing. *)
Definition safe (value : option string) : string :=
  match value with
  | None => ""
  | Some str =>
      let escaped := replaceAll quoteChar (String quoteChar (String quoteChar "")) str in
      if needsQuotes escaped
      then String quoteChar (escaped ++ String quoteChar "")
      else escaped
  end.

Definition object : Type := list (string * string).

Fixpoint property (key : string) (o : object) : option string :=
  match o with
  | [] => None
  | (k, v) :: o' =>
      match property key o' with
      | Some later => Some later
      | None => if String.eqb k key then Some v else None
      end
  end.

Definition unparse (data : list object) (columns : list string) : string :=
  match data with
  | [] => ""
  | _ =>
      join newline
        (join "," (map (fun c => safe (Some c)) columns)
         :: map (fun row => join "," (map (fun c => safe (property c row)) columns)) data)
  end.

(** The files of the host, by path; a write that fails is not modelled. *)
Definition fileSystem : Type := string -> option string.

Definition writeFileSync (path content : string) (fs : fileSystem) : fileSystem :=
  fun p => if String.eqb p path then Some content else fs p.

(** ** saveToCSV *)

Module Forecast.
Record row : Type :=
  { Date : string;
    PredictedPrice : float;
    RMSE : float;
    MSE : float;
    others : object }.
End Forecast.

(** The object of a row: its other properties, then the four named ones. *)
Definition objectOfRow (date predictedPrice rmse mse : string) (others : object) : object :=
  (others ++ [("Date", date); ("PredictedPrice", predictedPrice);
              ("RMSE", rmse); ("MSE", mse)])%list.

Definition saveToCSV (filePath : string) (data : list Forecast.row) (fs : fileSystem)
  : fileSystem :=
  let cleanedData :=
    map (fun row =>
           objectOfRow (trim (Forecast.Date row))
                       (toFixed (Forecast.PredictedPrice row) 2)
                       (toFixed (Forecast.RMSE row) 2)
                       (toFixed (Forecast.MSE row) 2)
                       (Forecast.others row))
        data in
  let csv := unparse cleanedData ["Date"; "PredictedPrice"; "RMSE"; "MSE"] in
  writeFileSync filePath csv fs.

(** A text of digits, a point and two digits, possibly after a minus sign. *)
Definition twoDecimalPlaces (s : string) : bool :=
  let body := match s with String "-" r => r | _ => s end in
  let '(_, ni, rest) := scanDigits body 0 0 in
  (0 <? ni)
  && match rest with
     | String "." (String a (String b "")) => isDigit a && isDigit b
     | _ => false
     end.

(** ** Reference description of the weekday scan

    The loop of [getNext30Weekdays] depends on the start date only through
    the local weekday [w0] of its first day and the number [v] of days, from
    the start, whose time value is still in the range of a Date.  [scan]
    replays it on day offsets: it collects the offsets that are pushed. *)

Inductive scanResult : Type :=
| Collected (offsets : list Z)
| OutOfRange.

Definition isWeekday (w : Z) : bool := negb (w =? 0) && negb (w =? 6).

Fixpoint scan (w0 v : Z) (fuel : nat) (offsets : list Z) (i : Z) : option scanResult :=
  if (List.length offsets <? 30)%nat then
    match fuel with
    | O => None
    | S fuel' =>
        if i <? v then
          scan w0 v fuel'
               (if isWeekday ((w0 + i) mod 7) then offsets ++ [i] else offsets)%list
               (i + 1)
        else Some OutOfRange
    end
  else Some (Collected offsets).

(** The first thirty offsets from a day of weekday [w0] that fall on a
    weekday, by the definition of the claim rather than by the loop. *)
Definition first30Weekdays (w0 : Z) : list Z :=
  firstn 30 (filter (fun i => isWeekday ((w0 + i) mod 7)) (map Z.of_nat (seq 0 42))).

(** The text pushed for the day [i] days after the time value [t], and the
    outcome of the loop that a scan result stands for. *)
Definition entry (t i : Z) : string := isoDateOfDay (Day (t + i * msPerDay)).

Definition scanOutcome (t : Z) (r : scanResult) : completion (list string) :=
  match r with
  | Collected offsets => Returns (map (entry t) offsets)
  | OutOfRange => Throws RangeError
  end.

(** [p] on the [n] integers from [lo]. *)
Fixpoint forallRange (n : nat) (lo : Z) (p : Z -> bool) : bool :=
  match n with
  | O => true
  | S n' => p lo && forallRange n' (lo + 1) p
  end.

(** Equality of lists of integers, as a boolean. *)
Fixpoint eqbZs (a b : list Z) : bool :=
  match a, b with
  | [], [] => true
  | x :: a', y :: b' => (x =? y) && eqbZs a' b'
  | _, _ => false
  end.

(** ** Decimal text, as the specification reads it *)

(** [s] is made of decimal digits only. *)
Fixpoint allDigits (s : string) : bool :=
  match s with
  | "" => true
  | String c s' => isDigit c && allDigits s'
  end.

(** The integer that the digits of [s] denote, on top of [acc]. *)
Fixpoint digitsValueFrom (acc : Z) (s : string) : Z :=
  match s with
  | "" => acc
  | String c s' => digitsValueFrom (10 * acc + digitValue c) s'
  end.

Definition digitsValue (s : string) : Z := digitsValueFrom 0 s.

(** The concatenation of a list of strings. *)
Fixpoint concatAll (l : list string) : string :=
  match l with
  | [] => ""
  | s :: l' => (s ++ concatAll l')%string
  end.

(** A decimal number written with comma separators: groups of digits joined
    by commas, then possibly a point and the digits of the fraction. *)
Definition separatedDecimal (groups : list string) (fraction : option string) : string :=
  match fraction with
  | Some f => (join "," groups ++ "." ++ f)%string
  | None => join "," groups
  end.

Definition fractionDigits (fraction : option string) : string :=
  match fraction with
  | Some f => f
  | None => ""
  end.

(** A text of digits, minus signs and points only. *)
Fixpoint plainText (s : string) : bool :=
  match s with
  | "" => true
  | String c s' => (isDigit c || Ascii.eqb c "-" || Ascii.eqb c ".") && plainText s'
  end.

(** The line that [saveToCSV] writes for a row. *)
Definition csvLine (row : Forecast.row) : string :=
  join "," [safe (Some (trim (Forecast.Date row)));
            safe (Some (toFixed (Forecast.PredictedPrice row) 2));
            safe (Some (toFixed (Forecast.RMSE row) 2));
            safe (Some (toFixed (Forecast.MSE row) 2))].

(** What the claim asks of the offsets pushed, from the offset [next] on:
    they increase, each falls on a weekday, and every offset passed over
    falls on a Saturday or Sunday. *)
Fixpoint weekdaysInOrder (w0 next : Z) (offsets : list Z) : bool :=
  match offsets with
  | [] => true
  | i :: rest =>
      (next <=? i)
      && isWeekday ((w0 + i) mod 7)
      && forallRange (Z.to_nat (i - next)) next
                     (fun j => negb (isWeekday ((w0 + j) mod 7)))
      && weekdaysInOrder w0 (i + 1) rest
  end.

(** ** The real values of Numbers

    The tolerance of the scaling round trip is measured on the real numbers
    that Numbers stand for: a finite binary64 value with sign [s], mantissa
    [m] and exponent [e] is [(-1)^s * m * 2^e]. *)

Definition pow2 (e : Z) : R := powerRZ 2 e.

Definition sgn (s : bool) : R := if s then (-1)%R else 1%R.

Definition SF2R (x : spec_float) : R :=
  match x with
  | S754_finite s m e => (sgn s * IZR (Zpos m) * pow2 e)%R
  | _ => 0%R
  end.

Definition SFfinite (x : spec_float) : bool :=
  match x with
  | S754_finite _ _ _ | S754_zero _ => true
  | _ => false
  end.

(** A zero or a finite number in canonical form. *)
Definition fin (x : spec_float) : Prop :=
  SFfinite x = true /\ valid_binary x = true.

(** The real number a finite Number stands for (0 for NaN and the
    infinities). *)
Definition B2R (x : float) : R := SF2R (Prim2SF x).

Definition finite (x : float) : Prop := fin (Prim2SF x).

(** [Number.EPSILON] is 2^-52 and [Number.MIN_VALUE] is 2^-1074: the
    relative error of one rounding is at most the first, and the absolute
    error of a rounding that underflows is at most the second. *)
Definition EPSILON : R := pow2 (-52).

Definition MIN_VALUE : R := pow2 (-1074).

Definition Rcomparison (c : comparison) (a b : R) : Prop :=
  match c with
  | Lt => (a < b)%R
  | Eq => a = b
  | Gt => (b < a)%R
  end.

(** The error of [n * (max - min)] against [v - min], for a relative error
    [u], an absolute error [eta] and magnitudes up to [M]. *)
Definition slack (u eta M : R) : R := (2 * M * (3 * u + 6 * (u * u)) + eta)%R.

(** The place of a Number on the real line, the infinities beyond every
    finite Number; 0 for NaN. *)
Definition SFrank (x : spec_float) : R :=
  match x with
  | S754_infinity s => (sgn s * pow2 1024)%R
  | _ => SF2R x
  end.

Definition rank (x : float) : R := SFrank (Prim2SF x).

(** ** main

    [main] is modelled from the rows that [loadCSV] resolves with.  The
    calls into TensorFlow.js are parameters: [arraySync] gives the values
    read back from the tensor that [tf.tensor2d] builds from an array, and
    [trainModel xs ys] is the [predict] method of the model fitted to the
    two tensors, on arrays as in [predictPrices]; both are taken to
    return.  The lines that the script itself writes to the console are
    kept in order; a write to the file system that fails is not modelled.
    The result is [None] only if the loop of [getNext30Weekdays] has not
    ended after 42 passes. *)

(** What the [catch] of [main] can receive from the code modelled here. *)
Inductive exception : Type :=
| Thrown (e : error)
| TypeError.

Inductive consoleLine : Type :=
| ConsoleWarn (message : string)
| ConsoleLog (message argument : string)
| ConsoleError (label : string) (e : exception).

(** The rows built from the dates and the future predictions, from [index]
    on.  A prediction missing at the index of a date leaves [PredictedPrice]
    undefined, and [toFixed] in [saveToCSV] then throws a TypeError before
    anything is written: [None]. *)
Fixpoint resultsFrom (index : nat) (next30Weekdays : list string)
  (futurePredictions : list float) (rmse mse : float) : option (list Forecast.row) :=
  match next30Weekdays with
  | [] => Some []
  | date :: rest =>
      match nth_error futurePredictions index,
            resultsFrom (S index) rest futurePredictions rmse mse with
      | Some price, Some rows =>
          Some ({| Forecast.Date := date; Forecast.PredictedPrice := price;
                   Forecast.RMSE := rmse; Forecast.MSE := mse;
                   Forecast.others := [] |} :: rows)
      | _, _ => None
      end
  end.

Section Main.

Variable LocalTZA : Z.
Variable arraySync : list float -> list float.
Variable trainModel : list float -> list float -> list float -> list float.
Variable outputFilePath : string.

Definition main (data : list Raw.row) (fs : fileSystem)
  : option (fileSystem * list consoleLine) :=
  match prepareData LocalTZA data with
  | Throws e => Some (fs, [ConsoleError "Error:" (Thrown e)])
  | Returns r =>
      let model := trainModel (xs r) (ys r) in
      let '(predictions, warnings) :=
        predictPrices model
          (map (fun date => denormalize date (minDate r) (maxDate r)) (arraySync (xs r)))
          (minDate r) (maxDate r) (minPrice r) (maxPrice r) in
      let actualPrices :=
        map (fun price => denormalize price (minPrice r) (maxPrice r))
            (arraySync (ys r)) in
      let m := calculateErrorMetrics actualPrices predictions in
      match data with
      | [] => Some (fs, (map ConsoleWarn warnings ++ [ConsoleError "Error:" TypeError])%list)
      | first :: _ =>
          let firstDate :=
            newDateOfString LocalTZA (formatDateToISO LocalTZA (Raw.Date first)) in
          match getNext30Weekdays LocalTZA 42 firstDate with
          | None => None
          | Some (Throws e) =>
              Some (fs, (map ConsoleWarn warnings ++ [ConsoleError "Error:" (Thrown e)])%list)
          | Some (Returns next30Weekdays) =>
              let futureDates :=
                map (fun date => numberOfTime (getTime (newDateOfString LocalTZA date)))
                    next30Weekdays in
              let '(futurePredictions, futureWarnings) :=
                predictPrices model futureDates
                  (minDate r) (maxDate r) (minPrice r) (maxPrice r) in
              let written := map ConsoleWarn (warnings ++ futureWarnings)%list in
              match resultsFrom 0 next30Weekdays futurePredictions (rmse m) (mse m) with
              | None => Some (fs, (written ++ [ConsoleError "Error:" TypeError])%list)
              | Some results =>
                  Some (saveToCSV outputFilePath results fs,
                        (written
                         ++ [ConsoleLog "Predictions and metrics saved to" outputFilePath])%list)
              end
          end
      end
  end.

End Main.

(** ** Rounding to nearest, ties to even

    [located x m e l]: the real [x] lies in the interval of the mantissa
    [m] at the exponent [e], at the place [l]: at its lower end, below,
    at or above its middle. *)
Definition located (x : R) (m e : Z) (l : location) : Prop :=
  match l with
  | loc_Exact => x = (IZR m * pow2 e)%R
  | loc_Inexact Lt => (IZR m * pow2 e < x < (IZR m + 1 / 2) * pow2 e)%R
  | loc_Inexact Eq => x = ((IZR m + 1 / 2) * pow2 e)%R
  | loc_Inexact Gt => ((IZR m + 1 / 2) * pow2 e < x < (IZR m + 1) * pow2 e)%R
  end.

(** [rounded x V]: [V] is the multiple of the spacing [2^E] of binary64 at
    [x] that is nearest to [x], the even multiple of the two when [x] is
    half way; [E] is the exponent of the format at [x]. *)
Definition rounded (x V : R) : Prop :=
  exists E n : Z,
    -1074 <= E
    /\ (0 <= x < pow2 (E + 53))%R
    /\ (-1074 < E -> (pow2 (E + 52) <= x)%R)
    /\ V = (IZR n * pow2 E)%R
    /\ (Rabs (V - x) <= pow2 E / 2)%R
    /\ (Rabs (V - x) = (pow2 E / 2)%R -> Z.even n = true).

(** [numbered s V r]: [r] is the Number of sign [s] and magnitude [V], the
    infinity when [V] is past the largest finite Number. *)
Definition numbered (s : bool) (V : R) (r : spec_float) : Prop :=
  valid_binary r = true
  /\ ((V = 0%R /\ r = S754_zero s)
      \/ ((0 < V < pow2 1024)%R
          /\ exists m e, r = S754_finite s m e /\ (IZR (Zpos m) * pow2 e)%R = V)
      \/ ((pow2 1024 <= V)%R /\ r = S754_infinity s)).

(** NaN, or a Number from 0 to 1. *)
Definition NaNOrUnit (s : spec_float) : Prop :=
  s = S754_nan
  \/ (SFleb (S754_zero false) s = true /\ SFleb s (Prim2SF one) = true).

(** ** The table, as the specification reads it

    These relations say what a field of the table is without the functions
    that write it: the Date text without the white space at its two ends,
    and, for a Number, the decimal text with two places of the nearest
    hundredth. *)

Fixpoint allWhiteSpace (s : string) : bool :=
  match s with
  | "" => true
  | String c s' => isWhiteSpace c && allWhiteSpace s'
  end.

(** [t] is [s] without the white space at its two ends: white space alone
    is left out before and after, and [t] neither begins nor ends with
    white space. *)
Definition trimmedOf (s t : string) : Prop :=
  (exists pre post,
     s = (pre ++ t ++ post)%string
     /\ allWhiteSpace pre = true /\ allWhiteSpace post = true)
  /\ (forall c rest, t = String c rest -> isWhiteSpace c = false)
  /\ (forall front c, t = (front ++ String c "")%string -> isWhiteSpace c = false).

(** [f] is the text, with exactly two decimal places, of the hundredth
    nearest to [x] (the larger in magnitude of two equally near): a minus
    sign when [x] is below zero, the digits of the integer part without
    leading zeros, a point and two digits. *)
Definition twoDecimalsOf (x : float) (f : string) : Prop :=
  exists (I : string) (a b : ascii),
    f = ((if (x <? 0)%float then "-" else "") ++ I ++ "." ++ String a (String b ""))%string
    /\ allDigits I = true /\ I <> ""
    /\ (I = "0" \/ forall rest, I <> String "0" rest)
    /\ isDigit a = true /\ isDigit b = true
    /\ (IZR (100 * digitsValue I + 10 * digitValue a + digitValue b) - 1 / 2
        <= 100 * Rabs (B2R x)
        < IZR (100 * digitsValue I + 10 * digitValue a + digitValue b) + 1 / 2)%R.

(** The field written for a Number: two decimal places for a finite Number
    of magnitude below 1e21, the name of NaN or of the infinity otherwise. *)
Definition numberField (x : float) (f : string) : Prop :=
  (isNaN x = true -> f = "NaN")
  /\ (PrimFloat.is_infinity x = true ->
      f = if (x <? 0)%float then "-Infinity" else "Infinity")
  /\ (PrimFloat.is_finite x = true -> (1e21 <=? PrimFloat.abs x)%float = false ->
      twoDecimalsOf x f).

(** The field written for a Date text: the text trimmed, as it is when it
    holds no comma, quote or line break. *)
Definition dateField (s f : string) : Prop :=
  exists t,
    trimmedOf s t
    /\ (absent "," t -> absent quoteChar t -> absent CR t -> absent LF t -> f = t).

(** A row of the table: the four fields in their order, with commas. *)
Definition rowLine (row : Forecast.row) (line : string) : Prop :=
  exists date price rmse mse,
    line = (date ++ "," ++ price ++ "," ++ rmse ++ "," ++ mse)%string
    /\ dateField (Forecast.Date row) date
    /\ numberField (Forecast.PredictedPrice row) price
    /\ numberField (Forecast.RMSE row) rmse
    /\ numberField (Forecast.MSE row) mse.

(** ** A host whose offset from UTC changes

    On a host with daylight saving the offset of local time from UTC
    depends on the time.  ECMA-262 has LocalTime(t) = t + LocalTZA(t, true)
    and UTC(t) = t - LocalTZA(t, false): [offsetAt u] is the offset in
    effect at the time value [u], and [offsetOf l] the offset by which the
    local time [l] is read.  The getters, [setDate] and the loop of
    [getNext30Weekdays] are those of the Host section, with the two
    functions in place of the one offset. *)

Module Zoned.
Section Host.

Variable offsetAt : Z -> Z.
Variable offsetOf : Z -> Z.

Definition LocalTime (t : Z) : Z := t + offsetAt t.
Definition UTC (l : Z) : Z := l - offsetOf l.

Definition getDay (date : DateObject) : intOrNaN :=
  option_map (fun t => WeekDay (LocalTime t)) date.

Definition getDate (date : DateObject) : intOrNaN :=
  option_map (fun t => DateFromTime (LocalTime t)) date.

Definition setDate (date : DateObject) (dt : intOrNaN) : DateObject :=
  match date, dt with
  | Some t, Some n =>
      let lt := LocalTime t in
      TimeClip (UTC (MakeDate (MakeDay (YearFromTime lt) (MonthFromTime lt) n)
                              (TimeWithinDay lt)))
  | _, _ => None
  end.

Definition loopBody (weekdays : list string) (currentDate : DateObject)
  : completion (list string * DateObject) :=
  let dayOfWeek := getDay currentDate in
  let pushed :=
    if strictNotEqual dayOfWeek 0 && strictNotEqual dayOfWeek 6 then
      match toISOString currentDate with
      | Returns iso => Returns (weekdays ++ [hd "" (split "T" iso)])%list
      | Throws e => Throws e
      end
    else Returns weekdays in
  match pushed with
  | Returns weekdays' =>
      Returns (weekdays', setDate currentDate (plus (getDate currentDate) 1))
  | Throws e => Throws e
  end.

Fixpoint whileLoop (fuel : nat) (weekdays : list string) (currentDate : DateObject)
  : option (completion (list string)) :=
  if (List.length weekdays <? 30)%nat then
    match fuel with
    | O => None
    | S fuel' =>
        match loopBody weekdays currentDate with
        | Returns (weekdays', currentDate') => whileLoop fuel' weekdays' currentDate'
        | Throws e => Some (Throws e)
        end
    end
  else Some (Returns weekdays).

Definition getNext30Weekdays (fuel : nat) (startDate : DateObject)
  : option (completion (list string)) :=
  whileLoop fuel [] startDate.

End Host.
End Zoned.

(** Two such hosts, for the time values of the year 2024: New York, five
    hours behind UTC in winter and four in summer (the clocks change on
    10 March and 3 November at 2 o'clock local time), and London, on UTC in
    winter and one hour ahead in summer (31 March and 27 October at 1 o'clock
    UTC).  A local time that the change skips is read by the offset before
    it, and one that occurs twice as the earlier of the two. *)
Definition offsetAtNewYork (u : Z) : Z :=
  if (1710054000000 <=? u) && (u <? 1730613600000) then -14400000 else -18000000.

Definition offsetOfNewYork (l : Z) : Z :=
  if (1710039600000 <=? l) && (l <? 1730599200000) then -14400000 else -18000000.

Definition offsetAtLondon (u : Z) : Z :=
  if (1711846800000 <=? u) && (u <? 1729990800000) then 3600000 else 0.

Definition offsetOfLondon (l : Z) : Z :=
  if (1711850400000 <=? l) && (l <? 1729994400000) then 3600000 else 0.

(** * Properties *)

(** ** Calendar arithmetic *)

Lemma monthOfYearDay_range leap k : 0 <= monthOfYearDay leap k <= 11.
Proof.
  unfold monthOfYearDay.
  repeat match goal with
         | |- context [if ?b then _ else _] => destruct b
         end; lia.
Qed.

Lemma MakeDay_successor d :
  MakeDay (YearFromDay d) (MonthFromDay d) (DateFromDay d + 1) = d + 1.
Proof.
  unfold MakeDay, DateFromDay, DayWithinYear.
  pose proof (monthOfYearDay_range (InLeapYear (YearFromDay d)) (d - DayFromYear (YearFromDay d))) as Hm.
  fold (DayWithinYear d) in Hm. fold (MonthFromDay d) in Hm.
  rewrite (Z.div_small (MonthFromDay d) 12), (Z.mod_small (MonthFromDay d) 12) by lia.
  rewrite Z.add_0_r. lia.
Qed.

Lemma Day_next t : Day (t + msPerDay) = Day t + 1.
Proof.
  unfold Day, msPerDay.
  replace (t + 86400000) with (t + 1 * 86400000) by lia.
  now rewrite Z.div_add by lia.
Qed.

Lemma WeekDay_next t : WeekDay (t + msPerDay) = (WeekDay t + 1) mod 7.
Proof.
  unfold WeekDay, WeekDayOfDay. rewrite Day_next.
  rewrite Zplus_mod_idemp_l. f_equal. lia.
Qed.

Lemma WeekDay_range t : 0 <= WeekDay t < 7.
Proof. unfold WeekDay, WeekDayOfDay. apply Z.mod_pos_bound. lia. Qed.

Lemma WeekDay_offset t i :
  0 <= i -> WeekDay (t + i * msPerDay) = (WeekDay t + i) mod 7.
Proof.
  intros Hi. unfold WeekDay, WeekDayOfDay, Day.
  rewrite Z.div_add by (unfold msPerDay; lia).
  rewrite Zplus_mod_idemp_l. f_equal. lia.
Qed.

(** ** Calendar round trip *)

Lemma DayFromYear_succ y : DayFromYear (y + 1) = DayFromYear y + DaysInYear y.
Proof.
  unfold DayFromYear, DaysInYear, InLeapYear.
  destruct (Z.eqb_spec (y mod 4) 0), (Z.eqb_spec (y mod 100) 0), (Z.eqb_spec (y mod 400) 0);
    cbn [andb orb negb]; Z.div_mod_to_equations; lia.
Qed.

Lemma DaysInYear_range y : 365 <= DaysInYear y <= 366.
Proof. unfold DaysInYear. destruct (InLeapYear y); lia. Qed.

(** [YearFromDay] inverts [DayFromYear] on the days of a year. *)
Lemma YearFromDay_spec y k :
  0 <= k < DaysInYear y -> YearFromDay (DayFromYear y + k) = y.
Proof.
  intros Hk. pose proof (DaysInYear_range y) as R.
  pose proof (DayFromYear_succ y) as S1.
  pose proof (DayFromYear_succ (y - 1)) as S0.
  pose proof (DaysInYear_range (y - 1)) as R0.
  pose proof (DayFromYear_succ (y + 1)) as S2.
  pose proof (DaysInYear_range (y + 1)) as R2.
  replace (y - 1 + 1) with y in S0 by lia.
  unfold YearFromDay.
  set (n := DayFromYear y + k) in *.
  set (e := 1970 + 400 * n / 146097).
  assert (He : y - 1 <= e <= y + 1).
  { subst e n. unfold DayFromYear. Z.div_mod_to_equations. lia. }
  assert (Hc : e = y - 1 \/ e = y \/ e = y + 1) by lia.
  destruct Hc as [-> | [-> | ->]].
  - replace (y - 1 + 1) with y by lia.
    destruct (Z.ltb_spec n (DayFromYear (y - 1))); [lia|].
    destruct (Z.leb_spec (DayFromYear y) n); lia.
  - destruct (Z.ltb_spec n (DayFromYear y)); [lia|].
    destruct (Z.leb_spec (DayFromYear (y + 1)) n); lia.
  - destruct (Z.ltb_spec n (DayFromYear (y + 1))); [lia|].
    destruct (Z.leb_spec (DayFromYear (y + 1 + 1)) n); lia.
Qed.

Ltac month_cases m Hm :=
  assert (C : m = 0 \/ m = 1 \/ m = 2 \/ m = 3 \/ m = 4 \/ m = 5 \/ m = 6 \/ m = 7
              \/ m = 8 \/ m = 9 \/ m = 10 \/ m = 11) by lia;
  destruct C as [->|[->|[->|[->|[->|[->|[->|[->|[->|[->|[->| ->]]]]]]]]]]].

Lemma monthOfYearDay_spec leap m d :
  0 <= m <= 11 -> 1 <= d <= DaysInMonth leap m ->
  monthOfYearDay leap (monthStart leap m + d - 1) = m.
Proof.
  intros Hm Hd. unfold DaysInMonth in Hd.
  destruct leap; month_cases m Hm;
    cbn in Hd; unfold monthOfYearDay; cbn [monthStart];
    repeat match goal with
           | |- context [?a <? ?b] => destruct (Z.ltb_spec a b); try lia
           end; reflexivity.
Qed.

Lemma monthStart_bound leap m d :
  0 <= m <= 11 -> 1 <= d <= DaysInMonth leap m ->
  0 <= monthStart leap m + d - 1 < (if leap then 366 else 365).
Proof.
  intros Hm Hd. unfold DaysInMonth in Hd.
  destruct leap; month_cases m Hm; cbn in Hd; cbn [monthStart]; lia.
Qed.

(** The year, month and day of the day number that [MakeDay] gives to a
    date of the calendar. *)
Lemma civil_of_MakeDay y m d :
  0 <= m <= 11 -> 1 <= d <= DaysInMonth (InLeapYear y) m ->
  YearFromDay (MakeDay y m d) = y
  /\ MonthFromDay (MakeDay y m d) = m
  /\ DateFromDay (MakeDay y m d) = d.
Proof.
  intros Hm Hd.
  assert (E : MakeDay y m d = DayFromYear y + (monthStart (InLeapYear y) m + d - 1)).
  { unfold MakeDay. rewrite (Z.div_small m 12), (Z.mod_small m 12) by lia.
    rewrite Z.add_0_r. lia. }
  pose proof (monthStart_bound (InLeapYear y) m d Hm Hd) as B.
  fold (DaysInYear y) in B.
  assert (Y : YearFromDay (MakeDay y m d) = y) by (rewrite E; now apply YearFromDay_spec).
  assert (W : DayWithinYear (MakeDay y m d) = monthStart (InLeapYear y) m + d - 1)
    by (unfold DayWithinYear; rewrite Y, E; lia).
  assert (M : MonthFromDay (MakeDay y m d) = m)
    by (unfold MonthFromDay; rewrite Y, W; now apply monthOfYearDay_spec).
  split; [exact Y|]. split; [exact M|].
  unfold DateFromDay. rewrite Y, M, W. lia.
Qed.

(** ** Strings *)

Lemma absent_app c s1 s2 : absent c s1 -> absent c s2 -> absent c (s1 ++ s2)%string.
Proof. induction s1; simpl; intuition. Qed.

Lemma split_absent sep s : absent sep s -> split sep s = [s].
Proof.
  induction s as [|a s IH]; simpl; [reflexivity|].
  intros [Ha Hs]. rewrite Ha, (IH Hs). reflexivity.
Qed.

Lemma split_app sep s1 s2 :
  absent sep s1 ->
  split sep (s1 ++ String sep s2)%string = s1 :: split sep s2.
Proof.
  induction s1 as [|a s1 IH]; simpl.
  - intros _. now rewrite Ascii.eqb_refl.
  - intros [Ha Hs]. rewrite Ha, (IH Hs). reflexivity.
Qed.

Lemma digitChar_not c n :
  (nat_of_ascii c < 48 \/ 57 < nat_of_ascii c)%nat ->
  0 <= n < 10 -> Ascii.eqb (digitChar n) c = false.
Proof.
  intros Hc Hn. apply Ascii.eqb_neq. intros E.
  apply (f_equal nat_of_ascii) in E. unfold digitChar in E.
  rewrite nat_ascii_embedding in E by lia. lia.
Qed.

Lemma fixedWidth_absent c w n :
  (nat_of_ascii c < 48 \/ 57 < nat_of_ascii c)%nat -> absent c (fixedWidth w n).
Proof.
  intros Hc. revert n. induction w as [|w IH]; intros n; cbn [fixedWidth absent]; [exact I|].
  apply absent_app; [apply IH|]. cbn [absent]. split; [|exact I].
  apply digitChar_not; [exact Hc|]. apply Z.mod_pos_bound. lia.
Qed.

Lemma notDigit_T : (nat_of_ascii "T" < 48 \/ 57 < nat_of_ascii "T")%nat.
Proof. right. vm_compute. lia. Qed.

Lemma absent_T_one c : Ascii.eqb c "T" = false -> absent "T" (String c "").
Proof. intros H. cbn [absent]. auto. Qed.

Lemma isoYear_absent_T y : absent "T" (isoYear y).
Proof.
  unfold isoYear.
  destruct (_ && _); [apply fixedWidth_absent, notDigit_T|].
  apply absent_app; [|apply fixedWidth_absent, notDigit_T].
  destruct (_ <? _); apply absent_T_one; reflexivity.
Qed.

Lemma isoDateOfDay_absent_T d : absent "T" (isoDateOfDay d).
Proof.
  unfold isoDateOfDay.
  apply absent_app; [apply isoYear_absent_T|].
  apply (absent_app "T" "-"); [apply absent_T_one; reflexivity|].
  apply (absent_app "T" (fixedWidth 2 _)); [apply fixedWidth_absent, notDigit_T|].
  apply (absent_app "T" "-"); [apply absent_T_one; reflexivity|].
  apply fixedWidth_absent, notDigit_T.
Qed.

(** The date part of [toISOString], as the loop extracts it. *)
Lemma toISOString_date t :
  exists rest,
    toISOString (Some t) = Returns (isoDateOfDay (Day t) ++ String "T" rest)%string
    /\ hd "" (split "T" (isoDateOfDay (Day t) ++ String "T" rest)%string)
       = isoDateOfDay (Day t).
Proof.
  eexists. split.
  - unfold toISOString. reflexivity.
  - rewrite split_app by apply isoDateOfDay_absent_T. reflexivity.
Qed.

(** ** The loop of getNext30Weekdays *)

Section Loop.

Variable LocalTZA : Z.

Lemma TimeClip_valid t : (- maxTime) <= t <= maxTime -> TimeClip t = Some t.
Proof.
  intros H. unfold TimeClip.
  destruct (Z.leb_spec (Z.abs t) maxTime); [reflexivity | lia].
Qed.

Lemma TimeClip_late t : maxTime < t -> TimeClip t = None.
Proof.
  intros H. unfold TimeClip.
  destruct (Z.leb_spec (Z.abs t) maxTime); [lia | reflexivity].
Qed.

Lemma setDate_next t :
  setDate LocalTZA (Some t) (plus (getDate LocalTZA (Some t)) 1)
  = TimeClip (t + msPerDay).
Proof.
  unfold setDate, getDate, plus, option_map.
  unfold YearFromTime, MonthFromTime, DateFromTime.
  rewrite MakeDay_successor. f_equal.
  unfold UTC, MakeDate, TimeWithinDay, Day, LocalTime.
  pose proof (Z.div_mod (t + LocalTZA) msPerDay) as E.
  unfold msPerDay in *. lia.
Qed.

(** One pass of the body on a valid date. *)
Lemma loopBody_valid weekdays t :
  loopBody LocalTZA weekdays (Some t)
  = Returns ((if isWeekday (WeekDay (LocalTime LocalTZA t))
              then weekdays ++ [isoDateOfDay (Day t)] else weekdays)%list,
             TimeClip (t + msPerDay)).
Proof.
  unfold loopBody. rewrite setDate_next.
  unfold getDay, option_map, strictNotEqual.
  fold (isWeekday (WeekDay (LocalTime LocalTZA t))).
  destruct (isWeekday _); [|reflexivity].
  destruct (toISOString_date t) as [rest [-> ->]]. reflexivity.
Qed.

(** One pass of the body on an Invalid Date: [getDay] is NaN, which differs
    from 0 and from 6, and [toISOString] throws. *)
Lemma loopBody_invalid weekdays :
  loopBody LocalTZA weekdays None = Throws RangeError.
Proof. reflexivity. Qed.

Lemma whileLoop_invalid fuel weekdays :
  (List.length weekdays < 30)%nat ->
  whileLoop LocalTZA (S fuel) weekdays None = Some (Throws RangeError).
Proof.
  intros H. simpl. apply Nat.ltb_lt in H. rewrite H. reflexivity.
Qed.

(** More fuel does not change a result. *)
Lemma whileLoop_more_fuel fuel extra weekdays currentDate r :
  whileLoop LocalTZA fuel weekdays currentDate = Some r ->
  whileLoop LocalTZA (fuel + extra) weekdays currentDate = Some r.
Proof.
  revert weekdays currentDate.
  induction fuel as [|fuel IH]; intros weekdays currentDate.
  - simpl. destruct extra; simpl; destruct (_ <? _)%nat; congruence.
  - simpl. destruct (_ <? _)%nat; [|congruence].
    destruct (loopBody _ _ _) as [[w d]|e]; [apply IH | congruence].
Qed.

Variable t : Z.
Hypothesis t_valid : (- maxTime) <= t <= maxTime.

Let w0 := WeekDay (LocalTime LocalTZA t).

(** Number of days from the start that are valid dates, capped at 42. *)
Let v := Z.min 42 ((maxTime - t) / msPerDay + 1).

Lemma in_range_iff i :
  0 <= i < 42 -> ((i <? v) = true <-> t + i * msPerDay <= maxTime).
Proof.
  intros Hi. subst v. rewrite Z.ltb_lt.
  pose proof (Z.div_mod (maxTime - t) msPerDay) as E.
  pose proof (Z.mod_pos_bound (maxTime - t) msPerDay) as B.
  unfold msPerDay, maxTime in *. split; intros H; nia.
Qed.

Lemma whileLoop_scan fuel :
  forall offsets i,
    0 <= i -> i + Z.of_nat fuel <= 42 ->
    (forall j, 0 <= j < i -> (j <? v) = true) ->
    whileLoop LocalTZA fuel (map (entry t) offsets) (TimeClip (t + i * msPerDay))
    = option_map (scanOutcome t) (scan w0 v fuel offsets i).
Proof.
  induction fuel as [|fuel IH]; intros offsets i Hi Hfuel Hprev.
  - simpl. rewrite length_map. destruct (_ <? _)%nat; reflexivity.
  - cbn [whileLoop scan]. rewrite length_map.
    destruct (_ <? _)%nat eqn:Hlen; [|reflexivity].
    destruct (i <? v) eqn:Hv.
    + assert (Hr : t + i * msPerDay <= maxTime) by (apply in_range_iff; [lia | exact Hv]).
      rewrite TimeClip_valid by (unfold msPerDay in *; lia).
      rewrite loopBody_valid.
      unfold LocalTime.
      replace (t + i * msPerDay + LocalTZA) with (t + LocalTZA + i * msPerDay) by lia.
      rewrite WeekDay_offset by lia.
      fold (LocalTime LocalTZA t). fold w0.
      replace (t + i * msPerDay + msPerDay) with (t + (i + 1) * msPerDay) by lia.
      rewrite <- IH.
      * destruct (isWeekday _); [|reflexivity].
        rewrite map_app. reflexivity.
      * lia.
      * lia.
      * intros j Hj. destruct (Z.eq_dec j i) as [->|]; [exact Hv | apply Hprev; lia].
    + assert (Hr : maxTime < t + i * msPerDay).
      { destruct (Z.le_gt_cases (t + i * msPerDay) maxTime) as [H|H]; [|lia].
        apply in_range_iff in H; [congruence | lia]. }
      rewrite TimeClip_late by exact Hr.
      rewrite loopBody_invalid. reflexivity.
Qed.

End Loop.

Lemma eqbZs_eq a : forall b, eqbZs a b = true -> a = b.
Proof.
  induction a as [|x a IH]; intros [|y b]; simpl; try discriminate; [reflexivity|].
  intros H. apply andb_prop in H as [Hx Hr].
  apply Z.eqb_eq in Hx. subst y. f_equal. now apply IH.
Qed.

Lemma forallRange_spec n p : forall lo,
  forallRange n lo p = true -> forall x, lo <= x < lo + Z.of_nat n -> p x = true.
Proof.
  induction n as [|n IH]; intros lo H x Hx; [lia|].
  simpl in H. apply andb_prop in H as [H0 H1].
  destruct (Z.eq_dec x lo) as [->|]; [exact H0|].
  apply (IH (lo + 1)); [exact H1 | lia].
Qed.

Lemma scan_collects_30 fuel : forall w v acc i l,
  (List.length acc <= 30)%nat ->
  scan w v fuel acc i = Some (Collected l) -> List.length l = 30%nat.
Proof.
  induction fuel as [|fuel IH]; intros w v acc i l Hacc; cbn [scan].
  - destruct (Nat.ltb_spec (List.length acc) 30); [discriminate|].
    intros [= <-]. lia.
  - destruct (Nat.ltb_spec (List.length acc) 30) as [Hlt|Hge].
    + destruct (i <? v); [|discriminate].
      apply IH. destruct (isWeekday _); [|exact Hacc].
      rewrite length_app. cbn [List.length]. lia.
    + intros [= <-]. lia.
Qed.

(** Whatever the weekday of the first day and however many days remain in
    the range of a Date, forty-two passes end the scan. *)
Lemma scan_total w0 v :
  0 <= w0 < 7 -> 1 <= v <= 42 -> exists r, scan w0 v 42 [] 0 = Some r.
Proof.
  intros Hw Hv.
  assert (H : forallRange 7 0 (fun w =>
                forallRange 42 1 (fun u =>
                  match scan w u 42 [] 0 with Some _ => true | None => false end)) = true)
    by (vm_compute; reflexivity).
  pose proof (forallRange_spec _ _ _ H w0 ltac:(lia)) as H1. cbv beta in H1.
  pose proof (forallRange_spec _ _ _ H1 v ltac:(lia)) as H2. cbv beta in H2.
  destruct (scan w0 v 42 [] 0) as [r|]; [now exists r | discriminate].
Qed.

(** With forty-two days in range the scan collects the first thirty
    weekday offsets. *)
Lemma scan_in_range w0 :
  0 <= w0 < 7 ->
  scan w0 42 42 [] 0 = Some (Collected (first30Weekdays w0))
  /\ List.length (first30Weekdays w0) = 30%nat.
Proof.
  intros Hw.
  assert (H : forallRange 7 0 (fun w =>
                match scan w 42 42 [] 0 with
                | Some (Collected l) =>
                    eqbZs l (first30Weekdays w) && (List.length l =? 30)%nat
                | _ => false
                end) = true)
    by (vm_compute; reflexivity).
  pose proof (forallRange_spec _ _ _ H w0 ltac:(lia)) as H1. cbv beta in H1.
  destruct (scan w0 42 42 [] 0) as [[l|]|]; [|discriminate H1|discriminate H1].
  apply andb_prop in H1 as [E L].
  apply eqbZs_eq in E. subst l.
  apply Nat.eqb_eq in L. split; [reflexivity | exact L].
Qed.

(** The loop on a valid start date is the scan. *)
Lemma getNext30Weekdays_scan LocalTZA t :
  (- maxTime) <= t <= maxTime ->
  getNext30Weekdays LocalTZA 42 (Some t)
  = option_map (scanOutcome t)
      (scan (WeekDay (LocalTime LocalTZA t))
            (Z.min 42 ((maxTime - t) / msPerDay + 1)) 42 [] 0).
Proof.
  intros Ht. unfold getNext30Weekdays.
  pose proof (whileLoop_scan LocalTZA t Ht 42 [] 0) as H.
  rewrite Z.mul_0_l, Z.add_0_r, TimeClip_valid in H by exact Ht.
  apply H; lia.
Qed.

(** On a start date with forty-one further days in range, the function
    returns the entries of the first thirty weekday offsets. *)
Lemma getNext30Weekdays_in_range LocalTZA t :
  (- maxTime) <= t -> t + 41 * msPerDay <= maxTime ->
  getNext30Weekdays LocalTZA 42 (Some t)
  = Some (Returns (map (entry t) (first30Weekdays (WeekDay (LocalTime LocalTZA t))))).
Proof.
  intros Hlo Hhi.
  rewrite getNext30Weekdays_scan by (unfold msPerDay in *; lia).
  replace (Z.min 42 _) with 42.
  - destruct (scan_in_range (WeekDay (LocalTime LocalTZA t)) (WeekDay_range _)) as [-> _].
    reflexivity.
  - pose proof (Z.div_mod (maxTime - t) msPerDay) as E.
    pose proof (Z.mod_pos_bound (maxTime - t) msPerDay) as B.
    unfold msPerDay, maxTime in *. lia.
Qed.




(** C1, at a host five hours west of UTC ([LocalTZA] = -18000000) and the
    start date [new Date("2024-04-01")], midnight UTC of a Monday.  The loop
    tests the local weekday and pushes the UTC date: the local Sunday evening
    hides Monday 1 April, and the local Friday evening lets Saturday 6 April
    through.  The array has thirty entries, starts a day late and holds
    Saturdays. *)
Theorem getNext30Weekdays_west_of_UTC :
  Date_parse (-18000000) "2024-04-01" = Some 1711929600000
  /\ WeekDay 1711929600000 = 1
  /\ exists weekdays,
       getNext30Weekdays (-18000000) 42 (Some 1711929600000) = Some (Returns weekdays)
       /\ List.length weekdays = 30%nat
       /\ firstn 6 weekdays
          = ["2024-04-02"; "2024-04-03"; "2024-04-04"; "2024-04-05"; "2024-04-06";
             "2024-04-09"]
       /\ option_map WeekDay (Date_parse (-18000000) "2024-04-06") = Some 6
       /\ ~ In "2024-04-01" weekdays.
Proof.
  split; [vm_compute; reflexivity|].
  split; [vm_compute; reflexivity|].
  eexists. split; [vm_compute; reflexivity|].
  split; [reflexivity|].
  split; [reflexivity|].
  split; [vm_compute; reflexivity|].
  intros H. cbn [In] in H.
  repeat (destruct H as [H|H]; [discriminate H|]). exact H.
Qed.

(** ** getNext30Weekdays on a host in UTC *)

(** The first thirty weekday offsets are thirty, increase from the first
    weekday on, and pass over Saturdays and Sundays only. *)
Lemma first30Weekdays_in_order w0 :
  0 <= w0 < 7 ->
  List.length (first30Weekdays w0) = 30%nat
  /\ weekdaysInOrder w0 0 (first30Weekdays w0) = true.
Proof.
  intros Hw.
  assert (H : forallRange 7 0 (fun w =>
                (List.length (first30Weekdays w) =? 30)%nat
                && weekdaysInOrder w 0 (first30Weekdays w)) = true)
    by (vm_compute; reflexivity).
  pose proof (forallRange_spec _ _ _ H w0 ltac:(lia)) as E. cbv beta in E.
  apply andb_prop in E as [L O]. apply Nat.eqb_eq in L. split; assumption.
Qed.

(** When local time is UTC the weekday tested and the date pushed belong
    to the same day: the entries are the dates of the first thirty weekdays
    from the day of the start date on. *)
Lemma getNext30Weekdays_on_UTC t :
  (- maxTime) <= t -> t + 41 * msPerDay <= maxTime ->
  getNext30Weekdays 0 42 (Some t)
  = Some (Returns (map (fun i => isoDateOfDay (Day t + i))
                       (first30Weekdays (WeekDayOfDay (Day t))))).
Proof.
  intros Hlo Hhi. rewrite (getNext30Weekdays_in_range 0 t Hlo Hhi).
  unfold LocalTime. rewrite Z.add_0_r. do 2 f_equal.
  apply map_ext. intros i. unfold entry, Day.
  now rewrite Z.div_add by (unfold msPerDay; lia).
Qed.


(** ** Binary64 arithmetic *)

Lemma Prim2SF_not_nan x : isNaN x = false -> Prim2SF x <> S754_nan.
Proof.
  unfold isNaN, Prim2SF. intros ->.
  destruct (is_zero x); [discriminate|].
  destruct (is_infinity x); [discriminate|].
  destruct (Z.frexp x) as [r e].
  destruct (shr_fexp _ _ _ _ _) as [s e'].
  destruct (shr_m s); discriminate.
Qed.

Lemma isNaN_Prim2SF x : isNaN x = true -> x = nan.
Proof.
  intros H. apply Prim2SF_inj. unfold Prim2SF at 1. unfold isNaN in H.
  rewrite H. reflexivity.
Qed.

Lemma isNaN_spec x : isNaN x = true <-> Prim2SF x = S754_nan.
Proof.
  split.
  - intros H. rewrite (isNaN_Prim2SF x H). reflexivity.
  - intros H. destruct (isNaN x) eqn:E; [reflexivity|].
    now apply Prim2SF_not_nan in E.
Qed.

Lemma binary_round_aux_opp s m e l :
  binary_round_aux prec emax (negb s) m e l = SFopp (binary_round_aux prec emax s m e l).
Proof.
  unfold binary_round_aux.
  destruct (shr_fexp prec emax m e l) as [mrs' e'].
  destruct (shr_fexp prec emax _ e' loc_Exact) as [mrs'' e''].
  destruct (shr_m mrs''); [reflexivity| |reflexivity].
  destruct (e'' <=? emax - prec)%Z; reflexivity.
Qed.

Lemma binary_normalize_opp z e :
  z <> 0%Z ->
  binary_normalize prec emax (- z) e false = SFopp (binary_normalize prec emax z e false).
Proof.
  intros Hz. destruct z as [|p|p]; [congruence| |]; cbn [Z.opp binary_normalize].
  - unfold binary_round. destruct (shl_align _ _ _) as [mz ez].
    apply (binary_round_aux_opp false).
  - unfold binary_round. destruct (shl_align _ _ _) as [mz ez].
    rewrite (binary_round_aux_opp false). now destruct (binary_round_aux _ _ _ _ _ _) as [[]|[]| |[] ? ?].
Qed.

(** Exchanging the operands of a subtraction negates the difference, or
    leaves it as it is when it is a zero or NaN. *)
Lemma SFsub_swap a b :
  SF64sub b a = SF64sub a b \/ SF64sub b a = SFopp (SF64sub a b).
Proof.
  unfold SF64sub.
  destruct a as [sa|sa| |sa ma ea], b as [sb|sb| |sb mb eb];
    try (destruct sa, sb; cbn; auto; fail);
    try (destruct sa; cbn; auto; fail);
    try (destruct sb; cbn; auto; fail);
    try (cbn; auto; fail).
  cbn [SFsub]. rewrite (Z.min_comm eb ea).
  set (x := cond_Zopp sa (Z.pos (fst (shl_align ma ea (Z.min ea eb))))).
  set (y := cond_Zopp sb (Z.pos (fst (shl_align mb eb (Z.min ea eb))))).
  destruct (Z.eq_dec (x - y) 0) as [E|E].
  - left. replace (y - x)%Z with 0%Z by lia. now rewrite E.
  - right. replace (y - x)%Z with (- (x - y))%Z by lia.
    now apply binary_normalize_opp.
Qed.

Lemma SFmul_opp_opp u : SF64mul (SFopp u) (SFopp u) = SF64mul u u.
Proof. destruct u as [[]|[]| |[] m e]; reflexivity. Qed.

(** The square of a difference does not depend on the order of its operands. *)
Lemma square_of_difference_comm (x y : float) :
  ((x - y) * (x - y) = (y - x) * (y - x))%float.
Proof.
  apply Prim2SF_inj. rewrite !mul_spec, !sub_spec.
  destruct (SFsub_swap (Prim2SF y) (Prim2SF x)) as [-> | ->];
    [reflexivity | apply SFmul_opp_opp].
Qed.

(** A Number that is not NaN, minus itself, is a zero or NaN; the quotient
    of two such differences is NaN. *)
Lemma SFsub_diag a :
  SF64sub a a = S754_zero false \/ SF64sub a a = S754_nan.
Proof.
  unfold SF64sub. destruct a as [[]|[]| |s m e]; cbn [SFsub]; auto.
  left. rewrite Z.sub_diag. reflexivity.
Qed.

Lemma normalize_degenerate (d : float) : normalize d d d = nan.
Proof.
  unfold normalize. cbn [divide_ minus_ NumberArithmetic].
  apply Prim2SF_inj. rewrite div_spec, sub_spec.
  destruct (SFsub_diag (Prim2SF d)) as [-> | ->]; reflexivity.
Qed.

Lemma Math_max_singleton d : isNaN d = false -> Math_max [d] = d.
Proof.
  intros Hd. unfold Math_max. cbn [maxFrom]. rewrite Hd.
  change (PrimFloat.is_zero neg_infinity) with false.
  rewrite andb_false_r.
  destruct (neg_infinity <? d)%float eqn:L; [reflexivity|].
  rewrite ltb_spec in L. apply Prim2SF_inj.
  pose proof (Prim2SF_not_nan d Hd) as N.
  change (Prim2SF neg_infinity) with (S754_infinity true) in *.
  destruct (Prim2SF d) as [s|[]| |s m e]; try discriminate L; [reflexivity | congruence].
Qed.

Lemma Math_min_singleton d : isNaN d = false -> Math_min [d] = d.
Proof.
  intros Hd. unfold Math_min. cbn [minFrom]. rewrite Hd.
  change (PrimFloat.is_zero infinity) with false.
  rewrite andb_false_r.
  destruct (d <? infinity)%float eqn:L; [reflexivity|].
  rewrite ltb_spec in L. apply Prim2SF_inj.
  pose proof (Prim2SF_not_nan d Hd) as N.
  change (Prim2SF infinity) with (S754_infinity false) in *.
  destruct (Prim2SF d) as [[]|[]| |[] m e]; try discriminate L; [reflexivity | congruence].
Qed.

(** ** prepareData *)

Lemma existsb_isNaN_map {A : Type} (f : A -> float) (l : list A) :
  existsb isNaN (map f l) = true <-> exists x, In x l /\ isNaN (f x) = true.
Proof.
  rewrite existsb_exists. split.
  - intros [y [Hy Hn]]. apply in_map_iff in Hy as [x [<- Hx]]. now exists x.
  - intros [x [Hx Hn]]. exists (f x). split; [now apply in_map | exact Hn].
Qed.

(** C2.  [prepareData] throws the error "Data contains NaN values" exactly
    when the timestamp or the price parsed from some row is NaN; the error
    is the whole outcome, so nothing is scaled and no row is kept.  When no
    parsed value is NaN the function returns, with one scaled date and one
    scaled price for every row. *)
Theorem prepareData_throws_iff_NaN LocalTZA data :
  (prepareData LocalTZA data = Throws (Error "Data contains NaN values")
   <-> exists row, In row data
         /\ (isNaN (parsedDate LocalTZA row) = true \/ isNaN (parsedPrice row) = true))
  /\ (prepareData LocalTZA data = Throws (Error "Data contains NaN values")
      \/ exists r, prepareData LocalTZA data = Returns r
           /\ List.length (xs r) = List.length data
           /\ List.length (ys r) = List.length data).
Proof.
  unfold prepareData.
  destruct (existsb isNaN (map (parsedDate LocalTZA) data)
            || existsb isNaN (map parsedPrice data)) eqn:E.
  - split; [|left; reflexivity]. split; [intros _|reflexivity].
    apply orb_true_iff in E as [E|E]; apply existsb_isNaN_map in E as [row [Hin Hn]];
      exists row; auto.
  - split.
    + split; [discriminate|]. intros [row [Hin Hn]].
      apply orb_false_iff in E as [E1 E2]. exfalso.
      destruct Hn as [Hn|Hn].
      * assert (T : existsb isNaN (map (parsedDate LocalTZA) data) = true)
          by (apply existsb_isNaN_map; now exists row).
        congruence.
      * assert (T : existsb isNaN (map parsedPrice data) = true)
          by (apply existsb_isNaN_map; now exists row).
        congruence.
    + right. eexists. split; [reflexivity|]. cbn [xs ys].
      rewrite !length_map. split; reflexivity.
Qed.

(** C5.  A single row whose parsed timestamp and price are not NaN passes
    the validation; its minimum and maximum coincide, the unguarded division
    of [normalize] yields NaN for the date and for the price, and
    [prepareData] returns these NaN values: no error is thrown. *)
Theorem prepareData_single_row LocalTZA row :
  isNaN (parsedDate LocalTZA row) = false ->
  isNaN (parsedPrice row) = false ->
  prepareData LocalTZA [row]
  = Returns {| xs := [nan]; ys := [nan];
               minDate := parsedDate LocalTZA row; maxDate := parsedDate LocalTZA row;
               minPrice := parsedPrice row; maxPrice := parsedPrice row |}
  /\ normalize (parsedDate LocalTZA row) (parsedDate LocalTZA row) (parsedDate LocalTZA row) = nan
  /\ normalize (parsedPrice row) (parsedPrice row) (parsedPrice row) = nan.
Proof.
  intros Hd Hp. split; [|split; apply normalize_degenerate].
  unfold prepareData. cbn [map existsb]. rewrite Hd, Hp. cbn [orb].
  rewrite !Math_max_singleton, !Math_min_singleton by assumption.
  rewrite !normalize_degenerate. reflexivity.
Qed.

Lemma prepareData_single_row_witness :
  let row := {| Raw.Date := "01-Apr-2024"; Raw.close := "3,883.85" |} in
  prepareData 19800000 [row]
  = Returns {| xs := [nan]; ys := [nan];
               minDate := parsedDate 19800000 row; maxDate := parsedDate 19800000 row;
               minPrice := parsedPrice row; maxPrice := parsedPrice row |}
  /\ normalize (parsedDate 19800000 row) (parsedDate 19800000 row) (parsedDate 19800000 row) = nan
  /\ normalize (parsedPrice row) (parsedPrice row) (parsedPrice row) = nan.
Proof.
  intros row.
  apply (prepareData_single_row 19800000 row); vm_compute; reflexivity.
Defined.

(** ** predictPrices *)

Lemma mapLogged_length {A B : Type} (f : A -> B * list string) (l : list A) :
  List.length (fst (mapLogged f l)) = List.length l.
Proof.
  induction l as [|x l IH]; [reflexivity|].
  cbn [mapLogged]. destruct (f x) as [y w], (mapLogged f l) as [ys ws].
  cbn [fst List.length] in *. now rewrite IH.
Qed.

Lemma mapLogged_nth {A B : Type} (f : A -> B * list string) (l : list A) :
  forall i x, nth_error l i = Some x ->
              nth_error (fst (mapLogged f l)) i = Some (fst (f x)).
Proof.
  induction l as [|a l IH]; intros [|i] x H; try discriminate H;
    cbn [mapLogged]; destruct (f a) as [y w] eqn:E, (mapLogged f l) as [ys ws];
    cbn [fst nth_error] in *.
  - injection H as <-. now rewrite E.
  - now apply IH.
Qed.

Lemma mapLogged_log {A B : Type} (f : A -> B * list string) (l : list A) :
  snd (mapLogged f l) = List.concat (map (fun x => snd (f x)) l).
Proof.
  induction l as [|a l IH]; [reflexivity|].
  cbn [mapLogged map List.concat]. destruct (f a) as [y w], (mapLogged f l) as [ys ws].
  cbn [snd] in *. now rewrite IH.
Qed.

(** C4.  [predictPrices] returns normally, with one price for each
    prediction of the model.  Where the denormalized value
    [prediction * (maxPrice - minPrice) + minPrice] is NaN the price is 0
    and the line "Prediction is NaN" is written to the console; elsewhere
    the price is the denormalized value and nothing is written.  The console
    has one line for each NaN value, in order. *)
Theorem predictPrices_NaN_to_zero
  model dates (minDate maxDate minPrice maxPrice : float) :
  let predictions :=
    model (map (fun date => ((date - minDate) / (maxDate - minDate))%float) dates) in
  let value prediction := (prediction * (maxPrice - minPrice) + minPrice)%float in
  let predictedArray := fst (predictPrices model dates minDate maxDate minPrice maxPrice) in
  let warnings := snd (predictPrices model dates minDate maxDate minPrice maxPrice) in
  List.length predictedArray = List.length predictions
  /\ (forall i prediction,
        nth_error predictions i = Some prediction ->
        nth_error predictedArray i
        = Some (if isNaN (value prediction) then zero else value prediction))
  /\ warnings
     = map (fun _ => "Prediction is NaN")
           (filter (fun prediction => isNaN (value prediction)) predictions).
Proof.
  cbv zeta. unfold predictPrices.
  set (predictions := model _).
  split; [apply mapLogged_length|]. split.
  - intros i prediction H.
    rewrite (mapLogged_nth _ _ _ _ H). f_equal.
    unfold denormalizeOrZero, denormalize. cbn [plus_ times_ minus_ NumberArithmetic].
    now destruct (isNaN _).
  - rewrite mapLogged_log. clear. induction predictions as [|p l IH]; [reflexivity|].
    cbn [map List.concat filter]. rewrite IH.
    unfold denormalizeOrZero at 1, denormalize. cbn [plus_ times_ minus_ NumberArithmetic].
    now destruct (isNaN _).
Qed.

(** ** calculateErrorMetrics *)

Lemma reduceFrom_combine (p : list float) :
  forall (a front : list float) (acc : float),
    List.length a = List.length p ->
    reduceFrom (fun sum actual index =>
                  (sum + (actual - numberAt (front ++ p) index)
                         * (actual - numberAt (front ++ p) index))%float)
               (List.length front) acc a
    = fold_left (fun sum ap => (sum + (fst ap - snd ap) * (fst ap - snd ap))%float)
                (combine a p) acc.
Proof.
  induction p as [|y p IH]; intros [|x a] front acc L; try discriminate L; [reflexivity|].
  cbn [reduceFrom combine fold_left fst snd].
  replace (numberAt (front ++ y :: p) (List.length front)) with y
    by (unfold numberAt; now rewrite nth_middle).
  specialize (IH a (front ++ [y])%list (acc + (x - y) * (x - y))%float).
  rewrite <- app_assoc, length_app in IH. cbn [List.length app] in IH.
  rewrite Nat.add_1_r in IH. apply IH. now injection L.
Qed.

Lemma fold_squares_comm (a p : list float) : forall acc,
  fold_left (fun sum ap => (sum + (fst ap - snd ap) * (fst ap - snd ap))%float)
            (combine a p) acc
  = fold_left (fun sum ap => (sum + (fst ap - snd ap) * (fst ap - snd ap))%float)
              (combine p a) acc.
Proof.
  revert p. induction a as [|x a IH]; intros [|y p] acc; try reflexivity.
  cbn [combine fold_left fst snd]. rewrite (square_of_difference_comm x y). apply IH.
Qed.

(** C6.  On sequences of equal length (empty ones included, where both
    sides are NaN), [calculateErrorMetrics] returns as [mse] the mean of the
    squared differences taken index by index, and as [rmse] the square root
    of that [mse]; exchanging the two sequences leaves [mse] the same
    Number. *)
Theorem calculateErrorMetrics_spec (a p : list float) :
  List.length a = List.length p ->
  mse (calculateErrorMetrics a p) = meanSquaredDifference a p
  /\ rmse (calculateErrorMetrics a p) = PrimFloat.sqrt (mse (calculateErrorMetrics a p))
  /\ mse (calculateErrorMetrics a p) = mse (calculateErrorMetrics p a).
Proof.
  intros L.
  assert (E : forall u v, List.length u = List.length v ->
                mse (calculateErrorMetrics u v) = meanSquaredDifference u v).
  { intros u v Luv. unfold calculateErrorMetrics, meanSquaredDifference, reduce.
    cbn [mse]. f_equal. apply (reduceFrom_combine v u [] zero Luv). }
  split; [apply E, L|]. split; [reflexivity|].
  rewrite (E a p L), (E p a (eq_sym L)).
  unfold meanSquaredDifference. rewrite L. f_equal. apply fold_squares_comm.
Qed.

Lemma calculateErrorMetrics_spec_witness :
  mse (calculateErrorMetrics [100; 110.5]%float [101; 108]%float)
  = meanSquaredDifference [100; 110.5]%float [101; 108]%float
  /\ rmse (calculateErrorMetrics [100; 110.5]%float [101; 108]%float)
     = PrimFloat.sqrt (mse (calculateErrorMetrics [100; 110.5]%float [101; 108]%float))
  /\ mse (calculateErrorMetrics [100; 110.5]%float [101; 108]%float)
     = mse (calculateErrorMetrics [101; 108]%float [100; 110.5]%float).
Proof.
  apply (calculateErrorMetrics_spec [100; 110.5]%float [101; 108]%float).
  reflexivity.
Defined.

(** ** The metrics of a single-row input *)

(** Whatever is predicted for it, an actual price that is NaN makes both
    metrics NaN. *)
Lemma calculateErrorMetrics_NaN_actual (p : float) :
  calculateErrorMetrics [nan] [p] = {| mse := nan; rmse := nan |}.
Proof.
  unfold calculateErrorMetrics, reduce. cbn [reduceFrom numberAt nth List.length].
  assert (E : ((zero + (nan - p) * (nan - p)) / numberOfZ (Z.of_nat 1) = nan)%float).
  { apply Prim2SF_inj. rewrite div_spec, add_spec, mul_spec, sub_spec.
    change (Prim2SF nan) with S754_nan. change (Prim2SF zero) with (S754_zero false).
    reflexivity. }
  rewrite E. reflexivity.
Qed.

(** ** Rounding errors of binary64 arithmetic *)


Lemma pow2_pos e : (0 < pow2 e)%R.
Proof. apply powerRZ_lt. lra. Qed.

Lemma pow2_add a b : pow2 (a + b) = (pow2 a * pow2 b)%R.
Proof. apply powerRZ_add. lra. Qed.

Lemma pow2_succ a : pow2 (a + 1) = (2 * pow2 a)%R.
Proof. rewrite pow2_add. unfold pow2 at 2. simpl. lra. Qed.

Lemma pow2_IZR k : 0 <= k -> pow2 k = IZR (2 ^ k).
Proof.
  intros Hk. unfold pow2.
  rewrite <- (Z2Nat.id k Hk) at 1. rewrite <- pow_powerRZ.
  rewrite pow_IZR. now rewrite Z2Nat.id.
Qed.

Lemma pow2_le a b : a <= b -> (pow2 a <= pow2 b)%R.
Proof.
  intros H. replace b with (a + (b - a)) by lia. rewrite pow2_add.
  rewrite (pow2_IZR (b - a)) by lia.
  assert (1 <= 2 ^ (b - a)) by (apply (Z.pow_le_mono_r 2 0); lia).
  apply IZR_le in H0. pose proof (pow2_pos a). nra.
Qed.

(** Number of binary digits. *)
Lemma digits2_pos_bounds p :
  2 ^ (Zpos (digits2_pos p) - 1) <= Zpos p < 2 ^ Zpos (digits2_pos p).
Proof.
  induction p as [p IH|p IH|]; cbn [digits2_pos].
  - rewrite Pos2Z.inj_succ. replace (Z.succ (Z.pos (digits2_pos p)) - 1) with (Z.pos (digits2_pos p) - 1 + 1) by lia.
    rewrite Z.pow_add_r, Z.pow_succ_r by lia. lia.
  - rewrite Pos2Z.inj_succ. replace (Z.succ (Z.pos (digits2_pos p)) - 1) with (Z.pos (digits2_pos p) - 1 + 1) by lia.
    rewrite Z.pow_add_r, Z.pow_succ_r by lia. lia.
  - cbn. lia.
Qed.

Lemma Zdigits2_bounds m :
  0 < m -> 2 ^ (Zdigits2 m - 1) <= m < 2 ^ Zdigits2 m.
Proof. destruct m as [|p|p]; try lia. intros _. apply digits2_pos_bounds. Qed.

Lemma Zdigits2_unique m d :
  0 < d -> 2 ^ (d - 1) <= m < 2 ^ d -> Zdigits2 m = d.
Proof.
  intros Hd H. assert (0 < m) by (pose proof (Z.pow_pos_nonneg 2 (d - 1)); lia).
  pose proof (Zdigits2_bounds m H0) as B.
  assert (0 < Zdigits2 m) by (destruct m; cbn; lia).
  destruct (Z.lt_trichotomy (Zdigits2 m) d) as [L|[E|G]]; [|exact E|].
  - assert (2 ^ Zdigits2 m <= 2 ^ (d - 1)) by (apply Z.pow_le_mono_r; lia). lia.
  - assert (2 ^ d <= 2 ^ (Zdigits2 m - 1)) by (apply Z.pow_le_mono_r; lia). lia.
Qed.

(** Shifting right. *)
Lemma iter_pos_nat {A} (f : A -> A) p x :
  iter_pos f p x = Nat.iter (Pos.to_nat p) f x.
Proof.
  revert x. induction p as [p IH|p IH|]; intros x; cbn [iter_pos].
  - rewrite !IH. rewrite Pos2Nat.inj_xI.
    replace (S (2 * Pos.to_nat p))%nat with (Pos.to_nat p + (Pos.to_nat p + 1))%nat by lia.
    rewrite !Nat.iter_add. reflexivity.
  - rewrite !IH. rewrite Pos2Nat.inj_xO.
    replace (2 * Pos.to_nat p)%nat with (Pos.to_nat p + Pos.to_nat p)%nat by lia.
    now rewrite Nat.iter_add.
  - reflexivity.
Qed.

Lemma shr_1_m mrs : 0 <= shr_m mrs -> shr_m (shr_1 mrs) = shr_m mrs / 2.
Proof.
  destruct mrs as [m r s]. cbn [shr_m]. intros Hm.
  destruct m as [|[p|p|]|p]; cbn [shr_1 shr_m]; try lia; try reflexivity.
  - apply Z.div_unique with (r := 1); lia.
  - apply Z.div_unique with (r := 0); lia.
Qed.

Lemma shr_iter_m n mrs :
  0 <= shr_m mrs -> shr_m (Nat.iter n shr_1 mrs) = shr_m mrs / 2 ^ Z.of_nat n.
Proof.
  intros Hm. induction n as [|n IH].
  - cbn. now rewrite Z.div_1_r.
  - rewrite Nat.iter_succ. rewrite shr_1_m.
    + rewrite IH. rewrite Nat2Z.inj_succ, Z.pow_succ_r by lia.
      rewrite Z.div_div by lia. f_equal. lia.
    + rewrite IH. apply Z.div_pos; [exact Hm|]. apply Z.pow_pos_nonneg; lia.
Qed.

Lemma shr_m_spec mrs e k :
  0 <= shr_m mrs ->
  shr_m (fst (shr mrs e k)) = (if 0 <? k then shr_m mrs / 2 ^ k else shr_m mrs)
  /\ snd (shr mrs e k) = (if 0 <? k then e + k else e).
Proof.
  intros Hm. unfold shr. destruct k as [|p|p]; cbn [fst snd]; try (split; reflexivity).
  split; [|reflexivity].
  rewrite iter_pos_nat, shr_iter_m by exact Hm.
  now rewrite positive_nat_Z.
Qed.

(** The exponent of the format. *)
Lemma fexp_spec e : fexp prec emax e = Z.max (e - 53) (-1074).
Proof. reflexivity. Qed.

Lemma round_nearest_even_cases m l :
  round_nearest_even m l = m \/ round_nearest_even m l = m + 1.
Proof.
  destruct l as [|[| |]]; cbn; auto. destruct (Z.even m); auto.
Qed.

Lemma shr_fexp_spec m e l :
  0 <= m ->
  let E := fexp prec emax (Zdigits2 m + e) in
  e <= E ->
  shr_m (fst (shr_fexp prec emax m e l)) = m / 2 ^ (E - e)
  /\ snd (shr_fexp prec emax m e l) = E
  /\ (E = e -> fst (shr_fexp prec emax m e l) = shr_record_of_loc m l).
Proof.
  intros Hm E HE. unfold shr_fexp. fold E.
  assert (M : shr_m (shr_record_of_loc m l) = m) by (destruct l as [|[| |]]; reflexivity).
  destruct (shr_m_spec (shr_record_of_loc m l) e (E - e)) as [S1 S2]; [rewrite M; exact Hm|].
  rewrite S1, S2, M.
  destruct (Z.ltb_spec 0 (E - e)) as [L|L].
  - repeat split; try lia.
  - assert (E = e) by lia. rewrite H. rewrite Z.sub_diag, Z.div_1_r.
    split; [reflexivity|]. split; [lia|]. intros _. reflexivity.
Qed.

Lemma shr_nonpos mrs e k : k <= 0 -> shr mrs e k = (mrs, e).
Proof. destruct k; [reflexivity | lia | reflexivity]. Qed.

Lemma Zdigits2_pos p : Zdigits2 (Zpos p) = Zpos (digits2_pos p).
Proof. reflexivity. Qed.

Lemma scale_shift (m k e : Z) :
  0 <= k -> (IZR (m * 2 ^ k) * pow2 e = IZR m * pow2 (e + k))%R.
Proof.
  intros Hk. rewrite mult_IZR, pow2_add, <- (pow2_IZR k Hk). ring.
Qed.

(** A mantissa of at most 53 bits (or exactly 2^53) at an exponent of the
    format is brought to canonical form without changing its value. *)
Lemma shr_fexp_canonical m E :
  0 < m <= 2 ^ 53 -> -1074 <= E -> (-1074 < E -> 2 ^ 52 <= m) ->
  exists mf ef mrs,
    shr_fexp prec emax m E loc_Exact = (mrs, ef)
    /\ shr_m mrs = Zpos mf
    /\ (IZR (Zpos mf) * pow2 ef = IZR m * pow2 E)%R
    /\ canonical_mantissa prec emax mf ef = true
    /\ (ef <= 971 \/ (pow2 1024 <= IZR m * pow2 E)%R).
Proof.
  intros [Hm0 Hm] HE Hn.
  destruct (Z.eq_dec m (2 ^ 53)) as [-> | Hne].
  - (* the carry case *)
    assert (D : Zdigits2 (2 ^ 53) = 54) by reflexivity.
    destruct (shr_fexp_spec (2 ^ 53) E loc_Exact) as (S1 & S2 & _); [lia | |].
    { rewrite fexp_spec, D. lia. }
    rewrite fexp_spec, D in S1, S2.
    replace (Z.max (54 + E - 53) (-1074)) with (E + 1) in S1, S2 by lia.
    replace (E + 1 - E) with 1 in S1 by lia.
    destruct (shr_fexp prec emax (2 ^ 53) E loc_Exact) as [mrs ef] eqn:Q.
    cbn [fst snd] in S1, S2. subst ef.
    exists (4503599627370496%positive), (E + 1), mrs.
    split; [reflexivity|]. split; [rewrite S1; reflexivity|].
    split.
    { change (Z.pos 4503599627370496) with (2 ^ 52).
      replace (2 ^ 53) with (2 ^ 52 * 2 ^ 1) by reflexivity.
      rewrite scale_shift by lia. reflexivity. }
    split.
    { unfold canonical_mantissa. rewrite fexp_spec.
      change (Z.pos (digits2_pos 4503599627370496)) with 53.
      apply Z.eqb_eq. lia. }
    destruct (Z_le_gt_dec (E + 1) 971) as [L|G]; [left; exact L | right].
    rewrite <- (pow2_IZR 53) by lia. rewrite <- pow2_add.
    apply pow2_le. lia.
  - assert (Hlt : m < 2 ^ 53) by lia.
    destruct m as [|p|p]; try lia.
    pose proof (Zdigits2_bounds (Zpos p) ltac:(lia)) as B.
    rewrite Zdigits2_pos in B.
    set (d := Zpos (digits2_pos p)) in *.
    assert (Hd : d <= 53).
    { destruct (Z_le_gt_dec d 53) as [L|G]; [exact L|].
      assert (2 ^ 53 <= 2 ^ (d - 1)) by (apply Z.pow_le_mono_r; lia). lia. }
    assert (Hd' : -1074 < E -> d = 53).
    { intros H. specialize (Hn H).
      destruct (Z_le_gt_dec 53 d) as [L|G]; [lia|].
      assert (2 ^ d <= 2 ^ 52) by (apply Z.pow_le_mono_r; lia). lia. }
    assert (F : fexp prec emax (d + E) = E).
    { rewrite fexp_spec. destruct (Z.eq_dec E (-1074)); [lia|].
      rewrite Hd' by lia. lia. }
    exists p, E, (shr_record_of_loc (Zpos p) loc_Exact).
    split.
    { unfold shr_fexp. rewrite Zdigits2_pos. fold d. rewrite F, Z.sub_diag. reflexivity. }
    split; [reflexivity|]. split; [reflexivity|]. split.
    { unfold canonical_mantissa. fold d. rewrite F. apply Z.eqb_refl. }
    destruct (Z_le_gt_dec E 971) as [L|G]; [left; exact L | right].
    specialize (Hn ltac:(lia)).
    apply Rle_trans with (IZR (2 ^ 52) * pow2 E)%R.
    + rewrite <- (pow2_IZR 52) by lia. rewrite <- pow2_add. apply pow2_le. lia.
    + apply Rmult_le_compat_r; [left; apply pow2_pos | apply IZR_le; exact Hn].
Qed.

(** Rounding: the truncated mantissa, the rounded one, and the result. *)
Lemma binary_round_aux_spec sx mx ex lx (x : R) :
  0 <= mx ->
  (IZR mx * pow2 ex <= x < IZR (mx + 1) * pow2 ex)%R ->
  (lx = loc_Exact -> x = (IZR mx * pow2 ex)%R) ->
  let E := fexp prec emax (Zdigits2 mx + ex) in
  ex <= E ->
  exists V : R,
    (0 <= V)%R /\ (Rabs (V - x) <= pow2 E)%R /\
    (E = -1074 \/ (pow2 E <= pow2 (-52) * x)%R) /\
    (lx = loc_Exact -> E = ex -> V = x) /\
    ((V < pow2 1024)%R ->
       SFfinite (binary_round_aux prec emax sx mx ex lx) = true
       /\ valid_binary (binary_round_aux prec emax sx mx ex lx) = true
       /\ SF2R (binary_round_aux prec emax sx mx ex lx) = (sgn sx * V)%R).
Proof.
  intros Hmx [Hlo Hhi] Hex E HE.
  destruct (shr_fexp_spec mx ex lx Hmx HE) as (S1 & S2 & S3). fold E in S1, S2, S3.
  set (k := E - ex) in *.
  assert (Hk : 0 <= k) by (unfold k; lia).
  set (m' := mx / 2 ^ k) in *.
  assert (P2 : 0 < 2 ^ k) by (apply Z.pow_pos_nonneg; lia).
  assert (Hm'0 : 0 <= m') by (apply Z.div_pos; lia).
  assert (Hdiv : m' * 2 ^ k <= mx < (m' + 1) * 2 ^ k).
  { unfold m'. pose proof (Z.mul_div_le mx (2 ^ k) P2).
    pose proof (Z.mul_succ_div_gt mx (2 ^ k) P2). lia. }
  assert (EE : E = ex + k) by (unfold k; lia).
  assert (Xlo : (IZR m' * pow2 E <= x)%R).
  { rewrite EE, <- scale_shift by lia.
    eapply Rle_trans; [|exact Hlo].
    apply Rmult_le_compat_r; [left; apply pow2_pos | apply IZR_le; lia]. }
  assert (Xhi : (x < IZR (m' + 1) * pow2 E)%R).
  { rewrite EE, <- scale_shift by lia.
    eapply Rlt_le_trans; [exact Hhi|].
    apply Rmult_le_compat_r; [left; apply pow2_pos | apply IZR_le; lia]. }
  assert (HE0 : -1074 <= E) by (unfold E; rewrite fexp_spec; lia).
  (* the size of the truncated mantissa *)
  assert (Hm'53 : m' < 2 ^ 53).
  { destruct (Z.eq_dec mx 0) as [Z0|NZ].
    - unfold m'. rewrite Z0, Z.div_0_l by lia. reflexivity.
    - pose proof (Zdigits2_bounds mx ltac:(lia)) as B.
      assert (Zdigits2 mx <= k + 53) by (unfold k, E; rewrite fexp_spec; lia).
      assert (0 < Zdigits2 mx).
      { destruct mx; try lia. rewrite Zdigits2_pos. lia. }
      assert (2 ^ Zdigits2 mx <= 2 ^ (k + 53)) by (apply Z.pow_le_mono_r; lia).
      rewrite Z.pow_add_r in H1 by lia.
      apply Z.div_lt_upper_bound; lia. }
  assert (Hnorm : -1074 < E -> 2 ^ 52 <= m' /\ (pow2 (E + 52) <= IZR mx * pow2 ex)%R).
  { intros H.
    assert (EQ : E = Zdigits2 mx + ex - 53) by (unfold E in *; rewrite fexp_spec in *; lia).
    assert (NZ : 0 < mx).
    { destruct (Z.eq_dec mx 0) as [Z0|NZ]; [|lia].
      rewrite Z0 in EQ. change (Zdigits2 0) with 0 in EQ. lia. }
    pose proof (Zdigits2_bounds mx NZ) as B.
    assert (KQ : Zdigits2 mx - 1 = 52 + k) by (unfold k; lia).
    rewrite KQ, Z.pow_add_r in B by lia.
    split.
    - unfold m'. apply Z.div_le_lower_bound; lia.
    - replace (E + 52) with (ex + (52 + k)) by lia.
      rewrite (pow2_add ex), (pow2_IZR (52 + k)) by lia.
      rewrite Rmult_comm. apply Rmult_le_compat_r; [left; apply pow2_pos|].
      apply IZR_le. rewrite Z.pow_add_r by lia. lia. }
  set (mrs' := fst (shr_fexp prec emax mx ex lx)) in *.
  set (m'' := round_nearest_even (shr_m mrs') (loc_of_shr_record mrs')).
  assert (R : m'' = m' \/ m'' = m' + 1).
  { unfold m''. rewrite <- S1. apply round_nearest_even_cases. }
  exists (IZR m'' * pow2 E)%R.
  pose proof (pow2_pos E) as PE.
  split.
  { apply Rmult_le_pos; [apply IZR_le; lia | lra]. }
  split.
  { rewrite plus_IZR in Xhi.
    destruct R as [-> | ->]; [|rewrite plus_IZR]; apply Rabs_le; lra. }
  split.
  { destruct (Z.eq_dec E (-1074)) as [Q|Q]; [left; exact Q | right].
    destruct (Hnorm ltac:(lia)) as [_ H].
    replace (pow2 E) with (pow2 (-52) * pow2 (E + 52))%R
      by (rewrite <- pow2_add; f_equal; lia).
    apply Rmult_le_compat_l; [left; apply pow2_pos | lra]. }
  split.
  { intros L Q. specialize (S3 Q). specialize (Hex L).
    unfold m''. rewrite S3, L. cbn. rewrite Hex, Q. reflexivity. }
  intros HV.
  unfold binary_round_aux.
  destruct (shr_fexp prec emax mx ex lx) as [mrs1 e1] eqn:Q1.
  cbn [fst snd] in S2, mrs'. subst e1.
  change (round_nearest_even (shr_m mrs1) (loc_of_shr_record mrs1)) with m''.
  destruct (Z.eq_dec m'' 0) as [Z0|NZ].
  - (* rounded to zero *)
    rewrite Z0.
    assert (F0 : shr_fexp prec emax 0 E loc_Exact = (shr_record_of_loc 0 loc_Exact, E)).
    { unfold shr_fexp. apply shr_nonpos. rewrite fexp_spec.
      change (Zdigits2 0) with 0. lia. }
    rewrite F0. cbn. split; [reflexivity|]. split; [reflexivity|]. ring.
  - destruct (shr_fexp_canonical m'' E) as (mf & ef & mrs2 & Q2 & M2 & V2 & C2 & O2).
    { lia. } { exact HE0. } { intros H. destruct (Hnorm H). lia. }
    rewrite Q2, M2.
    destruct O2 as [O2|O2]; [|lra].
    replace (ef <=? emax - prec) with true
      by (symmetry; apply Z.leb_le; change (emax - prec) with 971; exact O2).
    cbn [SFfinite valid_binary SF2R].
    split; [reflexivity|]. split.
    + unfold bounded. rewrite C2. apply andb_true_iff; split; [reflexivity|].
      apply Z.leb_le. exact O2.
    + rewrite <- V2. ring.
Qed.

Lemma valid_finite_bounds s m e :
  valid_binary (S754_finite s m e) = true ->
  -1074 <= e <= 971 /\ Zpos m < 2 ^ 53 /\ (-1074 < e -> 2 ^ 52 <= Zpos m).
Proof.
  cbn [SpecFloat.valid_binary]. unfold bounded, canonical_mantissa.
  intros H. apply andb_true_iff in H. destruct H as [C B].
  apply Z.eqb_eq in C. apply Z.leb_le in B. change (emax - prec) with 971 in B.
  rewrite fexp_spec in C.
  pose proof (digits2_pos_bounds m) as D.
  set (d := Zpos (digits2_pos m)) in *.
  split; [lia|]. split.
  - assert (d <= 53) by lia.
    assert (2 ^ d <= 2 ^ 53) by (apply Z.pow_le_mono_r; lia). lia.
  - intros L. assert (d = 53) by lia.
    replace (d - 1) with 52 in D by lia. lia.
Qed.

Lemma iter_xO m d : Zpos (Pos.iter xO m d) = Zpos m * 2 ^ Zpos d.
Proof.
  induction d as [|d IH] using Pos.peano_ind.
  - cbn. lia.
  - rewrite Pos.iter_succ, Pos2Z.inj_xO, IH, Pos2Z.inj_succ, Z.pow_succ_r by lia. lia.
Qed.

Lemma shl_align_spec m e e' :
  (e' < e /\ exists m', shl_align m e e' = (m', e') /\ Zpos m' = Zpos m * 2 ^ (e - e'))
  \/ (e <= e' /\ shl_align m e e' = (m, e)).
Proof.
  unfold shl_align. destruct (e' - e) as [|p|p] eqn:Q.
  - right. split; [lia | reflexivity].
  - right. split; [lia | reflexivity].
  - left. split; [lia|]. eexists. split; [reflexivity|].
    rewrite iter_xO. f_equal. f_equal. lia.
Qed.

Lemma shl_align_value m e e' :
  e' <= e ->
  (IZR (Zpos (fst (shl_align m e e'))) * pow2 e' = IZR (Zpos m) * pow2 e)%R.
Proof.
  intros H. destruct (shl_align_spec m e e') as [(L & m' & -> & Q) | (L & ->)]; cbn [fst].
  - rewrite Q. rewrite scale_shift by lia. f_equal. f_equal. lia.
  - assert (e' = e) by lia. subst. reflexivity.
Qed.

Lemma Zdigits2_shift m k :
  0 < m -> 0 <= k -> Zdigits2 (m * 2 ^ k) = Zdigits2 m + k.
Proof.
  intros Hm Hk. pose proof (Zdigits2_bounds m Hm) as B.
  assert (0 < Zdigits2 m) by (destruct m; try lia; rewrite Zdigits2_pos; lia).
  assert (P : 0 < 2 ^ k) by (apply Z.pow_pos_nonneg; lia).
  apply Zdigits2_unique; [lia|].
  replace (Zdigits2 m + k - 1) with (Zdigits2 m - 1 + k) by lia.
  rewrite !Z.pow_add_r by lia. nia.
Qed.

Lemma Rabs_bounds a b : (Rabs a <= b)%R -> (- b <= a <= b)%R.
Proof. unfold Rabs. destruct (Rcase_abs a); lra. Qed.

Lemma EPSILON_pos : (0 < EPSILON)%R.
Proof. apply pow2_pos. Qed.

Lemma EPSILON_quarter : (EPSILON <= 1 / 4)%R.
Proof.
  unfold EPSILON. apply Rle_trans with (pow2 (-2)); [apply pow2_le; lia|].
  assert (H : (pow2 (-2) * pow2 2 = pow2 0)%R) by (rewrite <- pow2_add; reflexivity).
  rewrite (pow2_IZR 2) in H by lia. change (pow2 0) with 1%R in H.
  change (IZR (2 ^ 2)) with 4%R in H. lra.
Qed.

Lemma pow2_1024 : pow2 1024 = (2 * pow2 1023)%R.
Proof. replace 1024 with (1023 + 1) by lia. apply pow2_succ. Qed.

(** Rounding a positive integer mantissa at an exponent of the format. *)
Lemma binary_round_spec s m e :
  -1074 <= e ->
  let x := (IZR (Zpos m) * pow2 e)%R in
  (x <= pow2 1023)%R ->
  exists V : R,
    (Rabs (V - x) <= EPSILON * x)%R
    /\ fin (binary_round prec emax s m e)
    /\ SF2R (binary_round prec emax s m e) = (sgn s * V)%R.
Proof.
  intros He x Hx. unfold binary_round.
  assert (X0 : (0 < x)%R).
  { unfold x. apply Rmult_lt_0_compat; [apply IZR_lt; lia | apply pow2_pos]. }
  pose proof EPSILON_pos as U0. pose proof EPSILON_quarter as U1.
  pose proof (pow2_pos 1023) as P1023. pose proof pow2_1024 as P1024.
  set (E := fexp prec emax (Zpos (digits2_pos m) + e)).
  assert (HE : -1074 <= E) by (unfold E; rewrite fexp_spec; lia).
  destruct (shl_align_spec m e E) as [(L & m' & -> & Q) | (L & ->)].
  - (* the mantissa is extended: no rounding *)
    assert (D : Zdigits2 (Zpos m') + E = Zpos (digits2_pos m) + e).
    { rewrite Q, Zdigits2_shift by lia. rewrite Zdigits2_pos. lia. }
    assert (XE : x = (IZR (Zpos m') * pow2 E)%R).
    { unfold x. rewrite Q, scale_shift by lia. f_equal. f_equal. lia. }
    destruct (binary_round_aux_spec s (Zpos m') E loc_Exact x) as (V & V0 & V1 & V2 & V3 & V4).
    + lia.
    + rewrite XE, plus_IZR. pose proof (pow2_pos E). split; lra.
    + intros _. exact XE.
    + rewrite D. fold E. lia.
    + rewrite D in V3. fold E in V3. specialize (V3 eq_refl eq_refl).
      exists V. split.
      { rewrite V3. replace (x - x)%R with 0%R by ring. rewrite Rabs_R0. nra. }
      destruct V4 as (F1 & F2 & F3); [lra|]. repeat split; assumption.
  - destruct (binary_round_aux_spec s (Zpos m) e loc_Exact x) as (V & V0 & V1 & V2 & V3 & V4).
    + lia.
    + unfold x. rewrite plus_IZR. pose proof (pow2_pos e). split; lra.
    + intros _. reflexivity.
    + rewrite Zdigits2_pos. fold E. exact L.
    + rewrite Zdigits2_pos in V1, V2, V3. fold E in V1, V2, V3.
      assert (B : (Rabs (V - x) <= EPSILON * x)%R).
      { destruct V2 as [V2|V2].
        - assert (E = e) by lia. rewrite (V3 eq_refl H).
          replace (x - x)%R with 0%R by ring. rewrite Rabs_R0. nra.
        - unfold EPSILON. lra. }
      exists V. split; [exact B|].
      destruct V4 as (F1 & F2 & F3).
      { apply Rabs_bounds in B. nra. }
      repeat split; assumption.
Qed.

Lemma binary_normalize_spec p e :
  -1074 <= e ->
  let x := (IZR p * pow2 e)%R in
  (Rabs x <= pow2 1023)%R ->
  fin (binary_normalize prec emax p e false)
  /\ (Rabs (SF2R (binary_normalize prec emax p e false) - x) <= EPSILON * Rabs x)%R.
Proof.
  intros He x Hx. pose proof (pow2_pos e) as Pe.
  destruct p as [|m|m]; cbn [binary_normalize].
  - split; [split; reflexivity|]. unfold x. cbn [SF2R].
    replace (0 - 0 * pow2 e)%R with 0%R by ring.
    replace (0 * pow2 e)%R with 0%R by ring. rewrite Rabs_R0. lra.
  - assert (X0 : (0 < x)%R).
    { unfold x. apply Rmult_lt_0_compat; [apply IZR_lt; lia | exact Pe]. }
    rewrite (Rabs_pos_eq x) in * by lra.
    destruct (binary_round_spec false m e He Hx) as (V & B & F & S).
    split; [exact F|]. rewrite S. unfold sgn. fold x.
    replace (1 * V - x)%R with (V - x)%R by ring. exact B.
  - set (x' := (IZR (Zpos m) * pow2 e)%R).
    assert (XX : x = (- x')%R).
    { unfold x, x'. change (Zneg m) with (- Zpos m). rewrite opp_IZR. ring. }
    assert (X0 : (0 < x')%R).
    { unfold x'. apply Rmult_lt_0_compat; [apply IZR_lt; lia | exact Pe]. }
    rewrite XX, Rabs_Ropp, (Rabs_pos_eq x') in * by lra.
    destruct (binary_round_spec true m e He Hx) as (V & B & F & S).
    split; [exact F|]. rewrite S. unfold sgn. fold x'.
    replace (-1 * V - - x')%R with (- (V - x'))%R by ring.
    rewrite Rabs_Ropp. exact B.
Qed.

Lemma IZR_cond_Zopp s n : IZR (cond_Zopp s n) = (sgn s * IZR n)%R.
Proof. destruct s; cbn [cond_Zopp sgn]; [rewrite opp_IZR|]; ring. Qed.

Lemma aligned_value s m e e' :
  e' <= e ->
  (IZR (cond_Zopp s (Zpos (fst (shl_align m e e')))) * pow2 e'
   = SF2R (S754_finite s m e))%R.
Proof.
  intros H. rewrite IZR_cond_Zopp. cbn [SF2R].
  rewrite Rmult_assoc, (shl_align_value m e e' H). ring.
Qed.

Lemma Rabs_exact a b : a = b -> (Rabs (a - b) <= EPSILON * Rabs b)%R.
Proof.
  intros ->. replace (b - b)%R with 0%R by ring. rewrite Rabs_R0.
  apply Rmult_le_pos; [left; apply EPSILON_pos | apply Rabs_pos].
Qed.

(** Subtraction of valid finite numbers: one relative rounding error. *)
Lemma SFsub_spec x y :
  fin x -> fin y ->
  (Rabs (SF2R x - SF2R y) <= pow2 1023)%R ->
  fin (SFsub prec emax x y)
  /\ (Rabs (SF2R (SFsub prec emax x y) - (SF2R x - SF2R y))
      <= EPSILON * Rabs (SF2R x - SF2R y))%R.
Proof.
  intros [Fx Vx] [Fy Vy] B.
  destruct x as [sx|sx| |sx mx ex]; try discriminate Fx;
    destruct y as [sy|sy| |sy my ey]; try discriminate Fy.
  - split; [split; destruct sx, sy; reflexivity|].
    apply Rabs_exact. destruct sx, sy; cbn [SFsub SF2R]; ring.
  - cbn [SFsub]. split; [split; [reflexivity | exact Vy]|].
    apply Rabs_exact. cbn [SF2R]. destruct sy; cbn [negb sgn]; ring.
  - cbn [SFsub]. split; [split; [reflexivity | exact Vx]|].
    apply Rabs_exact. cbn [SF2R]. ring.
  - cbn [SFsub].
    destruct (valid_finite_bounds _ _ _ Vx) as (Ex & _).
    destruct (valid_finite_bounds _ _ _ Vy) as (Ey & _).
    set (ez := IntDef.Z.min ex ey).
    assert (Hz : ez = Z.min ex ey) by reflexivity.
    set (p := cond_Zopp sx (Zpos (fst (shl_align mx ex ez)))
              - cond_Zopp sy (Zpos (fst (shl_align my ey ez)))).
    assert (P : (IZR p * pow2 ez
                 = SF2R (S754_finite sx mx ex) - SF2R (S754_finite sy my ey))%R).
    { unfold p. rewrite minus_IZR, Rmult_minus_distr_r.
      rewrite !aligned_value by lia. reflexivity. }
    rewrite <- P in *.
    apply binary_normalize_spec; [lia | exact B].
Qed.

(** Addition of valid finite numbers. *)
Lemma SFadd_spec x y :
  fin x -> fin y ->
  (Rabs (SF2R x + SF2R y) <= pow2 1023)%R ->
  fin (SFadd prec emax x y)
  /\ (Rabs (SF2R (SFadd prec emax x y) - (SF2R x + SF2R y))
      <= EPSILON * Rabs (SF2R x + SF2R y))%R.
Proof.
  intros [Fx Vx] [Fy Vy] B.
  destruct x as [sx|sx| |sx mx ex]; try discriminate Fx;
    destruct y as [sy|sy| |sy my ey]; try discriminate Fy.
  - split; [split; destruct sx, sy; reflexivity|].
    apply Rabs_exact. destruct sx, sy; cbn [SFadd SF2R]; ring.
  - cbn [SFadd]. split; [split; [reflexivity | exact Vy]|].
    apply Rabs_exact. cbn [SF2R]. ring.
  - cbn [SFadd]. split; [split; [reflexivity | exact Vx]|].
    apply Rabs_exact. cbn [SF2R]. ring.
  - cbn [SFadd].
    destruct (valid_finite_bounds _ _ _ Vx) as (Ex & _).
    destruct (valid_finite_bounds _ _ _ Vy) as (Ey & _).
    set (ez := IntDef.Z.min ex ey).
    assert (Hz : ez = Z.min ex ey) by reflexivity.
    set (p := cond_Zopp sx (Zpos (fst (shl_align mx ex ez)))
              + cond_Zopp sy (Zpos (fst (shl_align my ey ez)))).
    assert (P : (IZR p * pow2 ez
                 = SF2R (S754_finite sx mx ex) + SF2R (S754_finite sy my ey))%R).
    { unfold p. rewrite plus_IZR, Rmult_plus_distr_r.
      rewrite !aligned_value by lia. reflexivity. }
    rewrite <- P in *.
    apply binary_normalize_spec; [lia | exact B].
Qed.

Lemma MIN_VALUE_pos : (0 < MIN_VALUE)%R.
Proof. apply pow2_pos. Qed.

Lemma MIN_VALUE_small : (4 * MIN_VALUE <= pow2 1023)%R.
Proof.
  replace 1023 with (1021 + 1 + 1) by lia. rewrite !pow2_succ.
  assert (MIN_VALUE <= pow2 1021)%R by (apply pow2_le; lia). lra.
Qed.

(** Rounding with a relative and an absolute error. *)
Lemma binary_round_aux_error sx mx ex lx (x : R) :
  0 <= mx ->
  (IZR mx * pow2 ex <= x < IZR (mx + 1) * pow2 ex)%R ->
  (lx = loc_Exact -> x = (IZR mx * pow2 ex)%R) ->
  ex <= fexp prec emax (Zdigits2 mx + ex) ->
  (x <= pow2 1023)%R ->
  exists V : R,
    (Rabs (V - x) <= EPSILON * x + MIN_VALUE)%R
    /\ fin (binary_round_aux prec emax sx mx ex lx)
    /\ SF2R (binary_round_aux prec emax sx mx ex lx) = (sgn sx * V)%R.
Proof.
  intros Hm Hx Hl HE Hb.
  destruct (binary_round_aux_spec sx mx ex lx x Hm Hx Hl HE)
    as (V & V0 & V1 & V2 & _ & V4).
  pose proof EPSILON_pos as U0. pose proof EPSILON_quarter as U1.
  pose proof MIN_VALUE_pos as E0. pose proof MIN_VALUE_small as E1.
  pose proof (pow2_pos 1023) as P1023. pose proof pow2_1024 as P1024.
  assert (X0 : (0 <= x)%R).
  { eapply Rle_trans; [|apply Hx].
    apply Rmult_le_pos; [apply IZR_le; exact Hm | left; apply pow2_pos]. }
  assert (B : (Rabs (V - x) <= EPSILON * x + MIN_VALUE)%R).
  { destruct V2 as [V2|V2].
    - rewrite V2 in V1. fold MIN_VALUE in V1. nra.
    - unfold EPSILON. lra. }
  exists V. split; [exact B|].
  destruct V4 as (F1 & F2 & F3).
  { apply Rabs_bounds in B. nra. }
  repeat split; assumption.
Qed.

Lemma sgn_xorb a b : sgn (xorb a b) = (sgn a * sgn b)%R.
Proof. destruct a, b; cbn; ring. Qed.

Lemma Rabs_sgn s a : (0 <= a)%R -> Rabs (sgn s * a) = a.
Proof.
  intros H. destruct s; cbn [sgn].
  - replace (-1 * a)%R with (- a)%R by ring. rewrite Rabs_Ropp. apply Rabs_pos_eq, H.
  - rewrite Rmult_1_l. apply Rabs_pos_eq, H.
Qed.

Lemma Rabs_sgn_diff s a b :
  Rabs (sgn s * a - sgn s * b) = Rabs (a - b).
Proof.
  destruct s; cbn [sgn].
  - replace (-1 * a - -1 * b)%R with (- (a - b))%R by ring. apply Rabs_Ropp.
  - f_equal. ring.
Qed.

(** Multiplication of valid finite numbers. *)
Lemma SFmul_spec x y :
  fin x -> fin y ->
  (Rabs (SF2R x * SF2R y) <= pow2 1023)%R ->
  fin (SFmul prec emax x y)
  /\ (Rabs (SF2R (SFmul prec emax x y) - SF2R x * SF2R y)
      <= EPSILON * Rabs (SF2R x * SF2R y) + MIN_VALUE)%R.
Proof.
  intros [Fx Vx] [Fy Vy] B.
  pose proof EPSILON_pos as U0. pose proof MIN_VALUE_pos as E0.
  assert (Z : forall a b : R, a = b -> (Rabs (a - b) <= EPSILON * Rabs b + MIN_VALUE)%R).
  { intros a b ->. replace (b - b)%R with 0%R by ring. rewrite Rabs_R0.
    pose proof (Rabs_pos b). nra. }
  destruct x as [sx|sx| |sx mx ex]; try discriminate Fx;
    destruct y as [sy|sy| |sy my ey]; try discriminate Fy;
    cbn [SFmul];
    try (split; [split; reflexivity | apply Z; cbn [SF2R]; ring]).
  destruct (valid_finite_bounds _ _ _ Vx) as (Ex & Mx & Nx).
  destruct (valid_finite_bounds _ _ _ Vy) as (Ey & My & Ny).
  set (x := (IZR (Zpos (mx * my)) * pow2 (ex + ey))%R).
  assert (X0 : (0 <= x)%R).
  { unfold x. apply Rmult_le_pos; [apply IZR_le; lia | left; apply pow2_pos]. }
  assert (P : (SF2R (S754_finite sx mx ex) * SF2R (S754_finite sy my ey)
               = sgn (xorb sx sy) * x)%R).
  { unfold x. cbn [SF2R]. rewrite sgn_xorb, Pos2Z.inj_mul, mult_IZR, pow2_add. ring. }
  rewrite P in *. rewrite Rabs_sgn in * by exact X0.
  destruct (binary_round_aux_error (xorb sx sy) (Zpos (mx * my)) (ex + ey) loc_Exact x)
    as (V & V1 & F & S).
  - lia.
  - unfold x. rewrite plus_IZR. pose proof (pow2_pos (ex + ey)). split; lra.
  - intros _. reflexivity.
  - rewrite fexp_spec.
    destruct (Z_le_gt_dec (ex + ey) (-1074)) as [L|G]; [lia|].
    assert (2 ^ 52 <= Zpos mx * Zpos my).
    { destruct (Z.eq_dec ex (-1074)) as [Q|Q].
      - specialize (Ny ltac:(lia)). nia.
      - specialize (Nx ltac:(lia)). nia. }
    pose proof (Zdigits2_bounds (Zpos (mx * my)) ltac:(lia)) as D.
    assert (Q : Zpos (mx * my) = Zpos mx * Zpos my) by lia.
    assert (0 < Zdigits2 (Zpos (mx * my))) by (rewrite Zdigits2_pos; lia).
    assert (52 < Zdigits2 (Zpos (mx * my))).
    { apply (Z.pow_lt_mono_r_iff 2); [lia | lia |].
      eapply Z.le_lt_trans; [exact H|]. rewrite <- Q. apply D. }
    lia.
  - exact B.
  - split; [exact F|]. rewrite S, Rabs_sgn_diff. exact V1.
Qed.

Lemma new_location_exact n r : new_location n r = loc_Exact -> r = 0.
Proof.
  unfold new_location, new_location_even, new_location_odd.
  destruct r as [|p|p]; [reflexivity | |];
    destruct (IntDef.Z.even n); discriminate.
Qed.

Lemma Zdigits2_nonneg m : 0 <= Zdigits2 m.
Proof. destruct m; cbn; lia. Qed.

(** The quotient handed to the rounding. *)
Lemma SFdiv_core_spec m1 e1 m2 e2 :
  let x := ((IZR (Zpos m1) * pow2 e1) / (IZR (Zpos m2) * pow2 e2))%R in
  exists q e' l,
    SFdiv_core_binary prec emax (Zpos m1) e1 (Zpos m2) e2 = (q, e', l)
    /\ 0 <= q
    /\ (IZR q * pow2 e' <= x < IZR (q + 1) * pow2 e')%R
    /\ (l = loc_Exact -> x = (IZR q * pow2 e')%R)
    /\ e' <= fexp prec emax (Zdigits2 q + e').
Proof.
  intros x. unfold SFdiv_core_binary.
  rewrite !Zdigits2_pos.
  set (d1 := Zpos (digits2_pos m1)). set (d2 := Zpos (digits2_pos m2)).
  set (e' := IntDef.Z.min (fexp prec emax (d1 + e1 - (d2 + e2))) (e1 - e2)).
  assert (He' : e' = Z.min (fexp prec emax (d1 + e1 - (d2 + e2))) (e1 - e2))
    by reflexivity.
  set (s := e1 - e2 - e').
  assert (Hs : 0 <= s) by (unfold s; lia).
  set (m' := match s with
             | 0 => Zpos m1
             | Zpos _ => IntDef.Z.shiftl (Zpos m1) s
             | Zneg _ => 0
             end).
  assert (Hm' : m' = Zpos m1 * 2 ^ s).
  { unfold m'. destruct s as [|p|p] eqn:Q; [lia | | lia].
    change (IntDef.Z.shiftl (Zpos m1) (Zpos p)) with (Z.shiftl (Zpos m1) (Zpos p)).
    apply Z.shiftl_mul_pow2. lia. }
  clearbody m'.
  pose proof (Z.div_eucl_eq m' (Zpos m2) ltac:(lia)) as DE.
  pose proof (Z.mod_pos_bound m' (Zpos m2) ltac:(lia)) as MB.
  unfold Z.modulo in MB.
  change (IntDef.Z.div_eucl m' (Zpos m2)) with (Z.div_eucl m' (Zpos m2)).
  destruct (Z.div_eucl m' (Zpos m2)) as [q r] eqn:QR.
  exists q, e', (new_location (Zpos m2) r).
  split; [reflexivity|].
  assert (P2 : 0 < 2 ^ s) by (apply Z.pow_pos_nonneg; lia).
  assert (Hq : 0 <= q) by nia.
  split; [exact Hq|].
  pose proof (pow2_pos e') as Pe'. pose proof (pow2_pos e2) as Pe2.
  assert (M2 : (0 < IZR (Zpos m2))%R) by (apply IZR_lt; lia).
  assert (X : x = ((IZR q + IZR r / IZR (Zpos m2)) * pow2 e')%R).
  { assert (N : (IZR (Zpos m1) * pow2 e1 = IZR m' * pow2 e' * pow2 e2)%R).
    { rewrite Hm', mult_IZR, <- (pow2_IZR s Hs).
      replace (pow2 e1) with (pow2 (s + e' + e2)) by (f_equal; unfold s; lia).
      rewrite !pow2_add. ring. }
    unfold x. rewrite N, DE, plus_IZR, mult_IZR. field. split; lra. }
  assert (R0 : (0 <= IZR r / IZR (Zpos m2) < 1)%R).
  { split.
    - apply Rmult_le_pos; [apply IZR_le; lia | left; apply Rinv_0_lt_compat; exact M2].
    - apply Rmult_lt_reg_r with (IZR (Zpos m2)); [exact M2|].
      unfold Rdiv. rewrite Rmult_assoc, Rinv_l, Rmult_1_r, Rmult_1_l by lra.
      apply IZR_lt. lia. }
  split.
  { rewrite X, plus_IZR. split; nra. }
  split.
  { intros L. apply new_location_exact in L. rewrite X, L.
    unfold Rdiv. rewrite Rmult_0_l, Rplus_0_r. reflexivity. }
  (* the number of digits of the quotient *)
  pose proof (digits2_pos_bounds m1) as B1. fold d1 in B1.
  pose proof (digits2_pos_bounds m2) as B2. fold d2 in B2.
  assert (D : d1 + s - d2 <= Zdigits2 q).
  { pose proof (Zdigits2_nonneg q).
    destruct (Z_le_gt_dec (d1 + s - d2) 0) as [L|G]; [lia|].
    assert (d1 - 1 + s = (d1 + s - d2 - 1) + d2) by lia.
    assert (2 ^ (d1 - 1) * 2 ^ s = 2 ^ (d1 + s - d2 - 1) * 2 ^ d2).
    { rewrite <- !Z.pow_add_r by lia. f_equal. lia. }
    assert (P3 : 0 < 2 ^ (d1 + s - d2 - 1)) by (apply Z.pow_pos_nonneg; lia).
    assert (2 ^ d2 > Zpos m2) by lia.
    assert (2 ^ (d1 + s - d2 - 1) <= q) by nia.
    assert (0 < q) by lia.
    pose proof (Zdigits2_bounds q ltac:(lia)) as Bq.
    assert (d1 + s - d2 - 1 < Zdigits2 q).
    { apply (Z.pow_lt_mono_r_iff 2); lia. }
    lia. }
  rewrite fexp_spec in *. unfold s in D. lia.
Qed.

(** Division of valid finite numbers by a non-zero one. *)
Lemma SFdiv_spec x y :
  fin x -> fin y -> SF2R y <> 0%R ->
  (Rabs (SF2R x / SF2R y) <= pow2 1023)%R ->
  fin (SFdiv prec emax x y)
  /\ (Rabs (SF2R (SFdiv prec emax x y) - SF2R x / SF2R y)
      <= EPSILON * Rabs (SF2R x / SF2R y) + MIN_VALUE)%R.
Proof.
  intros [Fx Vx] [Fy Vy] NZ B.
  pose proof EPSILON_pos as U0. pose proof MIN_VALUE_pos as E0.
  assert (Z : forall a b : R, a = b -> (Rabs (a - b) <= EPSILON * Rabs b + MIN_VALUE)%R).
  { intros a b ->. replace (b - b)%R with 0%R by ring. rewrite Rabs_R0.
    pose proof (Rabs_pos b). nra. }
  destruct x as [sx|sx| |sx mx ex]; try discriminate Fx;
    destruct y as [sy|sy| |sy my ey]; try discriminate Fy;
    try (exfalso; apply NZ; reflexivity).
  - cbn [SFdiv]. split; [split; reflexivity|]. apply Z. cbn [SF2R].
    unfold Rdiv. ring.
  - cbn [SFdiv].
    destruct (SFdiv_core_spec mx ex my ey) as (q & e' & l & -> & Hq & Hx & Hl & HE).
    set (x := (IZR (Zpos mx) * pow2 ex / (IZR (Zpos my) * pow2 ey))%R) in *.
    pose proof (pow2_pos ey) as Pey. pose proof (pow2_pos e') as Pe'.
    assert (My : (0 < IZR (Zpos my))%R) by (apply IZR_lt; lia).
    assert (X0 : (0 <= x)%R).
    { eapply Rle_trans; [|apply Hx].
      apply Rmult_le_pos; [apply IZR_le; exact Hq | lra]. }
    assert (P : (SF2R (S754_finite sx mx ex) / SF2R (S754_finite sy my ey)
                 = sgn (xorb sx sy) * x)%R).
    { unfold x. cbn [SF2R]. destruct sx, sy; cbn [xorb sgn]; field; split; lra. }
    rewrite P in *. rewrite Rabs_sgn in * by exact X0.
    destruct (binary_round_aux_error (xorb sx sy) q e' l x Hq Hx Hl HE B)
      as (V & V1 & F & S).
    split; [exact F|]. rewrite S, Rabs_sgn_diff. exact V1.
Qed.

(** Comparison of valid finite numbers is comparison of their values. *)
Lemma magnitude_lt m1 e1 m2 e2 :
  Zpos m1 < 2 ^ 53 -> -1074 <= e1 -> 2 ^ 52 <= Zpos m2 -> e1 < e2 ->
  (IZR (Zpos m1) * pow2 e1 < IZR (Zpos m2) * pow2 e2)%R.
Proof.
  intros H1 He H2 L.
  apply Rlt_le_trans with (pow2 (53 + e1)).
  - rewrite pow2_add, (pow2_IZR 53) by lia.
    apply Rmult_lt_compat_r; [apply pow2_pos | apply IZR_lt; exact H1].
  - apply Rle_trans with (pow2 (52 + e2)); [apply pow2_le; lia|].
    rewrite pow2_add, (pow2_IZR 52) by lia.
    apply Rmult_le_compat_r; [left; apply pow2_pos | apply IZR_le; exact H2].
Qed.

Lemma magnitude_compare m1 e1 m2 e2 :
  valid_binary (S754_finite false m1 e1) = true ->
  valid_binary (S754_finite false m2 e2) = true ->
  Rcomparison
    match e1 ?= e2 with
    | Eq => Pos.compare_cont Eq m1 m2
    | Lt => Lt
    | Gt => Gt
    end
    (IZR (Zpos m1) * pow2 e1) (IZR (Zpos m2) * pow2 e2).
Proof.
  intros V1 V2.
  destruct (valid_finite_bounds _ _ _ V1) as (E1 & M1 & N1).
  destruct (valid_finite_bounds _ _ _ V2) as (E2 & M2 & N2).
  destruct (Z.compare_spec e1 e2) as [Q|Q|Q].
  - subst e2. pose proof (pow2_pos e1) as P.
    change (Pos.compare_cont Eq m1 m2) with (Pos.compare m1 m2).
    destruct (Pos.compare_spec m1 m2) as [C|C|C]; cbn [Rcomparison].
    + now subst.
    + apply Rmult_lt_compat_r; [exact P | apply IZR_lt; lia].
    + apply Rmult_lt_compat_r; [exact P | apply IZR_lt; lia].
  - apply magnitude_lt; lia.
  - apply magnitude_lt; lia.
Qed.

Lemma magnitude_pos m e : (0 < IZR (Zpos m) * pow2 e)%R.
Proof. apply Rmult_lt_0_compat; [apply IZR_lt; lia | apply pow2_pos]. Qed.

Lemma SFcompare_spec x y :
  fin x -> fin y ->
  exists c, SFcompare x y = Some c /\ Rcomparison c (SF2R x) (SF2R y).
Proof.
  intros [Fx Vx] [Fy Vy].
  destruct x as [sx|sx| |sx mx ex]; try discriminate Fx;
    destruct y as [sy|sy| |sy my ey]; try discriminate Fy;
    cbn [SFcompare SF2R]; eexists; (split; [reflexivity|]).
  - reflexivity.
  - pose proof (magnitude_pos my ey). destruct sy; cbn [Rcomparison sgn]; lra.
  - pose proof (magnitude_pos mx ex). destruct sx; cbn [Rcomparison sgn]; lra.
  - pose proof (magnitude_pos mx ex). pose proof (magnitude_pos my ey).
    pose proof (magnitude_compare mx ex my ey Vx Vy) as C.
    destruct sx, sy; cbn [sgn]; try (cbn [Rcomparison]; lra).
    + destruct (ex ?= ey); [|cbn [Rcomparison] in *; lra ..].
      destruct (Pos.compare_cont Eq mx my); cbn [CompOpp Rcomparison] in *; lra.
    + destruct (ex ?= ey); [|cbn [Rcomparison] in *; lra ..].
      destruct (Pos.compare_cont Eq mx my); cbn [Rcomparison] in *; lra.
Qed.

Lemma SFltb_sound x y :
  fin x -> fin y -> SFltb x y = true -> (SF2R x < SF2R y)%R.
Proof.
  intros Fx Fy. unfold SFltb.
  destruct (SFcompare_spec x y Fx Fy) as (c & -> & C).
  destruct c; try discriminate. intros _. exact C.
Qed.

Lemma SFleb_sound x y :
  fin x -> fin y -> SFleb x y = true -> (SF2R x <= SF2R y)%R.
Proof.
  intros Fx Fy. unfold SFleb.
  destruct (SFcompare_spec x y Fx Fy) as (c & -> & C).
  destruct c; try discriminate; intros _; cbn [Rcomparison] in C; lra.
Qed.

(** *** The propagation of the errors, on real numbers *)

Section RealBounds.
Local Open Scope R_scope.

(** Products of the two error units are negligible. *)
Lemma small_products u eta :
  0 < u -> u <= 1 / 64 -> 0 < eta -> eta <= u * u ->
  0 <= u * u <= u / 64 /\ 0 <= u * u * u <= u * u / 64
  /\ 0 <= eta * u <= eta / 64 /\ 0 <= eta * (u * u) <= eta / 64.
Proof.
  intros U0 U1 E0 E1.
  assert (S : 0 <= u * u <= u / 64) by nra.
  assert (C : 0 <= u * u * u <= u * u / 64) by nra.
  assert (EU : 0 <= eta * u <= eta / 64) by nra.
  assert (EUU : 0 <= eta * (u * u) <= eta / 64) by nra.
  tauto.
Qed.

(** The coefficient of [2 * M] in the error of the product. *)
Lemma slack_coefficient u eta :
  0 < u -> u <= 1 / 64 -> 0 < eta -> eta <= u * u ->
  u * ((1 + u) * (1 + u) + eta * (1 + u)) + (u * (1 + u) + eta * (1 + u)) + u
  <= 3 * u + 6 * (u * u).
Proof.
  intros U0 U1 E0 E1.
  destruct (small_products u eta U0 U1 E0 E1) as (S & C & EU & EUU).
  replace (u * ((1 + u) * (1 + u) + eta * (1 + u)) + (u * (1 + u) + eta * (1 + u)) + u)
    with (3 * u + 3 * (u * u) + u * u * u + eta + 2 * (eta * u) + eta * (u * u)) by ring.
  lra.
Qed.

(** The coefficient of [M] in the error of the round trip. *)
Lemma total_coefficient u :
  0 < u -> u <= 1 / 64 ->
  u + (1 + u) * (2 * (3 * u + 6 * (u * u))) <= 8 * u.
Proof.
  intros U0 U1.
  destruct (small_products u (u * u) U0 U1) as (S & C & _); [nra | lra |].
  replace (u + (1 + u) * (2 * (3 * u + 6 * (u * u))))
    with (7 * u + 18 * (u * u) + 12 * (u * u * u)) by ring.
  lra.
Qed.

Lemma slack_below_quarter u : 0 < u -> u <= 1 / 64 -> 3 * u + 6 * (u * u) <= 1 / 4.
Proof.
  intros U0 U1.
  destruct (small_products u (u * u) U0 U1) as (S & C & _); [nra | lra |]. lra.
Qed.

(** Scaling an inequality between coefficients by a non-negative factor. *)
Lemma scale_le (m c d : R) : 0 <= m -> c <= d -> m * c <= m * d.
Proof. intros. apply Rmult_le_compat_l; assumption. Qed.

(** Step 1: the two differences. *)
Lemma differences_bounds u D W a b :
  0 < u -> u <= 1 / 64 -> 0 <= D -> D <= W -> 0 < W ->
  Rabs (a - D) <= u * Rabs D -> Rabs (b - W) <= u * Rabs W ->
  (0 <= a <= D * (1 + u)) /\ (0 < b <= W * (1 + u)) /\ a <= 2 * b
  /\ Rabs (a - D) <= u * D.
Proof.
  intros U0 U1 D0 DW W0 Ha Hb.
  rewrite (Rabs_pos_eq D) in Ha by lra.
  rewrite (Rabs_pos_eq W) in Hb by lra.
  pose proof Ha as Ha'. apply Rabs_bounds in Ha'. apply Rabs_bounds in Hb.
  assert (uD : 0 <= u * D <= D / 64) by nra.
  assert (uW : 0 <= u * W <= W / 64) by nra.
  repeat split; first [exact Ha | lra].
Qed.

(** Step 2: the quotient is at most 2. *)
Lemma quotient_bounds a b : 0 <= a -> 0 < b -> a <= 2 * b -> 0 <= a / b <= 2.
Proof.
  intros a0 b0 ab. split.
  - apply Rmult_le_pos; [exact a0 | left; apply Rinv_0_lt_compat; exact b0].
  - apply Rmult_le_reg_r with b; [exact b0|].
    unfold Rdiv. rewrite Rmult_assoc, Rinv_l, Rmult_1_r by lra. exact ab.
Qed.

(** Step 3: the product of the rounded quotient and the rounded range. *)
Lemma product_bounds u eta a b n :
  0 < u -> 0 < eta -> 0 <= a -> 0 < b -> a <= 2 * b ->
  Rabs (n - a / b) <= u * Rabs (a / b) + eta ->
  Rabs (n * b - a) <= u * a + eta * b
  /\ Rabs (n * b) <= a + (u * a + eta * b).
Proof.
  intros U0 E0 a0 b0 ab Hn.
  destruct (quotient_bounds a b a0 b0 ab) as (t0 & t1).
  assert (T : a / b * b = a) by (field; lra).
  rewrite (Rabs_pos_eq (a / b)) in Hn by lra.
  set (t := a / b) in *. apply Rabs_bounds in Hn.
  assert (Q1 : (n - t) * b <= (u * t + eta) * b)
    by (apply Rmult_le_compat_r; lra).
  assert (Q2 : - (u * t + eta) * b <= (n - t) * b)
    by (apply Rmult_le_compat_r; lra).
  assert (Q3 : (u * t + eta) * b = u * a + eta * b) by (rewrite <- T; ring).
  assert (Q4 : (n - t) * b = n * b - a) by (rewrite <- T; ring).
  assert (Q5 : - (u * t + eta) * b = - (u * a + eta * b)) by (rewrite <- T; ring).
  rewrite Q3, Q4 in Q1. rewrite Q5, Q4 in Q2.
  assert (0 <= u * a) by (apply Rmult_le_pos; lra).
  assert (0 <= eta * b) by (apply Rmult_le_pos; lra).
  split; apply Rabs_le; lra.
Qed.

Lemma product_fits u eta M L a b D W :
  0 < u -> u <= 1 / 64 -> 0 < eta -> eta <= u * u ->
  0 <= M -> M <= L -> 0 <= D <= 2 * M -> 0 < W <= 2 * M ->
  0 <= a <= D * (1 + u) -> 0 < b <= W * (1 + u) ->
  a + (u * a + eta * b) <= 4 * L.
Proof.
  intros U0 U1 E0 E1 M0 ML [D0 D1] [W0 W1] [a0 a1] [b0 b1].
  assert (uD : 0 <= u * D <= D / 64) by nra.
  assert (uW : 0 <= u * W <= W / 64) by nra.
  assert (ua : 0 <= u * a <= a / 64) by nra.
  assert (e1 : eta <= 1 / 64) by nra.
  assert (eb : 0 <= eta * b <= b / 64) by nra.
  lra.
Qed.

(** Step 4: the error of the product against the exact difference. *)
Lemma product_error u eta M a b n p D W :
  0 < u -> u <= 1 / 64 -> 0 < eta -> eta <= u * u ->
  0 <= M -> 0 <= D <= 2 * M -> 0 < W <= 2 * M ->
  0 <= a <= D * (1 + u) -> 0 < b <= W * (1 + u) ->
  Rabs (a - D) <= u * D ->
  Rabs (n * b - a) <= u * a + eta * b ->
  Rabs (n * b) <= a + (u * a + eta * b) ->
  Rabs (p - n * b) <= u * Rabs (n * b) + eta ->
  Rabs (p - D) <= slack u eta M.
Proof.
  intros U0 U1 E0 E1 M0 [D0 D1] [W0 W1] [a0 a1] [b0 b1] Ha Hnb HN Hp.
  assert (N : u * Rabs (n * b) <= u * (a + (u * a + eta * b)))
    by (apply Rmult_le_compat_l; lra).
  apply Rabs_bounds in Ha, Hnb, Hp.
  set (abar := 2 * M * (1 + u)).
  assert (a2 : a <= abar).
  { apply Rle_trans with (D * (1 + u)); [lra|].
    unfold abar. apply Rmult_le_compat_r; lra. }
  assert (b2 : b <= abar).
  { apply Rle_trans with (W * (1 + u)); [lra|].
    unfold abar. apply Rmult_le_compat_r; lra. }
  set (ca := u * (1 + u) + u). set (cb := eta * (1 + u)).
  assert (ca0 : 0 <= ca) by (unfold ca; nra).
  assert (cb0 : 0 <= cb) by (unfold cb; nra).
  assert (K1 : a * ca <= abar * ca) by (apply Rmult_le_compat_r; assumption).
  assert (K2 : b * cb <= abar * cb) by (apply Rmult_le_compat_r; assumption).
  assert (K3 : D * u <= 2 * M * u) by (apply Rmult_le_compat_r; lra).
  assert (K4 : u * (a + (u * a + eta * b)) + (u * a + eta * b) + u * D
               = a * ca + b * cb + D * u) by (unfold ca, cb; ring).
  assert (K5 : abar * ca + abar * cb + 2 * M * u
               = 2 * M * (u * ((1 + u) * (1 + u) + eta * (1 + u))
                          + (u * (1 + u) + eta * (1 + u)) + u))
    by (unfold abar, ca, cb; ring).
  pose proof (scale_le (2 * M) _ _ ltac:(lra) (slack_coefficient u eta U0 U1 E0 E1)) as K6.
  unfold slack. apply Rabs_le. lra.
Qed.

(** Step 5: the last sum stays in range. *)
Lemma sum_fits u eta M L X A p :
  0 < u -> u <= 1 / 64 -> 0 < eta -> eta <= u * u ->
  0 <= M -> M <= L -> 1 <= L -> Rabs X <= M ->
  Rabs (p - (X - A)) <= slack u eta M ->
  Rabs (p + A) <= M + slack u eta M /\ Rabs (p + A) <= 4 * L.
Proof.
  intros U0 U1 E0 E1 M0 ML L1 MX E.
  apply Rabs_bounds in E, MX.
  pose proof (scale_le (2 * M) _ _ ltac:(lra) (slack_below_quarter u U0 U1)) as K.
  assert (e1 : eta <= 1 / 64) by nra.
  assert (S : slack u eta M <= L) by (unfold slack; lra).
  split; apply Rabs_le; lra.
Qed.

(** Step 6: the round trip. *)
Lemma round_trip_bound u eta M X A p s :
  0 < u -> u <= 1 / 64 -> 0 < eta ->
  0 <= M ->
  Rabs (p - (X - A)) <= slack u eta M ->
  Rabs (p + A) <= M + slack u eta M ->
  Rabs (s - (p + A)) <= u * Rabs (p + A) ->
  Rabs (s - X) <= 8 * u * M + 2 * eta.
Proof.
  intros U0 U1 E0 M0 E S Hs.
  assert (H : u * Rabs (p + A) <= u * (M + slack u eta M))
    by (apply Rmult_le_compat_l; lra).
  apply Rabs_bounds in E, Hs.
  assert (T : u * (M + slack u eta M) + slack u eta M
              = M * (u + (1 + u) * (2 * (3 * u + 6 * (u * u)))) + (1 + u) * eta)
    by (unfold slack; ring).
  pose proof (scale_le M _ _ M0 (total_coefficient u U0 U1)) as K.
  assert (ue : 0 <= u * eta <= eta / 64) by nra.
  apply Rabs_le. lra.
Qed.

End RealBounds.

(** *** Numbers *)



Lemma finite_intro x : SFfinite (Prim2SF x) = true -> finite x.
Proof. intros H. split; [exact H | apply Prim2SF_valid]. Qed.

Lemma SFcompare_refl x : SFfinite x = true -> SFcompare x x = Some Eq.
Proof.
  destruct x as [s|s| |s m e]; try discriminate; intros _; cbn [SFcompare].
  - reflexivity.
  - rewrite Z.compare_refl.
    change (Pos.compare_cont Eq m m) with (Pos.compare m m).
    rewrite Pos.compare_refl. destruct s; reflexivity.
Qed.

Lemma finite_is_finite x : finite x -> PrimFloat.is_finite x = true.
Proof.
  intros [F _]. unfold PrimFloat.is_finite, PrimFloat.is_infinity, PrimFloat.is_nan.
  rewrite !FloatAxioms.eqb_spec, abs_spec. unfold SFeqb.
  rewrite (SFcompare_refl _ F).
  destruct (Prim2SF x) as [s|s| |s m e]; try discriminate; reflexivity.
Qed.

Lemma B2R_limit : SF2R (Prim2SF 0x1p+1021%float) = pow2 1021.
Proof.
  change (Prim2SF 0x1p+1021%float) with (S754_finite false 4503599627370496 969).
  cbn [SF2R sgn]. change (Zpos 4503599627370496) with (2 ^ 52).
  rewrite <- (pow2_IZR 52), Rmult_1_l, <- pow2_add by lia. reflexivity.
Qed.

Lemma finite_of_bound x :
  (abs x <=? 0x1p+1021)%float = true ->
  finite x /\ (Rabs (B2R x) <= pow2 1021)%R.
Proof.
  rewrite FloatAxioms.leb_spec, abs_spec. intros H.
  pose proof (Prim2SF_valid x) as V. unfold finite, B2R.
  assert (FL : fin (Prim2SF 0x1p+1021%float))
    by (split; [reflexivity | apply Prim2SF_valid]).
  destruct (Prim2SF x) as [s|s| |s m e]; try discriminate H.
  - split; [split; [reflexivity | exact V]|].
    cbn [SF2R]. rewrite Rabs_R0. left. apply pow2_pos.
  - split; [split; [reflexivity | exact V]|].
    cbn [SFabs] in H.
    apply SFleb_sound in H; [| split; [reflexivity | exact V] | exact FL].
    rewrite B2R_limit in H. cbn [SF2R] in *.
    rewrite Rmult_assoc, Rabs_sgn by (left; apply magnitude_pos).
    cbn [sgn] in H. lra.
Qed.

Lemma finite_between min v max :
  finite min -> finite max ->
  (min <=? v)%float = true -> (v <=? max)%float = true -> finite v.
Proof.
  rewrite !FloatAxioms.leb_spec. unfold finite. intros [Fa _] [Fb _] H1 H2.
  apply finite_intro.
  destruct (Prim2SF min) as [sa|sa| |sa ma ea]; try discriminate Fa;
    destruct (Prim2SF max) as [sb|sb| |sb mb eb]; try discriminate Fb;
    destruct (Prim2SF v) as [s|[|]| |s m e]; try reflexivity;
    try discriminate H1; try discriminate H2;
    try (destruct sa; discriminate H1); try (destruct sb; discriminate H2).
Qed.

Section Operations.
Variables x y : float.
Hypothesis Fx : finite x.
Hypothesis Fy : finite y.

Lemma sub_error :
  (Rabs (B2R x - B2R y) <= pow2 1023)%R ->
  finite (x - y)
  /\ (Rabs (B2R (x - y) - (B2R x - B2R y)) <= EPSILON * Rabs (B2R x - B2R y))%R.
Proof. unfold finite, B2R. rewrite sub_spec. apply SFsub_spec; assumption. Qed.

Lemma add_error :
  (Rabs (B2R x + B2R y) <= pow2 1023)%R ->
  finite (x + y)
  /\ (Rabs (B2R (x + y) - (B2R x + B2R y)) <= EPSILON * Rabs (B2R x + B2R y))%R.
Proof. unfold finite, B2R. rewrite add_spec. apply SFadd_spec; assumption. Qed.

Lemma mul_error :
  (Rabs (B2R x * B2R y) <= pow2 1023)%R ->
  finite (x * y)
  /\ (Rabs (B2R (x * y) - B2R x * B2R y) <= EPSILON * Rabs (B2R x * B2R y) + MIN_VALUE)%R.
Proof. unfold finite, B2R. rewrite mul_spec. apply SFmul_spec; assumption. Qed.

Lemma div_error :
  B2R y <> 0%R ->
  (Rabs (B2R x / B2R y) <= pow2 1023)%R ->
  finite (x / y)
  /\ (Rabs (B2R (x / y) - B2R x / B2R y) <= EPSILON * Rabs (B2R x / B2R y) + MIN_VALUE)%R.
Proof. unfold finite, B2R. rewrite div_spec. apply SFdiv_spec; assumption. Qed.

End Operations.

Lemma EPSILON_small : (EPSILON <= 1 / 64)%R.
Proof.
  unfold EPSILON. apply Rle_trans with (pow2 (-6)); [apply pow2_le; lia|].
  assert (H : (pow2 (-6) * pow2 6 = pow2 0)%R) by (rewrite <- pow2_add; reflexivity).
  rewrite (pow2_IZR 6) in H by lia. change (pow2 0) with 1%R in H.
  change (IZR (2 ^ 6)) with 64%R in H. lra.
Qed.

Lemma MIN_VALUE_tiny : (MIN_VALUE <= EPSILON * EPSILON)%R.
Proof. unfold MIN_VALUE, EPSILON. rewrite <- pow2_add. apply pow2_le. lia. Qed.

Lemma pow2_1023_1021 : pow2 1023 = (4 * pow2 1021)%R.
Proof. replace 1023 with (1021 + 1 + 1) by lia. rewrite !pow2_succ. ring. Qed.

Lemma pow2_1021_big : (1 <= pow2 1021)%R.
Proof. change 1%R with (pow2 0). apply pow2_le. lia. Qed.

(** The tolerance in powers of two. *)
Lemma tolerance_constants :
  (8 * EPSILON = pow2 (-49))%R /\ (2 * MIN_VALUE = pow2 (-1073))%R.
Proof.
  unfold EPSILON, MIN_VALUE. split.
  - replace (-49) with (-52 + 1 + 1 + 1) by lia. rewrite !pow2_succ. ring.
  - replace (-1073) with (-1074 + 1) by lia. rewrite pow2_succ. ring.
Qed.

(** ** Scaling and its inverse *)

(** Without rounding the inverse map of [predictPrices] undoes the scaling of
    [prepareData]: on rationals, for [min < max] and [v] between them,
    [((v - min) / (max - min)) * (max - min) + min] is [v]. *)
Theorem scaling_round_trip_exact (min max v : Q) :
  (min < max)%Q -> (min <= v <= max)%Q ->
  (denormalize (normalize v min max) min max == v)%Q.
Proof.
  intros Hlt _. unfold denormalize, normalize.
  cbn [plus_ minus_ times_ divide_ ExactArithmetic].
  field. intros E. apply (Qlt_irrefl max).
  apply Qle_lt_trans with (y := min); [|exact Hlt].
  apply Qle_minus_iff. setoid_replace (min + - max)%Q with (- (max - min))%Q by ring.
  rewrite E. discriminate.
Qed.

Lemma scaling_round_trip_exact_witness :
  (denormalize (normalize (105 # 1) (100 # 1) (221 # 2)) (100 # 1) (221 # 2) == 105 # 1)%Q.
Proof.
  apply (scaling_round_trip_exact (100 # 1) (221 # 2) (105 # 1)).
  - reflexivity.
  - split; discriminate.
Defined.

(** C3, as amended, on Numbers.  For a range [min < max] whose ends have
    magnitude at most 2^1021 and a value [v] with [min <= v <= max], the
    round trip [((v - min) / (max - min)) * (max - min) + min] is finite and
    differs from [v] by at most [8 * Number.EPSILON] times the larger of
    [|min|] and [|max|], plus [2 * Number.MIN_VALUE]: five roundings, of
    which the division and the product may underflow. *)
Theorem scaling_round_trip_error (min max v : float) :
  (abs min <=? 0x1p+1021)%float = true ->
  (abs max <=? 0x1p+1021)%float = true ->
  (min <? max)%float = true ->
  (min <=? v)%float = true ->
  (v <=? max)%float = true ->
  PrimFloat.is_finite (denormalize (normalize v min max) min max) = true
  /\ (Rabs (B2R (denormalize (normalize v min max) min max) - B2R v)
      <= 8 * EPSILON * Rmax (Rabs (B2R min)) (Rabs (B2R max)) + 2 * MIN_VALUE)%R.
Proof.
  intros Bmin Bmax Hlt Hlo Hhi.
  destruct (finite_of_bound min Bmin) as [Fmin Lmin].
  destruct (finite_of_bound max Bmax) as [Fmax Lmax].
  pose proof (finite_between min v max Fmin Fmax Hlo Hhi) as Fv.
  rewrite FloatAxioms.ltb_spec in Hlt. apply SFltb_sound in Hlt; [|exact Fmin|exact Fmax].
  rewrite FloatAxioms.leb_spec in Hlo, Hhi.
  apply SFleb_sound in Hlo; [|exact Fmin|exact Fv].
  apply SFleb_sound in Hhi; [|exact Fv|exact Fmax].
  fold (B2R min) in Hlt, Hlo. fold (B2R max) in Hlt, Hhi. fold (B2R v) in Hlo, Hhi.
  set (A := B2R min) in *. set (B := B2R max) in *. set (X := B2R v) in *.
  set (M := Rmax (Rabs A) (Rabs B)).
  set (L := pow2 1021) in *.
  pose proof EPSILON_pos as U0. pose proof EPSILON_small as U1.
  pose proof MIN_VALUE_pos as E0. pose proof MIN_VALUE_tiny as E1.
  pose proof pow2_1021_big as L1. fold L in L1.
  pose proof pow2_1023_1021 as P4. fold L in P4.
  assert (MA : (Rabs A <= M)%R) by apply Rmax_l.
  assert (MB : (Rabs B <= M)%R) by apply Rmax_r.
  assert (ML : (M <= L)%R) by (apply Rmax_lub; assumption).
  assert (M0 : (0 <= M)%R) by (eapply Rle_trans; [apply Rabs_pos | exact MA]).
  pose proof (Rabs_bounds _ _ MA) as MA'. pose proof (Rabs_bounds _ _ MB) as MB'.
  assert (MX : (Rabs X <= M)%R) by (apply Rabs_le; lra).
  assert (D : (0 <= X - A <= 2 * M)%R) by lra.
  assert (W : (0 < B - A <= 2 * M)%R) by lra.
  unfold denormalize, normalize. cbn [plus_ minus_ times_ divide_ NumberArithmetic].
  (* the two differences *)
  destruct (sub_error v min Fv Fmin) as [Fa Ha].
  { fold X A. rewrite P4. apply Rabs_le. lra. }
  destruct (sub_error max min Fmax Fmin) as [Fb Hb].
  { fold B A. rewrite P4. apply Rabs_le. lra. }
  fold X A in Ha. fold B A in Hb.
  set (a := B2R (v - min)) in *. set (b := B2R (max - min)) in *.
  destruct (differences_bounds EPSILON (X - A) (B - A) a b U0 U1 ltac:(lra) ltac:(lra) ltac:(lra) Ha Hb)
    as (a1 & b1 & ab & Ha').
  (* the quotient *)
  destruct (quotient_bounds a b ltac:(lra) ltac:(lra) ab) as (t0 & t1).
  destruct (div_error (v - min) (max - min) Fa Fb) as [Fn Hn].
  { fold b. lra. }
  { fold a b. rewrite P4. apply Rabs_le. lra. }
  fold a b in Hn. set (n := B2R ((v - min) / (max - min))) in *.
  destruct (product_bounds EPSILON MIN_VALUE a b n U0 E0 ltac:(lra) ltac:(lra) ab Hn) as (Hnb & HN).
  pose proof (product_fits EPSILON MIN_VALUE M L a b (X - A) (B - A) U0 U1 E0 E1 M0 ML D W a1 b1) as NF.
  (* the product *)
  destruct (mul_error ((v - min) / (max - min)) (max - min) Fn Fb) as [Fp Hp].
  { fold n b. rewrite P4. lra. }
  fold n b in Hp. set (p := B2R ((v - min) / (max - min) * (max - min))) in *.
  pose proof (product_error EPSILON MIN_VALUE M a b n p (X - A) (B - A)
                U0 U1 E0 E1 M0 D W a1 b1 Ha' Hnb HN Hp) as PE.
  destruct (sum_fits EPSILON MIN_VALUE M L X A p U0 U1 E0 E1 M0 ML L1 MX PE) as (S1 & S2).
  (* the sum *)
  destruct (add_error ((v - min) / (max - min) * (max - min)) min Fp Fmin) as [Fs Hs].
  { fold p A. rewrite P4. exact S2. }
  fold p A in Hs.
  split; [apply finite_is_finite; exact Fs|].
  exact (round_trip_bound EPSILON MIN_VALUE M X A p _ U0 U1 E0 M0 PE S1 Hs).
Qed.

Lemma scaling_round_trip_error_witness :
  ((abs 100 <=? 0x1p+1021) = true /\ (abs 110.5 <=? 0x1p+1021) = true
   /\ (100 <? 110.5) = true /\ (100 <=? 105) = true /\ (105 <=? 110.5) = true)%float
  /\ PrimFloat.is_finite (denormalize (normalize 105 100 110.5) 100 110.5)%float = true
  /\ (Rabs (B2R (denormalize (normalize 105 100 110.5) 100 110.5)%float - B2R 105%float)
      <= 8 * EPSILON * Rmax (Rabs (B2R 100%float)) (Rabs (B2R 110.5%float))
         + 2 * MIN_VALUE)%R.
Proof.
  split; [repeat split; reflexivity|].
  apply (scaling_round_trip_error 100 110.5 105); reflexivity.
Defined.

Lemma is_infinity_Prim2SF x :
  PrimFloat.is_infinity x = true -> exists s, Prim2SF x = S754_infinity s.
Proof.
  unfold PrimFloat.is_infinity. rewrite eqb_spec, abs_spec.
  change (Prim2SF infinity) with (S754_infinity false).
  destruct (Prim2SF x) as [[]|[]| |[] ? ?]; try discriminate; eauto.
Qed.

Lemma is_finite_Prim2SF x :
  PrimFloat.is_finite x = true ->
  match Prim2SF x with S754_zero _ | S754_finite _ _ _ => True | _ => False end.
Proof.
  unfold PrimFloat.is_finite, PrimFloat.is_infinity, is_nan.
  rewrite !eqb_spec, abs_spec.
  change (Prim2SF infinity) with (S754_infinity false).
  destruct (Prim2SF x) as [[]|[]| |[] ? ?]; try discriminate; intros _; exact I.
Qed.

(** On Numbers the round trip is lost when the range overflows: if
    [max - min] is an infinity while [v - min] is finite, the scaled value
    is a zero, its product with the infinite range is NaN, and so is the
    result. *)
Lemma scaling_round_trip_overflow (min max v : float) :
  PrimFloat.is_infinity (max - min) = true ->
  PrimFloat.is_finite (v - min) = true ->
  denormalize (normalize v min max) min max = nan.
Proof.
  unfold denormalize, normalize. cbn [plus_ minus_ times_ divide_ NumberArithmetic].
  set (r := (max - min)%float). set (n := (v - min)%float).
  intros Hr Hn. apply Prim2SF_inj.
  rewrite add_spec, mul_spec, div_spec.
  destruct (is_infinity_Prim2SF r Hr) as [s ->].
  pose proof (is_finite_Prim2SF n Hn) as F.
  destruct (Prim2SF n) as [sn|sn| |sn mn en]; try contradiction; reflexivity.
Qed.

(** C3, as stated, on the range from -(2^1023) to 2^1023 and the value 0 in
    it: the scaled value is 0, the range is Infinity, and the round trip is
    NaN. *)
Lemma scaling_round_trip_fails_on_overflow :
  ((-0x1p+1023 <? 0x1p+1023) = true
   /\ (-0x1p+1023 <=? 0) = true /\ (0 <=? 0x1p+1023) = true)%float
  /\ (0x1p+1023 - -0x1p+1023 = infinity)%float
  /\ normalize 0%float (-0x1p+1023)%float 0x1p+1023%float = 0%float
  /\ isNaN (denormalize (normalize 0 (-0x1p+1023) 0x1p+1023) (-0x1p+1023) 0x1p+1023)%float
     = true.
Proof. vm_compute. repeat split; reflexivity. Qed.

(** ** Price text *)

Lemma isDigit_cases c :
  isDigit c = true ->
  In c ["0"; "1"; "2"; "3"; "4"; "5"; "6"; "7"; "8"; "9"]%char.
Proof.
  destruct c as [[] [] [] [] [] [] [] []]; vm_compute; intros H;
    try discriminate H; tauto.
Qed.

Lemma string_app_assoc (a b c : string) : ((a ++ b) ++ c = a ++ (b ++ c))%string.
Proof. induction a as [|x a IH]; cbn; [reflexivity | now rewrite IH]. Qed.

Lemma string_app_nil_r (a : string) : (a ++ "")%string = a.
Proof. induction a as [|x a IH]; cbn; [reflexivity | now rewrite IH]. Qed.

Lemma string_length_app (a b : string) :
  String.length (a ++ b) = (String.length a + String.length b)%nat.
Proof. induction a as [|x a IH]; cbn; [reflexivity | now rewrite IH]. Qed.

Lemma allDigits_app a b : allDigits (a ++ b) = allDigits a && allDigits b.
Proof.
  induction a as [|x a IH]; cbn [allDigits append]; [reflexivity|].
  now rewrite IH, andb_assoc.
Qed.

Lemma digitsValueFrom_app a b acc :
  digitsValueFrom acc (a ++ b) = digitsValueFrom (digitsValueFrom acc a) b.
Proof. revert acc. induction a as [|x a IH]; intros acc; cbn; [reflexivity | apply IH]. Qed.

(** [scanDigits] reads a run of digits up to a character that is not one. *)
Lemma scanDigits_run s : forall rest acc count,
  allDigits s = true ->
  match rest with String c _ => isDigit c = false | "" => True end ->
  scanDigits (s ++ rest) acc count
  = (digitsValueFrom acc s, count + Z.of_nat (String.length s), rest).
Proof.
  induction s as [|x s IH]; intros rest acc count Hs Hrest.
  - cbn [append digitsValueFrom String.length]. rewrite Z.add_0_r.
    destruct rest as [|c r]; cbn [scanDigits]; [reflexivity | now rewrite Hrest].
  - cbn [allDigits] in Hs. apply andb_prop in Hs as [Hx Hs].
    cbn [append scanDigits digitsValueFrom String.length]. rewrite Hx.
    rewrite (IH rest _ _ Hs Hrest). f_equal. f_equal. lia.
Qed.

(** Removing the commas of a comma-free string, and of a concatenation. *)
Lemma replaceAll_absent c s : absent c s -> replaceAll c "" s = s.
Proof.
  induction s as [|a s IH]; cbn [absent replaceAll]; [reflexivity|].
  intros [Ha Hs]. now rewrite Ha, (IH Hs).
Qed.

Lemma replaceAll_app c a b :
  replaceAll c "" (a ++ b) = (replaceAll c "" a ++ replaceAll c "" b)%string.
Proof.
  induction a as [|x a IH]; cbn [append replaceAll]; [reflexivity|].
  destruct (Ascii.eqb x c); cbn [append]; now rewrite IH.
Qed.

Lemma replaceAll_removes c s : absent c (replaceAll c "" s).
Proof.
  induction s as [|a s IH]; cbn [replaceAll absent]; [exact I|].
  destruct (Ascii.eqb a c) eqn:E; cbn [append absent]; auto.
Qed.

Lemma allDigits_absent c s :
  isDigit c = false -> allDigits s = true -> absent c s.
Proof.
  intros Hc. induction s as [|a s IH]; cbn [allDigits absent]; [auto|].
  intros H. apply andb_prop in H as [Ha Hs]. split; [|now apply IH].
  destruct (Ascii.eqb_spec a c) as [->|]; [congruence | reflexivity].
Qed.

(** Groups of digits joined by commas lose exactly the commas. *)
Lemma replaceAll_join groups :
  forallb allDigits groups = true ->
  replaceAll "," "" (join "," groups) = concatAll groups.
Proof.
  induction groups as [|g groups IH]; [reflexivity|].
  cbn [forallb]. intros H. apply andb_prop in H as [Hg Hgs].
  assert (G : replaceAll "," "" g = g)
    by (apply replaceAll_absent, allDigits_absent; [reflexivity | exact Hg]).
  destruct groups as [|g' groups'].
  - cbn [join concatAll]. now rewrite string_app_nil_r.
  - change (join "," (g :: g' :: groups'))
      with (g ++ "," ++ join "," (g' :: groups'))%string.
    rewrite replaceAll_app, G. cbn [concatAll].
    change ("," ++ join "," (g' :: groups'))%string
      with (String "," (join "," (g' :: groups'))).
    cbn [replaceAll]. rewrite Ascii.eqb_refl. cbn [append].
    now rewrite (IH Hgs).
Qed.

(** [parseFloat] on digits followed by an optional fraction. *)
Lemma parseFloat_decimal int frac :
  int <> "" -> allDigits int = true -> allDigits frac = true ->
  parseFloat int = decimalToNumber false (digitsValue int) 0
  /\ parseFloat (int ++ "." ++ frac)
     = decimalToNumber false (digitsValue (int ++ frac))
                       (- Z.of_nat (String.length frac)).
Proof.
  intros Hne Hint Hfrac.
  destruct int as [|c int']; [congruence|].
  pose proof Hint as Hint0.
  cbn [allDigits] in Hint. apply andb_prop in Hint as [Hc Hint'].
  assert (Scan : forall rest,
            match rest with String x _ => isDigit x = false | "" => True end ->
            scanDigits (String c int' ++ rest) 0 0
            = (digitsValue (String c int'), Z.of_nat (String.length (String c int')), rest)).
  { intros rest Hrest. now rewrite (scanDigits_run _ rest 0 0 Hint0 Hrest). }
  assert (Head : forall tail,
            parseFloat (String c int' ++ tail)
            = match (let '(i, ni, afterInt) := scanDigits (String c int' ++ tail) 0 0 in
                     let '(m, nf, afterFrac) :=
                       match afterInt with
                       | String "." r =>
                           let '(m, nf, rest) := scanDigits r i 0 in
                           if (0 <? ni) || (0 <? nf) then (m, nf, rest) else (i, 0, afterInt)
                       | _ => (i, 0, afterInt)
                       end in
                     if (0 <? ni) || (0 <? nf) then
                       let '(x, rest) := scanExponent afterFrac in
                       Some (decimalToNumber false m (x - nf), rest)
                     else None)
              with Some (x, _) => x | None => nan end).
  { intros tail. apply isDigit_cases in Hc. cbn [In] in Hc.
    repeat (destruct Hc as [<-|Hc]; [reflexivity|]). contradiction. }
  split.
  - rewrite <- (string_app_nil_r (String c int')) at 1.
    rewrite Head, (Scan "" I). cbn [String.length].
    destruct (0 <? Z.of_nat (S (String.length int'))) eqn:P; [|apply Z.ltb_ge in P; lia].
    cbn [orb scanExponent]. now rewrite Z.sub_0_r.
  - rewrite Head, (Scan ("." ++ frac)%string) by reflexivity.
    change ("." ++ frac)%string with (String "." frac).
    rewrite <- (string_app_nil_r frac) at 1.
    rewrite (scanDigits_run frac "" _ 0 Hfrac I).
    cbn [String.length].
    destruct (0 <? Z.of_nat (S (String.length int'))) eqn:P; [|apply Z.ltb_ge in P; lia].
    cbn [orb scanExponent]. rewrite Z.add_0_l.
    unfold digitsValue. rewrite (digitsValueFrom_app (String c int') frac 0).
    reflexivity.
Qed.

Lemma replaceAll_filter c s :
  list_ascii_of_string (replaceAll c "" s)
  = filter (fun a => negb (Ascii.eqb a c)) (list_ascii_of_string s).
Proof.
  induction s as [|a s IH]; cbn [replaceAll list_ascii_of_string filter]; [reflexivity|].
  destruct (Ascii.eqb a c); cbn [negb append list_ascii_of_string]; now rewrite IH.
Qed.

Lemma allDigits_concatAll groups :
  forallb allDigits groups = true -> allDigits (concatAll groups) = true.
Proof.
  induction groups as [|g groups IH]; cbn [forallb concatAll]; [reflexivity|].
  intros H. apply andb_prop in H as [Hg Hgs].
  now rewrite allDigits_app, Hg, (IH Hgs).
Qed.

(** ** formatDateToISO *)

Lemma notDigit_dash : (nat_of_ascii "-" < 48 \/ 57 < nat_of_ascii "-")%nat.
Proof. left. vm_compute. lia. Qed.

Lemma monthAbbreviation_absent_dash m : absent "-" (monthAbbreviation m).
Proof.
  unfold monthAbbreviation. generalize (Z.to_nat m) as n. intros n.
  do 12 (destruct n as [|n]; [cbn; auto|]). destruct n; cbn; auto.
Qed.

(** The three fields of a date text. *)
Lemma split_date_text d m y :
  split "-" (fixedWidth 2 d ++ "-" ++ monthAbbreviation m ++ "-" ++ fixedWidth 4 y)
  = [fixedWidth 2 d; monthAbbreviation m; fixedWidth 4 y].
Proof.
  change ("-" ++ monthAbbreviation m ++ "-" ++ fixedWidth 4 y)%string
    with (String "-" (monthAbbreviation m ++ String "-" (fixedWidth 4 y))).
  rewrite split_app by apply fixedWidth_absent, notDigit_dash.
  rewrite split_app by apply monthAbbreviation_absent_dash.
  rewrite split_absent by apply fixedWidth_absent, notDigit_dash.
  reflexivity.
Qed.

Lemma Day_MakeDate n : Day (MakeDate n 0) = n.
Proof. unfold Day, MakeDate. rewrite Z.add_0_r. apply Z.div_mul. discriminate. Qed.

Lemma Local_UTC LocalTZA t : LocalTime LocalTZA (UTC LocalTZA t) = t.
Proof. unfold LocalTime, UTC. lia. Qed.

(** The month text followed by " 1, 2020" is read as the first of that
    month, in local time. *)
Lemma Date_parse_month LocalTZA m :
  0 <= m <= 11 ->
  Date_parse LocalTZA (monthAbbreviation m ++ " 1, 2020")
  = TimeClip (UTC LocalTZA (MakeDate (MakeDay 2020 m 1) 0)).
Proof.
  intros Hm. month_cases m Hm; reflexivity.
Qed.

Lemma getMonth_of_month_text LocalTZA m :
  - msPerDay < LocalTZA < msPerDay -> 0 <= m <= 11 ->
  getMonth LocalTZA
    (newDateOfTime (Date_parse LocalTZA (monthAbbreviation m ++ " 1, 2020")))
  = Some m.
Proof.
  intros Hz Hm. rewrite (Date_parse_month LocalTZA m Hm).
  assert (B : 18262 <= MakeDay 2020 m 1 <= 18597)
    by (month_cases m Hm; vm_compute; split; discriminate).
  assert (V : TimeClip (UTC LocalTZA (MakeDate (MakeDay 2020 m 1) 0))
              = Some (UTC LocalTZA (MakeDate (MakeDay 2020 m 1) 0))).
  { apply TimeClip_valid. unfold UTC, MakeDate, maxTime, msPerDay in *. lia. }
  rewrite V. unfold newDateOfTime. rewrite V.
  unfold getMonth, option_map, MonthFromTime. rewrite Local_UTC, Day_MakeDate.
  f_equal. apply (civil_of_MakeDay 2020 m 1 Hm).
  unfold DaysInMonth. month_cases m Hm; vm_compute; split; discriminate.
Qed.

(** Fields of two and four digits, read as Numbers and written back. *)
Lemma ToNumber_fixedWidth4 y :
  0 <= y <= 9999 -> finiteInteger (ToNumber (Some (fixedWidth 4 y))) = Some y.
Proof.
  intros Hy.
  assert (H : forallRange (Z.to_nat 10000) 0 (fun z =>
                match finiteInteger (ToNumber (Some (fixedWidth 4 z))) with
                | Some v => v =? z
                | None => false
                end) = true) by (vm_compute; reflexivity).
  pose proof (forallRange_spec _ _ 0 H y ltac:(lia)) as E. cbv beta in E.
  destruct (finiteInteger _) as [v|]; [|discriminate E].
  apply Z.eqb_eq in E. now subst.
Qed.

Lemma ToNumber_fixedWidth2 d :
  0 <= d <= 99 -> finiteInteger (ToNumber (Some (fixedWidth 2 d))) = Some d.
Proof.
  intros Hd.
  assert (H : forallRange (Z.to_nat 100) 0 (fun z =>
                match finiteInteger (ToNumber (Some (fixedWidth 2 z))) with
                | Some v => v =? z
                | None => false
                end) = true) by (vm_compute; reflexivity).
  pose proof (forallRange_spec _ _ 0 H d ltac:(lia)) as E. cbv beta in E.
  destruct (finiteInteger _) as [v|]; [|discriminate E].
  apply Z.eqb_eq in E. now subst.
Qed.

Lemma decimalOfZ_four_digits y :
  1000 <= y <= 9999 -> decimalOfZ y = fixedWidth 4 y.
Proof.
  intros Hy.
  assert (H : forallRange (Z.to_nat 9000) 1000 (fun z => String.eqb (decimalOfZ z) (fixedWidth 4 z))
              = true) by (vm_compute; reflexivity).
  pose proof (forallRange_spec _ _ 1000 H y ltac:(lia)) as E. cbv beta in E.
  now apply String.eqb_eq in E.
Qed.

Lemma padStart_two_digits k :
  0 <= k <= 99 -> padStart (decimalOfZ k) 2 "0" = fixedWidth 2 k.
Proof.
  intros Hk.
  assert (H : forallRange (Z.to_nat 100) 0 (fun z =>
                String.eqb (padStart (decimalOfZ z) 2 "0") (fixedWidth 2 z)) = true)
    by (vm_compute; reflexivity).
  pose proof (forallRange_spec _ _ 0 H k ltac:(lia)) as E. cbv beta in E.
  now apply String.eqb_eq in E.
Qed.

Lemma DayFromYear_bounds y :
  1000 <= y <= 9999 -> -354286 <= DayFromYear y <= 2932532.
Proof. intros Hy. unfold DayFromYear. Z.div_mod_to_equations. lia. Qed.

Lemma DaysInMonth_le_31 leap m : 0 <= m <= 11 -> DaysInMonth leap m <= 31.
Proof.
  intros Hm. unfold DaysInMonth. destruct leap; month_cases m Hm; vm_compute; discriminate.
Qed.




(** ** Decimal text of integers *)

Lemma isDigit_digitChar k : 0 <= k < 10 -> isDigit (digitChar k) = true.
Proof.
  intros Hk.
  assert (C : k = 0 \/ k = 1 \/ k = 2 \/ k = 3 \/ k = 4 \/ k = 5 \/ k = 6 \/ k = 7
              \/ k = 8 \/ k = 9) by lia.
  destruct C as [->|[->|[->|[->|[->|[->|[->|[->|[->| ->]]]]]]]]]; reflexivity.
Qed.

Lemma digitsOf_allDigits fuel : forall n acc,
  allDigits acc = true -> allDigits (digitsOf fuel n acc) = true.
Proof.
  induction fuel as [|fuel IH]; intros n acc Hacc; cbn [digitsOf]; [exact Hacc|].
  assert (H : allDigits (String (digitChar (n mod 10)) acc) = true).
  { cbn [allDigits]. rewrite isDigit_digitChar by (apply Z.mod_pos_bound; lia). exact Hacc. }
  destruct (n / 10 =? 0); [exact H | now apply IH].
Qed.

Lemma digitsOf_not_empty fuel : forall n acc,
  (fuel <> 0%nat \/ acc <> "") -> digitsOf fuel n acc <> "".
Proof.
  induction fuel as [|fuel IH]; intros n acc H; cbn [digitsOf].
  - destruct H as [H|H]; [congruence | exact H].
  - destruct (n / 10 =? 0); [discriminate|]. apply IH. right. discriminate.
Qed.

Lemma decimalOfZ_digits n :
  0 <= n -> allDigits (decimalOfZ n) = true /\ decimalOfZ n <> "".
Proof.
  intros Hn. unfold decimalOfZ.
  destruct (Z.ltb_spec n 0); [lia|]. split.
  - now apply digitsOf_allDigits.
  - apply digitsOf_not_empty. left. discriminate.
Qed.

Lemma fixedWidth_allDigits w : forall n, allDigits (fixedWidth w n) = true.
Proof.
  induction w as [|w IH]; intros n; cbn [fixedWidth]; [reflexivity|].
  rewrite allDigits_app, IH. cbn [allDigits].
  now rewrite isDigit_digitChar by (apply Z.mod_pos_bound; lia).
Qed.

Lemma fixedWidth_two n :
  fixedWidth 2 n
  = String (digitChar ((n / 10) mod 10)) (String (digitChar (n mod 10)) "").
Proof. reflexivity. Qed.

(** ** toFixed *)

Lemma scaledRound_nonneg x k : 0 <= k -> 0 <= scaledRound x k.
Proof.
  intros Hk. unfold scaledRound.
  destruct (Prim2SF x) as [s|s| |s m e]; try lia.
  destruct (Z.leb_spec 0 e) as [He|He].
  - apply Z.mul_nonneg_nonneg; [|exact Hk].
    apply Z.mul_nonneg_nonneg; [lia|]. apply Z.pow_nonneg. lia.
  - assert (P : 0 < 2 ^ (- e)) by (apply Z.pow_pos_nonneg; lia).
    apply Z.div_pos; nia.
Qed.

(** The shape of [x.toFixed(2)] for a finite [x] of magnitude below 1e21. *)
Lemma toFixed_small x :
  PrimFloat.is_finite x = true ->
  (1e21 <=? PrimFloat.abs x)%float = false ->
  exists i r : Z,
    0 <= i
    /\ toFixed x 2
       = ((if (x <? 0)%float then "-" else "") ++ decimalOfZ i ++ "." ++ fixedWidth 2 r)%string.
Proof.
  intros Hf Hb. unfold toFixed.
  unfold PrimFloat.is_finite in Hf. apply negb_true_iff, orb_false_iff in Hf as [Hn Hi].
  unfold isNaN. rewrite Hn, Hi, Hb.
  eexists _, _. split; [|reflexivity].
  apply Z.div_pos; [apply scaledRound_nonneg|]; cbn; lia.
Qed.

Lemma plainText_app a b : plainText (a ++ b) = plainText a && plainText b.
Proof.
  induction a as [|x a IH]; cbn [plainText append]; [reflexivity|].
  now rewrite IH, andb_assoc.
Qed.

Lemma allDigits_plainText s : allDigits s = true -> plainText s = true.
Proof.
  induction s as [|c s IH]; cbn [allDigits plainText]; [reflexivity|].
  intros H. apply andb_prop in H as [-> Hs]. now rewrite (IH Hs).
Qed.

Lemma plainText_contains c s :
  isDigit c = false -> Ascii.eqb c "-" = false -> Ascii.eqb c "." = false ->
  plainText s = true -> contains c s = false.
Proof.
  intros Hd Hm Hp. induction s as [|a s IH]; cbn [plainText contains]; [reflexivity|].
  intros H. apply andb_prop in H as [Ha Hs]. rewrite (IH Hs), orb_false_r.
  destruct (Ascii.eqb_spec a c) as [->|]; [|reflexivity].
  now rewrite Hd, Hm, Hp in Ha.
Qed.

Lemma plainText_firstChar s : plainText s = true -> isSpace (firstChar s) = false.
Proof.
  destruct s as [|a s]; cbn [plainText firstChar isSpace]; [reflexivity|].
  intros H. apply andb_prop in H as [Ha _].
  destruct (Ascii.eqb_spec a " ") as [->|]; [discriminate Ha | reflexivity].
Qed.

Lemma plainText_lastChar s : plainText s = true -> isSpace (lastChar s) = false.
Proof.
  induction s as [|a s IH]; [reflexivity|].
  cbn [plainText]. intros H. apply andb_prop in H as [Ha Hs].
  destruct s as [|b s]; [|exact (IH Hs)].
  cbn [lastChar isSpace].
  destruct (Ascii.eqb_spec a " ") as [->|]; [discriminate Ha | reflexivity].
Qed.

(** A field that needs no quotes is written as it is. *)
Lemma safe_unquoted s : needsQuotes s = false -> safe (Some s) = s.
Proof.
  intros H. unfold safe.
  assert (C : contains quoteChar s = false).
  { unfold needsQuotes in H. destruct (contains quoteChar s); [|reflexivity].
    now rewrite !orb_true_r in H. }
  assert (Q : replaceAll quoteChar (String quoteChar (String quoteChar "")) s = s).
  { revert C. clear. induction s as [|a s IH]; cbn [contains replaceAll]; [reflexivity|].
    intros H. apply orb_false_iff in H as [Ha Hs]. now rewrite Ha, (IH Hs). }
  now rewrite Q, H.
Qed.

Lemma plainText_needsQuotes s : plainText s = true -> needsQuotes s = false.
Proof.
  intros H. unfold needsQuotes.
  rewrite !plainText_contains by (exact H || reflexivity).
  now rewrite plainText_firstChar, plainText_lastChar.
Qed.

Lemma twoDecimalPlaces_shape (neg : bool) (I : string) (a b : ascii) :
  allDigits I = true -> I <> "" -> isDigit a = true -> isDigit b = true ->
  twoDecimalPlaces ((if neg then "-" else "") ++ I ++ "." ++ String a (String b ""))
  = true.
Proof.
  intros HI Hne Ha Hb.
  assert (Scan : scanDigits (I ++ "." ++ String a (String b "")) 0 0
                 = (digitsValueFrom 0 I, 0 + Z.of_nat (String.length I),
                    ("." ++ String a (String b ""))%string))
    by (apply scanDigits_run; [exact HI | reflexivity]).
  assert (Len : (0 <? 0 + Z.of_nat (String.length I)) = true).
  { destruct I; [congruence|]. cbn [String.length]. apply Z.ltb_lt. lia. }
  assert (Body : twoDecimalPlaces (I ++ "." ++ String a (String b "")) = true).
  { destruct I as [|c s]; [congruence|].
    pose proof HI as HI0. cbn [allDigits] in HI0. apply andb_prop in HI0 as [Hc _].
    apply isDigit_cases in Hc. cbn [In] in Hc.
    repeat (destruct Hc as [<-|Hc];
            [unfold twoDecimalPlaces; cbn [append] in *; rewrite Scan, Len, Ha, Hb;
             reflexivity|]).
    contradiction. }
  destruct neg; [|exact Body].
  unfold twoDecimalPlaces in *. cbn [append] in *.
  destruct I as [|c s]; [congruence|].
  cbn [append] in *. rewrite Scan, Len, Ha, Hb. reflexivity.
Qed.

(** [x.toFixed(2)], for a finite [x] of magnitude below 1e21, has exactly
    two decimal places and is written to the table without quotes. *)
Lemma toFixed_two_decimals x :
  PrimFloat.is_finite x = true ->
  (1e21 <=? PrimFloat.abs x)%float = false ->
  twoDecimalPlaces (toFixed x 2) = true /\ safe (Some (toFixed x 2)) = toFixed x 2.
Proof.
  intros Hf Hb. destruct (toFixed_small x Hf Hb) as [i [r [Hi ->]]].
  destruct (decimalOfZ_digits i Hi) as [Hd Hne].
  split.
  - rewrite fixedWidth_two.
    apply twoDecimalPlaces_shape; try assumption;
      apply isDigit_digitChar, Z.mod_pos_bound; lia.
  - apply safe_unquoted, plainText_needsQuotes.
    rewrite !plainText_app.
    rewrite (allDigits_plainText _ Hd), (allDigits_plainText _ (fixedWidth_allDigits 2 r)).
    now destruct (x <? 0)%float.
Qed.

(** ** saveToCSV *)

Lemma property_app key o1 o2 :
  property key (o1 ++ o2)%list
  = match property key o2 with
    | Some v => Some v
    | None => property key o1
    end.
Proof.
  induction o1 as [|[k v] o1 IH]; cbn [app property].
  - now destruct (property key o2).
  - rewrite IH. now destruct (property key o2).
Qed.

Lemma property_objectOfRow date price rmse mse others :
  property "Date" (objectOfRow date price rmse mse others) = Some date
  /\ property "PredictedPrice" (objectOfRow date price rmse mse others) = Some price
  /\ property "RMSE" (objectOfRow date price rmse mse others) = Some rmse
  /\ property "MSE" (objectOfRow date price rmse mse others) = Some mse.
Proof. unfold objectOfRow. rewrite !property_app. repeat split; reflexivity. Qed.

Lemma cleaned_lines data :
  map (fun o => join "," (map (fun c => safe (property c o))
                              ["Date"; "PredictedPrice"; "RMSE"; "MSE"]))
      (map (fun row =>
              objectOfRow (trim (Forecast.Date row))
                          (toFixed (Forecast.PredictedPrice row) 2)
                          (toFixed (Forecast.RMSE row) 2)
                          (toFixed (Forecast.MSE row) 2)
                          (Forecast.others row))
           data)
  = map csvLine data.
Proof.
  rewrite map_map. apply map_ext. intros row. cbn [map]. unfold csvLine.
  destruct (property_objectOfRow (trim (Forecast.Date row))
              (toFixed (Forecast.PredictedPrice row) 2)
              (toFixed (Forecast.RMSE row) 2) (toFixed (Forecast.MSE row) 2)
              (Forecast.others row)) as [-> [-> [-> ->]]].
  reflexivity.
Qed.

(** C9, as stated, on a row whose RMSE and MSE are NaN (the metrics of a
    single-row input): the two fields are written as "NaN", without decimal
    places. *)
Lemma saveToCSV_NaN_metrics :
  let row := {| Forecast.Date := "2024-04-01"; Forecast.PredictedPrice := 0;
                Forecast.RMSE := nan; Forecast.MSE := nan; Forecast.others := [] |} in
  saveToCSV "tcs_result.csv" [row] (fun _ => None) "tcs_result.csv"
  = Some ("Date,PredictedPrice,RMSE,MSE" ++ newline ++ "2024-04-01,0.00,NaN,NaN")%string
  /\ toFixed (Forecast.RMSE row) 2 = "NaN"
  /\ twoDecimalPlaces (toFixed (Forecast.RMSE row) 2) = false.
Proof. vm_compute. repeat split; reflexivity. Qed.

(** * Further properties of the code *)
(** ** formatDateToISO on any day and year field *)

Lemma YearFromDay_bounds d :
  DayFromYear (YearFromDay d) <= d < DayFromYear (YearFromDay d + 1).
Proof.
  unfold YearFromDay.
  destruct (Z.ltb_spec d (DayFromYear (1970 + 400 * d / 146097))) as [L|L].
  - replace (1970 + 400 * d / 146097 - 1 + 1) with (1970 + 400 * d / 146097) by lia.
    split; [|exact L]. revert L. unfold DayFromYear. Z.div_mod_to_equations. lia.
  - destruct (Z.leb_spec (DayFromYear (1970 + 400 * d / 146097 + 1)) d) as [G|G].
    + split; [exact G|]. revert L G. unfold DayFromYear. Z.div_mod_to_equations. lia.
    + split; [exact L | exact G].
Qed.

Lemma DayWithinYear_range d :
  0 <= DayWithinYear d < DaysInYear (YearFromDay d).
Proof.
  pose proof (YearFromDay_bounds d) as B. rewrite DayFromYear_succ in B.
  unfold DayWithinYear. lia.
Qed.

Lemma DateFromDay_range d : 1 <= DateFromDay d <= 31.
Proof.
  pose proof (DayWithinYear_range d) as B.
  unfold DateFromDay, MonthFromDay, DaysInYear in *.
  set (k := DayWithinYear d) in *.
  destruct (InLeapYear (YearFromDay d)); unfold monthOfYearDay, monthStart;
    cbn [Z.add Pos.add Pos.succ];
    repeat match goal with
           | |- context [?a <? ?b] => destruct (Z.ltb_spec a b)
           end; lia.
Qed.

Lemma MonthFromDay_range d : 0 <= MonthFromDay d <= 11.
Proof. apply monthOfYearDay_range. Qed.

Lemma DayFromYear_monotone y1 y2 : y1 <= y2 -> DayFromYear y1 <= DayFromYear y2.
Proof. intros H. unfold DayFromYear. Z.div_mod_to_equations. lia. Qed.

Lemma YearFromDay_between d lo hi :
  DayFromYear lo <= d < DayFromYear (hi + 1) -> lo <= YearFromDay d <= hi.
Proof.
  intros [L H]. pose proof (YearFromDay_bounds d) as [B1 B2].
  split.
  - destruct (Z_le_gt_dec lo (YearFromDay d)) as [?|G]; [assumption|].
    pose proof (DayFromYear_monotone (YearFromDay d + 1) lo ltac:(lia)). lia.
  - destruct (Z_le_gt_dec (YearFromDay d) hi) as [?|G]; [assumption|].
    pose proof (DayFromYear_monotone (hi + 1) (YearFromDay d) ltac:(lia)). lia.
Qed.

Lemma MakeFullYear_range y : 0 <= y <= 9999 -> 100 <= MakeFullYear y <= 9999.
Proof.
  intros H. unfold MakeFullYear.
  destruct (Z.leb_spec 0 y), (Z.leb_spec y 99); cbn [andb]; lia.
Qed.

Lemma MakeDay_first y m d :
  0 <= m <= 11 -> MakeDay y m d = MakeDay y m 1 + (d - 1).
Proof. intros Hm. unfold MakeDay. lia. Qed.

Lemma MakeDay_bounds y m d :
  0 <= m <= 11 -> 0 <= d <= 99 ->
  DayFromYear y - 1 <= MakeDay y m d < DayFromYear y + 434.
Proof.
  intros Hm Hd. unfold MakeDay.
  rewrite (Z.div_small m 12), (Z.mod_small m 12), Z.add_0_r by lia.
  destruct (InLeapYear y); month_cases m Hm; cbn [monthStart]; lia.
Qed.

(** The text that [formatDateToISO] returns for two digits, a month
    abbreviation and four digits: the fields, in local time, of the day
    that [new Date(year, month, day)] stands for. *)
Lemma formatDateToISO_fields LocalTZA y m d :
  (- msPerDay) < LocalTZA < msPerDay ->
  0 <= y <= 9999 -> 0 <= m <= 11 -> 0 <= d <= 99 ->
  formatDateToISO LocalTZA
    (fixedWidth 2 d ++ "-" ++ monthAbbreviation m ++ "-" ++ fixedWidth 4 y)
  = (decimalOfZ (YearFromDay (MakeDay (MakeFullYear y) m d)) ++ "-"
     ++ fixedWidth 2 (MonthFromDay (MakeDay (MakeFullYear y) m d) + 1) ++ "-"
     ++ fixedWidth 2 (DateFromDay (MakeDay (MakeFullYear y) m d)))%string.
Proof.
  intros Hz Hy Hm Hd.
  pose proof (getMonth_of_month_text LocalTZA m Hz Hm) as Hmonth.
  unfold formatDateToISO. rewrite split_date_text.
  cbn [element nth_error ToString]. rewrite Hmonth.
  unfold newDate.
  rewrite ToNumber_fixedWidth4, ToNumber_fixedWidth2 by lia.
  pose proof (MakeFullYear_range y Hy) as HY.
  set (Y := MakeFullYear y) in *.
  pose proof (MakeDay_bounds Y m d Hm Hd) as B.
  assert (BY : -684000 <= DayFromYear Y <= 2932532).
  { unfold DayFromYear. Z.div_mod_to_equations. lia. }
  rewrite TimeClip_valid
    by (unfold UTC, MakeDate, maxTime, msPerDay in *; lia).
  unfold getFullYear, getMonth, getDate, plus, YearFromTime, MonthFromTime, DateFromTime.
  cbn [option_map].
  rewrite Local_UTC, Day_MakeDate.
  unfold String_.
  pose proof (MonthFromDay_range (MakeDay Y m d)).
  pose proof (DateFromDay_range (MakeDay Y m d)).
  rewrite !padStart_two_digits by lia.
  reflexivity.
Qed.

Lemma isoYear_four_digits y : 0 <= y <= 9999 -> isoYear y = fixedWidth 4 y.
Proof.
  intros H. unfold isoYear.
  destruct (Z.leb_spec 0 y), (Z.leb_spec y 9999); cbn [andb]; try lia. reflexivity.
Qed.

Lemma DayFromYear_two_years y : DayFromYear y + 730 <= DayFromYear (y + 2).
Proof. unfold DayFromYear. Z.div_mod_to_equations. lia. Qed.





(** ** Rows that prepareData rejects *)

Lemma prepareData_rejects LocalTZA data row :
  In row data ->
  isNaN (parsedDate LocalTZA row) = true \/ isNaN (parsedPrice row) = true ->
  prepareData LocalTZA data = Throws (Error "Data contains NaN values").
Proof.
  intros Hin H. unfold prepareData.
  assert (E : existsb isNaN (map (parsedDate LocalTZA) data)
              || existsb isNaN (map parsedPrice data) = true).
  { apply orb_true_iff. destruct H as [H|H]; [left | right];
      apply existsb_isNaN_map; exists row; auto. }
  rewrite E. reflexivity.
Qed.

(** X3.  A Date cell with fewer than three fields between dashes (the empty
    cell among them) is not an exception: [formatDateToISO] returns the text
    "NaN-NaN-NaN", the timestamp parsed from it is NaN, and [prepareData]
    throws its error for any table that holds such a row. *)
Theorem prepareData_rejects_short_date LocalTZA data row :
  In row data ->
  (List.length (split "-" (Raw.Date row)) < 3)%nat ->
  formatDateToISO LocalTZA (Raw.Date row) = "NaN-NaN-NaN"
  /\ isNaN (parsedDate LocalTZA row) = true
  /\ prepareData LocalTZA data = Throws (Error "Data contains NaN values").
Proof.
  intros Hin Hlen.
  assert (F : formatDateToISO LocalTZA (Raw.Date row) = "NaN-NaN-NaN").
  { unfold formatDateToISO.
    assert (Y : element (split "-" (Raw.Date row)) 2 = None)
      by (apply nth_error_None; lia).
    rewrite Y. unfold newDate. cbn [ToNumber].
    change (finiteInteger nan) with (@None Z). reflexivity. }
  assert (N : isNaN (parsedDate LocalTZA row) = true).
  { unfold parsedDate. rewrite F. reflexivity. }
  split; [exact F|]. split; [exact N|].
  apply (prepareData_rejects LocalTZA data row Hin). left. exact N.
Qed.

Lemma prepareData_rejects_short_date_witness :
  let row := {| Raw.Date := "Apr-2024"; Raw.close := "3,883.85" |} in
  let good := {| Raw.Date := "01-Apr-2024"; Raw.close := "3,900.00" |} in
  formatDateToISO 19800000 (Raw.Date row) = "NaN-NaN-NaN"
  /\ isNaN (parsedDate 19800000 row) = true
  /\ prepareData 19800000 [good; row] = Throws (Error "Data contains NaN values").
Proof.
  apply (prepareData_rejects_short_date 19800000
           [ {| Raw.Date := "01-Apr-2024"; Raw.close := "3,900.00" |};
             {| Raw.Date := "Apr-2024"; Raw.close := "3,883.85" |} ]
           {| Raw.Date := "Apr-2024"; Raw.close := "3,883.85" |}).
  - right. left. reflexivity.
  - vm_compute. lia.
Defined.
(** ** getNext30Weekdays: the local weekday against the UTC date *)

Lemma entry_day t i : entry t i = isoDateOfDay (Day t + i).
Proof.
  unfold entry, Day. now rewrite Z.div_add by (unfold msPerDay; lia).
Qed.

Lemma WeekDayOfDay_shift d i :
  WeekDayOfDay (d + i) = (WeekDayOfDay (d - 1) + 1 + i) mod 7.
Proof.
  unfold WeekDayOfDay.
  replace (d + i + 4) with ((d - 1 + 4) + (1 + i)) by lia.
  replace ((d - 1 + 4) mod 7 + 1 + i) with ((d - 1 + 4) mod 7 + (1 + i)) by lia.
  now rewrite Zplus_mod_idemp_l.
Qed.

(** *** On a host whose offset changes with the time

    While the offset stays the same, from the start date through the
    forty-two days after it, the loop goes as on a host of that one
    offset. *)

Section ConstantOffset.

Variable offsetAt : Z -> Z.
Variable offsetOf : Z -> Z.
Variable c : Z.
Variable t : Z.

Hypothesis offsetAt_constant :
  forall u, t <= u <= t + 42 * msPerDay -> offsetAt u = c.
Hypothesis offsetOf_constant :
  forall l, t + c <= l <= t + c + 42 * msPerDay -> offsetOf l = c.

Lemma Zoned_loopBody weekdays i :
  0 <= i <= 41 ->
  Zoned.loopBody offsetAt offsetOf weekdays (Some (t + i * msPerDay))
  = loopBody c weekdays (Some (t + i * msPerDay)).
Proof.
  intros Hi. set (u := t + i * msPerDay).
  assert (A : offsetAt u = c)
    by (apply offsetAt_constant; unfold u, msPerDay; lia).
  unfold Zoned.loopBody, loopBody.
  assert (G : Zoned.getDay offsetAt (Some u) = getDay c (Some u)).
  { unfold Zoned.getDay, getDay, Zoned.LocalTime, LocalTime. cbn [option_map].
    now rewrite A. }
  assert (D : Zoned.getDate offsetAt (Some u) = getDate c (Some u)).
  { unfold Zoned.getDate, getDate, Zoned.LocalTime, LocalTime. cbn [option_map].
    now rewrite A. }
  assert (S : Zoned.setDate offsetAt offsetOf (Some u) (plus (getDate c (Some u)) 1)
              = setDate c (Some u) (plus (getDate c (Some u)) 1)).
  { unfold Zoned.setDate, setDate, getDate, plus, option_map.
    unfold Zoned.LocalTime, LocalTime. rewrite A.
    unfold YearFromTime, MonthFromTime, DateFromTime.
    rewrite MakeDay_successor.
    assert (L : MakeDate (Day (u + c) + 1) (TimeWithinDay (u + c)) = u + c + msPerDay).
    { unfold MakeDate, TimeWithinDay, Day.
      pose proof (Z.div_mod (u + c) msPerDay) as E. unfold msPerDay in *. lia. }
    rewrite L. unfold Zoned.UTC, UTC.
    rewrite offsetOf_constant by (unfold u, msPerDay; lia). reflexivity. }
  rewrite G, D, S. reflexivity.
Qed.

Lemma Zoned_whileLoop fuel :
  forall weekdays i,
    0 <= i -> i + Z.of_nat fuel <= 42 ->
    Zoned.whileLoop offsetAt offsetOf fuel weekdays (TimeClip (t + i * msPerDay))
    = whileLoop c fuel weekdays (TimeClip (t + i * msPerDay)).
Proof.
  induction fuel as [|fuel IH]; intros weekdays i Hi Hfuel; [reflexivity|].
  cbn [Zoned.whileLoop whileLoop].
  destruct (_ <? _)%nat; [|reflexivity].
  unfold TimeClip.
  destruct (Z.abs (t + i * msPerDay) <=? maxTime); [|reflexivity].
  rewrite Zoned_loopBody by lia.
  rewrite loopBody_valid.
  replace (t + i * msPerDay + msPerDay) with (t + (i + 1) * msPerDay) by lia.
  apply IH; lia.
Qed.

Lemma Zoned_getNext30Weekdays :
  (- maxTime) <= t <= maxTime ->
  Zoned.getNext30Weekdays offsetAt offsetOf 42 (Some t) = getNext30Weekdays c 42 (Some t).
Proof.
  intros Ht. unfold Zoned.getNext30Weekdays, getNext30Weekdays.
  pose proof (Zoned_whileLoop 42 [] 0 ltac:(lia) ltac:(lia)) as H.
  rewrite Z.mul_0_l, Z.add_0_r, TimeClip_valid in H by exact Ht.
  exact H.
Qed.

End ConstantOffset.

(** X4.  On a host whose offset from UTC stays the same from the start date
    through the forty-two days after it (no change of the clocks in that
    time), when the start date falls on the same calendar day in local time
    and in UTC, the function returns the dates of the first thirty weekdays
    from the day of the start date on: the offsets increase, each falls on
    a weekday, and every day passed over is a Saturday or a Sunday. *)
Theorem getNext30Weekdays_same_day offsetAt offsetOf c t :
  (- maxTime) <= t -> t + 41 * msPerDay <= maxTime ->
  (forall u, t <= u <= t + 42 * msPerDay -> offsetAt u = c) ->
  (forall l, t + c <= l <= t + c + 42 * msPerDay -> offsetOf l = c) ->
  Day (t + c) = Day t ->
  exists offsets,
    Zoned.getNext30Weekdays offsetAt offsetOf 42 (Some t)
    = Some (Returns (map (fun i => isoDateOfDay (Day t + i)) offsets))
    /\ List.length offsets = 30%nat
    /\ weekdaysInOrder (WeekDayOfDay (Day t)) 0 offsets = true.
Proof.
  intros Hlo Hhi HA HO Hday.
  exists (first30Weekdays (WeekDayOfDay (Day t))).
  assert (W : 0 <= WeekDayOfDay (Day t) < 7)
    by (unfold WeekDayOfDay; apply Z.mod_pos_bound; lia).
  split; [|apply first30Weekdays_in_order, W].
  rewrite (Zoned_getNext30Weekdays offsetAt offsetOf c t HA HO)
    by (unfold msPerDay in *; lia).
  rewrite (getNext30Weekdays_in_range c t Hlo Hhi).
  unfold WeekDay, LocalTime. rewrite Hday. do 2 f_equal.
  apply map_ext, entry_day.
Qed.

Lemma getNext30Weekdays_same_day_witness :
  exists offsets,
    Zoned.getNext30Weekdays offsetAtLondon offsetOfLondon 42 (Some 1711929600000)
    = Some (Returns (map (fun i => isoDateOfDay (Day 1711929600000 + i)) offsets))
    /\ List.length offsets = 30%nat
    /\ weekdaysInOrder (WeekDayOfDay (Day 1711929600000)) 0 offsets = true.
Proof.
  apply (getNext30Weekdays_same_day offsetAtLondon offsetOfLondon 3600000 1711929600000).
  - unfold maxTime. lia.
  - unfold maxTime, msPerDay. lia.
  - intros u Hu. unfold offsetAtLondon, msPerDay in *.
    destruct (Z.leb_spec 1711846800000 u), (Z.ltb_spec u 1729990800000);
      try reflexivity; lia.
  - intros l Hl. unfold offsetOfLondon, msPerDay in *.
    destruct (Z.leb_spec 1711850400000 l), (Z.ltb_spec l 1729994400000);
      try reflexivity; lia.
  - reflexivity.
Defined.

(** X5.  On a host whose offset from UTC stays the same from the start date
    through the forty-two days after it, when the start date falls, in
    local time, on the calendar day before its UTC day (a host west of UTC,
    for the midnight UTC that [main] passes), the weekday tested is that of
    the day before the date pushed: the thirty dates returned are all
    Tuesdays to Saturdays, six of them Saturdays, and no Monday is among
    them. *)
Theorem getNext30Weekdays_day_behind offsetAt offsetOf c t :
  (- maxTime) <= t -> t + 41 * msPerDay <= maxTime ->
  (forall u, t <= u <= t + 42 * msPerDay -> offsetAt u = c) ->
  (forall l, t + c <= l <= t + c + 42 * msPerDay -> offsetOf l = c) ->
  Day (t + c) = Day t - 1 ->
  exists offsets,
    Zoned.getNext30Weekdays offsetAt offsetOf 42 (Some t)
    = Some (Returns (map (fun i => isoDateOfDay (Day t + i)) offsets))
    /\ List.length offsets = 30%nat
    /\ Forall (fun i => 2 <= WeekDayOfDay (Day t + i) <= 6) offsets
    /\ List.length (filter (fun i => WeekDayOfDay (Day t + i) =? 6) offsets) = 6%nat.
Proof.
  intros Hlo Hhi HA HO Hday.
  set (w := WeekDayOfDay (Day t - 1)).
  assert (W : 0 <= w < 7) by (unfold w, WeekDayOfDay; apply Z.mod_pos_bound; lia).
  exists (first30Weekdays w).
  assert (H : forallRange 7 0 (fun w =>
                (List.length (first30Weekdays w) =? 30)%nat
                && forallb (fun i => (2 <=? (w + 1 + i) mod 7) && ((w + 1 + i) mod 7 <=? 6))
                           (first30Weekdays w)
                && Nat.eqb (List.length (filter (fun i => (w + 1 + i) mod 7 =? 6)
                                                (first30Weekdays w))) 6) = true)
    by (vm_compute; reflexivity).
  pose proof (forallRange_spec _ _ _ H w ltac:(lia)) as E. cbv beta in E.
  apply andb_prop in E as [E S]. apply andb_prop in E as [L F].
  apply Nat.eqb_eq in L, S.
  split; [|split; [exact L | split]].
  - rewrite (Zoned_getNext30Weekdays offsetAt offsetOf c t HA HO)
      by (unfold msPerDay in *; lia).
    rewrite (getNext30Weekdays_in_range c t Hlo Hhi).
    unfold WeekDay, LocalTime. rewrite Hday. fold w. do 2 f_equal.
    apply map_ext, entry_day.
  - apply Forall_forall. intros i Hi.
    rewrite forallb_forall in F. specialize (F i Hi).
    apply andb_prop in F as [F1 F2]. apply Z.leb_le in F1, F2.
    rewrite WeekDayOfDay_shift. fold w. lia.
  - rewrite <- S. f_equal. apply filter_ext. intros i.
    rewrite WeekDayOfDay_shift. reflexivity.
Qed.

Lemma getNext30Weekdays_day_behind_witness :
  exists offsets,
    Zoned.getNext30Weekdays offsetAtNewYork offsetOfNewYork 42 (Some 1711929600000)
    = Some (Returns (map (fun i => isoDateOfDay (Day 1711929600000 + i)) offsets))
    /\ List.length offsets = 30%nat
    /\ Forall (fun i => 2 <= WeekDayOfDay (Day 1711929600000 + i) <= 6) offsets
    /\ List.length (filter (fun i => WeekDayOfDay (Day 1711929600000 + i) =? 6) offsets)
       = 6%nat.
Proof.
  apply (getNext30Weekdays_day_behind offsetAtNewYork offsetOfNewYork
           (-14400000) 1711929600000).
  - unfold maxTime. lia.
  - unfold maxTime, msPerDay. lia.
  - intros u Hu. unfold offsetAtNewYork, msPerDay in *.
    destruct (Z.leb_spec 1710054000000 u), (Z.ltb_spec u 1730613600000);
      try reflexivity; lia.
  - intros l Hl. unfold offsetOfNewYork, msPerDay in *.
    destruct (Z.leb_spec 1710039600000 l), (Z.ltb_spec l 1730599200000);
      try reflexivity; lia.
  - reflexivity.
Defined.

(** Across a change of the clocks the loop goes otherwise.  In New York,
    from midnight UTC of 1 March 2024, the dates are pushed one hour before
    midnight UTC once the clocks have changed, and Monday 11 March is among
    those returned; in London, Sunday 31 March is. *)
Lemma getNext30Weekdays_across_clock_change :
  (exists weekdays,
     Zoned.getNext30Weekdays offsetAtNewYork offsetOfNewYork 42 (Some 1709251200000)
     = Some (Returns weekdays)
     /\ In "2024-03-11" weekdays /\ WeekDayOfDay (Day 1710115200000) = 1)
  /\ (exists weekdays,
        Zoned.getNext30Weekdays offsetAtLondon offsetOfLondon 42 (Some 1709251200000)
        = Some (Returns weekdays)
        /\ In "2024-03-31" weekdays /\ WeekDayOfDay (Day 1711843200000) = 0).
Proof.
  split; eexists; (split; [vm_compute; reflexivity|]);
    (split; [|reflexivity]); cbn [In]; tauto.
Qed.

(** ** getNext30Weekdays: when it returns and when it throws *)

Lemma scan_outcome w v :
  0 <= w < 7 -> 1 <= v <= 42 ->
  39 <= last (first30Weekdays w) 0 <= 41
  /\ scan w v 42 [] 0
     = Some (if last (first30Weekdays w) 0 <? v
             then Collected (first30Weekdays w) else OutOfRange).
Proof.
  intros Hw Hv.
  assert (H : forallRange 7 0 (fun w =>
                (39 <=? last (first30Weekdays w) 0)
                && (last (first30Weekdays w) 0 <=? 41)
                && forallRange 42 1 (fun v =>
                     match scan w v 42 [] 0 with
                     | Some (Collected l) =>
                         (last (first30Weekdays w) 0 <? v) && eqbZs l (first30Weekdays w)
                     | Some OutOfRange => negb (last (first30Weekdays w) 0 <? v)
                     | None => false
                     end)) = true)
    by (vm_compute; reflexivity).
  pose proof (forallRange_spec _ _ _ H w ltac:(lia)) as E. cbv beta in E.
  apply andb_prop in E as [E S]. apply andb_prop in E as [L1 L2].
  apply Z.leb_le in L1, L2. split; [lia|].
  pose proof (forallRange_spec _ _ _ S v ltac:(lia)) as Ev. cbv beta in Ev.
  destruct (scan w v 42 [] 0) as [[l|]|]; [| |discriminate Ev].
  - apply andb_prop in Ev as [A B]. rewrite A. apply eqbZs_eq in B. now subst.
  - apply negb_true_iff in Ev. now rewrite Ev.
Qed.



(** ** Numbers: the shape of a rounded result *)

(** Rounding never gives NaN and keeps the sign; its result is in canonical
    form, and it is not a zero when the exponent is above the least one. *)
Lemma binary_round_aux_shape sx mx ex lx :
  0 <= mx -> ex <= fexp prec emax (Zdigits2 mx + ex) ->
  valid_binary (binary_round_aux prec emax sx mx ex lx) = true
  /\ (binary_round_aux prec emax sx mx ex lx = S754_zero sx
      \/ (exists m e, binary_round_aux prec emax sx mx ex lx = S754_finite sx m e)
      \/ binary_round_aux prec emax sx mx ex lx = S754_infinity sx)
  /\ (-1074 < fexp prec emax (Zdigits2 mx + ex) ->
      binary_round_aux prec emax sx mx ex lx <> S754_zero sx).
Proof.
  intros Hmx HE. set (E := fexp prec emax (Zdigits2 mx + ex)) in *.
  destruct (shr_fexp_spec mx ex lx Hmx HE) as (S1 & S2 & _). fold E in S1, S2.
  set (k := E - ex) in *.
  assert (Hk : 0 <= k) by (unfold k; lia).
  set (m' := mx / 2 ^ k) in *.
  assert (P2 : 0 < 2 ^ k) by (apply Z.pow_pos_nonneg; lia).
  assert (Hm'0 : 0 <= m') by (apply Z.div_pos; lia).
  assert (HE0 : -1074 <= E) by (unfold E; rewrite fexp_spec; lia).
  assert (Hm'53 : m' < 2 ^ 53).
  { destruct (Z.eq_dec mx 0) as [Z0|NZ].
    - unfold m'. rewrite Z0, Z.div_0_l by lia. reflexivity.
    - pose proof (Zdigits2_bounds mx ltac:(lia)) as B.
      assert (Zdigits2 mx <= k + 53) by (unfold k, E; rewrite fexp_spec; lia).
      assert (0 < Zdigits2 mx).
      { destruct mx; try lia. rewrite Zdigits2_pos. lia. }
      assert (2 ^ Zdigits2 mx <= 2 ^ (k + 53)) by (apply Z.pow_le_mono_r; lia).
      rewrite Z.pow_add_r in H1 by lia.
      apply Z.div_lt_upper_bound; lia. }
  assert (Hnorm : -1074 < E -> 2 ^ 52 <= m').
  { intros H.
    assert (EQ : E = Zdigits2 mx + ex - 53) by (unfold E in *; rewrite fexp_spec in *; lia).
    assert (NZ : 0 < mx).
    { destruct (Z.eq_dec mx 0) as [Z0|NZ]; [|lia].
      rewrite Z0 in EQ. change (Zdigits2 0) with 0 in EQ. lia. }
    pose proof (Zdigits2_bounds mx NZ) as B.
    assert (KQ : Zdigits2 mx - 1 = 52 + k) by (unfold k; lia).
    rewrite KQ, Z.pow_add_r in B by lia.
    unfold m'. apply Z.div_le_lower_bound; lia. }
  set (mrs' := fst (shr_fexp prec emax mx ex lx)) in *.
  set (m'' := round_nearest_even (shr_m mrs') (loc_of_shr_record mrs')).
  assert (R : m'' = m' \/ m'' = m' + 1).
  { unfold m''. rewrite <- S1. apply round_nearest_even_cases. }
  unfold binary_round_aux.
  destruct (shr_fexp prec emax mx ex lx) as [mrs1 e1] eqn:Q1.
  cbn [fst snd] in S2, mrs'. subst e1.
  change (round_nearest_even (shr_m mrs1) (loc_of_shr_record mrs1)) with m''.
  destruct (Z.eq_dec m'' 0) as [Z0|NZ].
  - rewrite Z0.
    assert (F0 : shr_fexp prec emax 0 E loc_Exact = (shr_record_of_loc 0 loc_Exact, E)).
    { unfold shr_fexp. apply shr_nonpos. rewrite fexp_spec.
      change (Zdigits2 0) with 0. lia. }
    rewrite F0. cbn. split; [reflexivity|]. split; [left; reflexivity|].
    intros H. specialize (Hnorm H). lia.
  - destruct (shr_fexp_canonical m'' E) as (mf & ef & mrs2 & Q2 & M2 & V2 & C2 & O2).
    { lia. } { exact HE0. } { intros H. specialize (Hnorm H). lia. }
    rewrite Q2, M2. change (emax - prec) with 971.
    destruct (Z.leb_spec ef 971) as [L|L].
    + split; [|split; [right; left; eauto | discriminate]].
      cbn [SpecFloat.valid_binary]. unfold bounded. rewrite C2.
      apply andb_true_iff; split; [reflexivity|]. apply Z.leb_le. exact L.
    + split; [reflexivity|]. split; [right; right; reflexivity | discriminate].
Qed.

Lemma binary_round_shape s m e :
  valid_binary (binary_round prec emax s m e) = true
  /\ (binary_round prec emax s m e = S754_zero s
      \/ (exists m' e', binary_round prec emax s m e = S754_finite s m' e')
      \/ binary_round prec emax s m e = S754_infinity s)
  /\ (-1074 < fexp prec emax (Zpos (digits2_pos m) + e) ->
      binary_round prec emax s m e <> S754_zero s).
Proof.
  unfold binary_round.
  set (E := fexp prec emax (Zpos (digits2_pos m) + e)).
  destruct (shl_align_spec m e E) as [(L & m' & -> & Q) | (L & ->)].
  - assert (D : Zdigits2 (Zpos m') + E = Zpos (digits2_pos m) + e).
    { rewrite Q, Zdigits2_shift by lia. rewrite Zdigits2_pos. lia. }
    destruct (binary_round_aux_shape s (Zpos m') E loc_Exact) as (V & S & N).
    + lia.
    + rewrite D. fold E. lia.
    + rewrite D in N. fold E in N. auto.
  - destruct (binary_round_aux_shape s (Zpos m) e loc_Exact) as (V & S & N).
    + lia.
    + rewrite Zdigits2_pos. fold E. exact L.
    + rewrite Zdigits2_pos in N. fold E in N. auto.
Qed.

(** The Number of a positive integer is positive: finite or Infinity. *)
Lemma Prim2SF_numberOfZ_pos p :
  (exists m e, Prim2SF (numberOfZ (Zpos p)) = S754_finite false m e)
  \/ Prim2SF (numberOfZ (Zpos p)) = S754_infinity false.
Proof.
  unfold numberOfZ. cbn [binary_normalize].
  destruct (binary_round_shape false p 0) as (V & S & N).
  rewrite Prim2SF_SF2Prim by exact V.
  destruct S as [S|[S|S]]; [|left; exact S | right; exact S].
  exfalso. apply N; [|exact S].
  rewrite fexp_spec. pose proof (Pos2Z.is_pos (digits2_pos p)). lia.
Qed.

Lemma Prim2SF_numberOfZ_zero : Prim2SF (numberOfZ 0) = S754_zero false.
Proof. reflexivity. Qed.

(** ** calculateErrorMetrics: signs, missing predictions, a perfect fit *)

Lemma binary_round_aux_not_negative m e l :
  SFltb (binary_round_aux prec emax false m e l) (S754_zero false) = false.
Proof.
  unfold binary_round_aux.
  destruct (shr_fexp prec emax m e l) as [mrs1 e1].
  destruct (shr_fexp prec emax (round_nearest_even (shr_m mrs1) (loc_of_shr_record mrs1))
              e1 loc_Exact) as [mrs2 e2].
  destruct (shr_m mrs2); [reflexivity | | reflexivity].
  destruct (e2 <=? emax - prec); reflexivity.
Qed.

Lemma SFmul_square_not_negative x :
  SFltb (SF64mul x x) (S754_zero false) = false.
Proof.
  unfold SF64mul. destruct x as [[]|[]| |s m e]; try reflexivity.
  cbn [SFmul]. rewrite xorb_nilpotent. apply binary_round_aux_not_negative.
Qed.

Lemma SFadd_not_negative x y :
  SFltb x (S754_zero false) = false -> SFltb y (S754_zero false) = false ->
  SFltb (SF64add x y) (S754_zero false) = false.
Proof.
  unfold SF64add.
  destruct x as [[]|[]| |[] mx ex]; try discriminate;
    destruct y as [[]|[]| |[] my ey]; try discriminate; try reflexivity.
  intros _ _. cbn [SFadd cond_Zopp]. cbn [Z.add binary_normalize].
  unfold binary_round. destruct (shl_align _ _ _) as [mz ez].
  apply binary_round_aux_not_negative.
Qed.

Lemma SFdiv_not_negative x y :
  SFltb x (S754_zero false) = false ->
  match y with
  | S754_zero false | S754_finite false _ _ | S754_infinity false => True
  | _ => False
  end ->
  SFltb (SF64div x y) (S754_zero false) = false.
Proof.
  unfold SF64div.
  destruct x as [[]|[]| |[] mx ex]; try discriminate;
    destruct y as [[]|[]| |[] my ey]; try contradiction; try reflexivity.
  intros _ _. cbn [SFdiv xorb].
  destruct (SFdiv_core_binary _ _ _ _ _ _) as [[mz ez] lz].
  apply binary_round_aux_not_negative.
Qed.

Lemma SFsqrt_not_negative x : SFltb (SF64sqrt x) (S754_zero false) = false.
Proof.
  unfold SF64sqrt. destruct x as [[]|[]| |[] m e]; try reflexivity.
  cbn [SFsqrt]. destruct (SFsqrt_core_binary _ _ _ _) as [[mz ez] lz].
  apply binary_round_aux_not_negative.
Qed.

Lemma numberOfZ_of_nat (n : nat) :
  match Prim2SF (numberOfZ (Z.of_nat n)) with
  | S754_zero false | S754_finite false _ _ | S754_infinity false => True
  | _ => False
  end.
Proof.
  destruct n as [|n]; [exact I|].
  rewrite Nat2Z.inj_succ, <- Z.add_1_r.
  destruct (Z.of_nat n + 1) as [|p|p] eqn:Q; try lia.
  destruct (Prim2SF_numberOfZ_pos p) as [(m & e & ->) | ->]; exact I.
Qed.

Lemma sum_of_squares_not_negative (f : nat -> float) (a : list float) :
  forall index acc,
    (acc <? 0)%float = false ->
    (reduceFrom (fun sum actual index =>
                   let error := (actual - f index)%float in
                   (sum + error * error)%float) index acc a <? 0)%float = false.
Proof.
  induction a as [|x a IH]; intros index acc H; cbn [reduceFrom]; [exact H|].
  apply IH. cbv zeta.
  rewrite FloatAxioms.ltb_spec, add_spec, mul_spec in *.
  apply SFadd_not_negative; [exact H | apply SFmul_square_not_negative].
Qed.

(** X7.  Whatever the two arrays hold, neither metric is ever negative:
    [mse] and [rmse] are NaN or at least zero. *)
Theorem calculateErrorMetrics_never_negative (a p : list float) :
  (mse (calculateErrorMetrics a p) <? 0)%float = false
  /\ (rmse (calculateErrorMetrics a p) <? 0)%float = false.
Proof.
  unfold calculateErrorMetrics. cbn [mse rmse]. split.
  - pose proof (sum_of_squares_not_negative (numberAt p) a 0 zero eq_refl) as S.
    rewrite FloatAxioms.ltb_spec in S.
    rewrite FloatAxioms.ltb_spec, div_spec.
    apply SFdiv_not_negative; [exact S | apply numberOfZ_of_nat].
  - rewrite FloatAxioms.ltb_spec, sqrt_spec. apply SFsqrt_not_negative.
Qed.

Lemma add_nan_l x : (nan + x)%float = nan.
Proof. apply Prim2SF_inj. rewrite add_spec. reflexivity. Qed.

Lemma square_of_nan_difference x : ((x - nan) * (x - nan))%float = nan.
Proof.
  apply Prim2SF_inj. rewrite mul_spec, sub_spec.
  change (Prim2SF nan) with S754_nan.
  destruct (Prim2SF x) as [[]|[]| |[] m e]; reflexivity.
Qed.

Lemma add_nan_r x : (x + nan)%float = nan.
Proof.
  apply Prim2SF_inj. rewrite add_spec. change (Prim2SF nan) with S754_nan.
  destruct (Prim2SF x) as [[]|[]| |[] m e]; reflexivity.
Qed.

Lemma div_nan_l x : (nan / x)%float = nan.
Proof. apply Prim2SF_inj. rewrite div_spec. reflexivity. Qed.

Lemma sum_from_nan (f : nat -> float) (a : list float) : forall index,
  reduceFrom (fun sum actual index =>
                (sum + (actual - f index) * (actual - f index))%float) index nan a
  = nan.
Proof.
  induction a as [|x a IH]; intros index; cbn [reduceFrom]; [reflexivity|].
  rewrite add_nan_l. apply IH.
Qed.

Lemma sum_past_the_end (p : list float) (a : list float) : forall index acc,
  a <> [] -> (List.length p < index + List.length a)%nat ->
  reduceFrom (fun sum actual index =>
                (sum + (actual - numberAt p index) * (actual - numberAt p index))%float)
             index acc a
  = nan.
Proof.
  induction a as [|x a IH]; intros index acc N H; [congruence|].
  cbn [reduceFrom List.length] in *.
  destruct (Nat.le_gt_cases (List.length p) index) as [L|L].
  - assert (E : numberAt p index = nan) by (unfold numberAt; apply nth_overflow, L).
    rewrite E, square_of_nan_difference, add_nan_r. apply sum_from_nan.
  - apply IH; [|lia]. destruct a; [cbn [List.length] in H; lia | discriminate].
Qed.

Lemma sqrt_nan : PrimFloat.sqrt nan = nan.
Proof. reflexivity. Qed.

(** X8.  A prediction that is missing makes both metrics NaN: when the
    array of predictions is shorter than the array of actual prices, the
    difference at the first missing index is NaN and stays in the sum.  So
    does an empty array of actual prices, by the division of zero by zero. *)
Theorem calculateErrorMetrics_missing_prediction (a p : list float) :
  (List.length p < List.length a)%nat \/ a = [] ->
  calculateErrorMetrics a p = {| mse := nan; rmse := nan |}.
Proof.
  intros [H | ->]; [|reflexivity].
  unfold calculateErrorMetrics, reduce.
  rewrite (sum_past_the_end p a 0 zero); [|destruct a; [cbn in H; lia | discriminate] | lia].
  rewrite div_nan_l. reflexivity.
Qed.

Lemma calculateErrorMetrics_missing_prediction_witness :
  calculateErrorMetrics [100; 110.5]%float [101]%float = {| mse := nan; rmse := nan |}.
Proof.
  apply (calculateErrorMetrics_missing_prediction [100; 110.5]%float [101]%float).
  left. cbn. lia.
Defined.

Lemma reduceFrom_ext_range {A B : Type} (f g : B -> A -> nat -> B) (a : list A) :
  forall index acc,
    (forall i x s, (index <= i < index + List.length a)%nat -> f s x i = g s x i) ->
    reduceFrom f index acc a = reduceFrom g index acc a.
Proof.
  induction a as [|x a IH]; intros index acc H; cbn [reduceFrom]; [reflexivity|].
  rewrite (H index x acc) by (cbn [List.length]; lia).
  apply IH. intros i y s Hi. apply H. cbn [List.length]. lia.
Qed.

(** X9.  Only the predictions at the indices of the actual prices count:
    whatever follows them in the array of predictions changes nothing. *)
Theorem calculateErrorMetrics_ignores_surplus (a p surplus : list float) :
  (List.length a <= List.length p)%nat ->
  calculateErrorMetrics a (p ++ surplus) = calculateErrorMetrics a p.
Proof.
  intros H. unfold calculateErrorMetrics, reduce.
  rewrite (reduceFrom_ext_range
             (fun sum actual index =>
                (sum + (actual - numberAt (p ++ surplus) index)
                       * (actual - numberAt (p ++ surplus) index))%float)
             (fun sum actual index =>
                (sum + (actual - numberAt p index) * (actual - numberAt p index))%float)
             a 0 zero); [reflexivity|].
  intros i x s Hi. unfold numberAt. rewrite app_nth1 by lia. reflexivity.
Qed.

Lemma calculateErrorMetrics_ignores_surplus_witness :
  calculateErrorMetrics [100; 110.5]%float ([101; 108]%float ++ [7; 9]%float)%list
  = calculateErrorMetrics [100; 110.5]%float [101; 108]%float.
Proof.
  apply (calculateErrorMetrics_ignores_surplus [100; 110.5]%float [101; 108]%float
           [7; 9]%float).
  cbn. lia.
Defined.

Lemma sub_diag_finite x : PrimFloat.is_finite x = true -> (x - x)%float = zero.
Proof.
  intros F. apply Prim2SF_inj. rewrite sub_spec.
  pose proof (is_finite_Prim2SF x F) as S.
  destruct (SFsub_diag (Prim2SF x)) as [E|E]; [exact E|].
  exfalso. unfold SF64sub in E.
  destruct (Prim2SF x) as [[]|[]| |s m e]; try contradiction; try discriminate E.
  cbn [SFsub] in E. rewrite Z.sub_diag in E. discriminate E.
Qed.

Lemma sum_of_zero_squares (a : list float) :
  Forall (fun x => PrimFloat.is_finite x = true) a ->
  fold_left (fun sum ap => (sum + (fst ap - snd ap) * (fst ap - snd ap))%float)
            (combine a a) zero
  = zero.
Proof.
  induction 1 as [|x a Hx _ IH]; [reflexivity|].
  cbn [combine fold_left fst snd]. rewrite (sub_diag_finite x Hx).
  change (zero + zero * zero)%float with zero. exact IH.
Qed.

Lemma zero_over_count (n : nat) :
  n <> 0%nat -> (zero / numberOfZ (Z.of_nat n))%float = zero.
Proof.
  intros N. apply Prim2SF_inj. rewrite div_spec.
  destruct n as [|n]; [congruence|].
  rewrite Nat2Z.inj_succ, <- Z.add_1_r.
  destruct (Z.of_nat n + 1) as [|q|q] eqn:Q; try lia.
  destruct (Prim2SF_numberOfZ_pos q) as [(m & e & ->) | ->]; reflexivity.
Qed.

(** X10.  A prediction that equals the actual prices, all of them finite,
    has no error: both metrics are zero.  (An infinite price would give NaN,
    by the difference of an infinity with itself.) *)
Theorem calculateErrorMetrics_perfect_fit (a : list float) :
  a <> [] ->
  Forall (fun x => PrimFloat.is_finite x = true) a ->
  calculateErrorMetrics a a = {| mse := zero; rmse := zero |}.
Proof.
  intros N F. unfold calculateErrorMetrics, reduce.
  pose proof (reduceFrom_combine a a [] zero eq_refl) as E.
  cbn [app List.length] in E. rewrite E.
  rewrite (sum_of_zero_squares a F), zero_over_count.
  - reflexivity.
  - destruct a; [congruence | discriminate].
Qed.

Lemma calculateErrorMetrics_perfect_fit_witness :
  calculateErrorMetrics [100; 110.5]%float [100; 110.5]%float
  = {| mse := zero; rmse := zero |}.
Proof.
  apply (calculateErrorMetrics_perfect_fit [100; 110.5]%float).
  - discriminate.
  - repeat constructor.
Defined.

(** ** predictPrices: what it returns *)

Lemma mapLogged_Forall {A B : Type} (f : A -> B * list string) (P : B -> Prop) (l : list A) :
  (forall x, P (fst (f x))) -> Forall P (fst (mapLogged f l)).
Proof.
  intros H. induction l as [|x l IH]; cbn [mapLogged]; [constructor|].
  specialize (H x). destruct (f x) as [y w]. destruct (mapLogged f l) as [ys ws].
  cbn [fst] in *. constructor; assumption.
Qed.

(** X11.  No price that [predictPrices] returns is NaN, whatever the model
    answers and whatever the scaling parameters are (NaN and infinities
    among them): the guard replaces every NaN. *)
Theorem predictPrices_never_NaN model dates (minDate maxDate minPrice maxPrice : float) :
  Forall (fun price => isNaN price = false)
         (fst (predictPrices model dates minDate maxDate minPrice maxPrice)).
Proof.
  unfold predictPrices. apply mapLogged_Forall. intros prediction.
  unfold denormalizeOrZero.
  destruct (isNaN (denormalize prediction minPrice maxPrice)) eqn:E; cbn [fst];
    [reflexivity | exact E].
Qed.

(** ** saveToCSV: the other properties of a row *)

Lemma csvLine_core (row row' : Forecast.row) :
  Forecast.Date row = Forecast.Date row' ->
  Forecast.PredictedPrice row = Forecast.PredictedPrice row' ->
  Forecast.RMSE row = Forecast.RMSE row' ->
  Forecast.MSE row = Forecast.MSE row' ->
  csvLine row = csvLine row'.
Proof. unfold csvLine. now intros -> -> -> ->. Qed.

Lemma saveToCSV_lines filePath data fs :
  saveToCSV filePath data fs
  = writeFileSync filePath
      (match data with
       | [] => ""
       | _ => join newline ("Date,PredictedPrice,RMSE,MSE" :: map csvLine data)
       end) fs.
Proof.
  unfold saveToCSV, unparse. rewrite cleaned_lines.
  destruct data; reflexivity.
Qed.

(** X12.  Only the four named properties of a row reach the file: two
    arrays of rows that agree, row by row, on Date, PredictedPrice, RMSE and
    MSE give the same file, whatever other properties the rows carry, one
    named "Date" among them. *)
Theorem saveToCSV_ignores_other_properties filePath (data data' : list Forecast.row) fs :
  map (fun row => (Forecast.Date row, Forecast.PredictedPrice row,
                   Forecast.RMSE row, Forecast.MSE row)) data
  = map (fun row => (Forecast.Date row, Forecast.PredictedPrice row,
                     Forecast.RMSE row, Forecast.MSE row)) data' ->
  saveToCSV filePath data fs = saveToCSV filePath data' fs.
Proof.
  intros H. rewrite !saveToCSV_lines.
  assert (E : map csvLine data = map csvLine data').
  { revert data' H. induction data as [|row data IH]; intros [|row' data'] H;
      try discriminate H; [reflexivity|].
    cbn [map] in *. injection H as D P R M T.
    rewrite (IH data' T), (csvLine_core row row' D P R M). reflexivity. }
  rewrite E. destruct data, data'; try discriminate H; reflexivity.
Qed.

Lemma saveToCSV_ignores_other_properties_witness :
  saveToCSV "tcs_result.csv"
    [ {| Forecast.Date := "2024-04-01"; Forecast.PredictedPrice := 3883.5;
         Forecast.RMSE := 12.5; Forecast.MSE := 156.25;
         Forecast.others := [("Date", "1970-01-01"); ("Volume", "12")] |} ]
    (fun _ => None)
  = saveToCSV "tcs_result.csv"
      [ {| Forecast.Date := "2024-04-01"; Forecast.PredictedPrice := 3883.5;
           Forecast.RMSE := 12.5; Forecast.MSE := 156.25; Forecast.others := [] |} ]
      (fun _ => None).
Proof.
  apply (saveToCSV_ignores_other_properties "tcs_result.csv"
    [ {| Forecast.Date := "2024-04-01"; Forecast.PredictedPrice := 3883.5;
         Forecast.RMSE := 12.5; Forecast.MSE := 156.25;
         Forecast.others := [("Date", "1970-01-01"); ("Volume", "12")] |} ]
    [ {| Forecast.Date := "2024-04-01"; Forecast.PredictedPrice := 3883.5;
         Forecast.RMSE := 12.5; Forecast.MSE := 156.25; Forecast.others := [] |} ]).
  reflexivity.
Defined.

(** ** The order of Numbers *)

Lemma SF2R_below_infinity s m e :
  valid_binary (S754_finite s m e) = true ->
  (0 < IZR (Zpos m) * pow2 e < pow2 1024)%R.
Proof.
  intros V. destruct (valid_finite_bounds s m e V) as (E & M & _).
  split; [apply magnitude_pos|].
  apply Rlt_le_trans with (pow2 (53 + e)).
  - rewrite pow2_add, (pow2_IZR 53) by lia.
    apply Rmult_lt_compat_r; [apply pow2_pos | apply IZR_lt; exact M].
  - apply pow2_le. lia.
Qed.

Lemma SFcompare_rank x y :
  valid_binary x = true -> valid_binary y = true ->
  x <> S754_nan -> y <> S754_nan ->
  exists c, SFcompare x y = Some c /\ Rcomparison c (SFrank x) (SFrank y).
Proof.
  intros Vx Vy Nx Ny.
  pose proof (pow2_pos 1024) as P.
  destruct x as [sx|sx| |sx mx ex]; try congruence;
    destruct y as [sy|sy| |sy my ey]; try congruence;
    cbn [SFrank];
    try (apply SFcompare_spec; (split; [reflexivity | assumption]));
    cbn [SFcompare SF2R]; eexists; (split; [reflexivity|]).
  - destruct sy; cbn [Rcomparison sgn]; lra.
  - destruct sx; cbn [Rcomparison sgn]; lra.
  - destruct sx, sy; cbn [Rcomparison sgn]; lra.
  - pose proof (SF2R_below_infinity sy my ey Vy).
    destruct sx, sy; cbn [Rcomparison sgn]; lra.
  - pose proof (SF2R_below_infinity sx mx ex Vx).
    destruct sx, sy; cbn [Rcomparison sgn]; lra.
Qed.

Lemma compare_rank (a b : float) :
  isNaN a = false -> isNaN b = false ->
  exists c, SFcompare (Prim2SF a) (Prim2SF b) = Some c
            /\ Rcomparison c (rank a) (rank b).
Proof.
  intros Na Nb. apply SFcompare_rank; try apply Prim2SF_valid;
    apply Prim2SF_not_nan; assumption.
Qed.

Lemma leb_rank (a b : float) :
  isNaN a = false -> isNaN b = false ->
  ((a <=? b)%float = true <-> (rank a <= rank b)%R).
Proof.
  intros Na Nb. rewrite FloatAxioms.leb_spec. unfold SFleb.
  destruct (compare_rank a b Na Nb) as (c & -> & C).
  destruct c; cbn [Rcomparison] in C; split; intros H;
    try reflexivity; try discriminate; lra.
Qed.

Lemma ltb_rank (a b : float) :
  isNaN a = false -> isNaN b = false ->
  ((a <? b)%float = true <-> (rank a < rank b)%R).
Proof.
  intros Na Nb. rewrite FloatAxioms.ltb_spec. unfold SFltb.
  destruct (compare_rank a b Na Nb) as (c & -> & C).
  destruct c; cbn [Rcomparison] in C; split; intros H;
    try reflexivity; try discriminate; lra.
Qed.

Lemma eqb_rank (a b : float) :
  isNaN a = false -> isNaN b = false ->
  ((a =? b)%float = true <-> rank a = rank b).
Proof.
  intros Na Nb. rewrite FloatAxioms.eqb_spec. unfold SFeqb.
  destruct (compare_rank a b Na Nb) as (c & -> & C).
  destruct c; cbn [Rcomparison] in C; split; intros H;
    try reflexivity; try discriminate; lra.
Qed.

Lemma rank_neg_infinity (a : float) :
  isNaN a = false -> (rank a <= rank neg_infinity)%R -> a = neg_infinity.
Proof.
  intros Na H. apply Prim2SF_inj. unfold rank in H.
  pose proof (Prim2SF_valid a) as V. pose proof (Prim2SF_not_nan a Na) as N.
  change (Prim2SF neg_infinity) with (S754_infinity true) in *.
  pose proof (pow2_pos 1024) as P.
  destruct (Prim2SF a) as [s|s| |s m e]; try congruence; cbn [SFrank SF2R sgn] in H.
  - lra.
  - destruct s; [reflexivity | cbn [sgn] in H; lra].
  - pose proof (SF2R_below_infinity s m e V). destruct s; cbn [sgn] in H; lra.
Qed.

Lemma rank_infinity (a : float) :
  isNaN a = false -> (rank infinity <= rank a)%R -> a = infinity.
Proof.
  intros Na H. apply Prim2SF_inj. unfold rank in H.
  pose proof (Prim2SF_valid a) as V. pose proof (Prim2SF_not_nan a Na) as N.
  change (Prim2SF infinity) with (S754_infinity false) in *.
  pose proof (pow2_pos 1024) as P.
  destruct (Prim2SF a) as [s|s| |s m e]; try congruence; cbn [SFrank SF2R sgn] in H.
  - lra.
  - destruct s; [cbn [sgn] in H; lra | reflexivity].
  - pose proof (SF2R_below_infinity s m e V). destruct s; cbn [sgn] in H; lra.
Qed.

(** [Math.max] and [Math.min] on Numbers that are not NaN. *)
Lemma maxFrom_spec (l : list float) : forall highest,
  isNaN highest = false -> Forall (fun x => isNaN x = false) l ->
  isNaN (maxFrom highest l) = false
  /\ (rank highest <= rank (maxFrom highest l))%R
  /\ Forall (fun x => (rank x <= rank (maxFrom highest l))%R) l
  /\ (maxFrom highest l = highest \/ In (maxFrom highest l) l).
Proof.
  induction l as [|x l IH]; intros highest Nh Nl; cbn [maxFrom].
  - repeat split; [exact Nh | lra | constructor | left; reflexivity].
  - inversion Nl as [|? ? Nx Nl']; subst. rewrite Nx.
    assert (Z : PrimFloat.is_zero x = true -> PrimFloat.is_zero highest = true ->
                rank x = rank highest).
    { unfold PrimFloat.is_zero. intros Zx Zh.
      apply eqb_rank in Zx, Zh; try assumption; try reflexivity. congruence. }
    destruct ((PrimFloat.is_zero x && negb (PrimFloat.get_sign x))
              && (PrimFloat.is_zero highest && PrimFloat.get_sign highest)) eqn:B.
    + apply andb_prop in B as [B1 B2].
      apply andb_prop in B1 as [Zx _]. apply andb_prop in B2 as [Zh _].
      specialize (Z Zx Zh).
      destruct (IH x Nx Nl') as (N & H & A & I).
      repeat split; [exact N | lra | constructor; [lra | exact A] |].
      right. destruct I as [-> | I]; [left; reflexivity | right; exact I].
    + destruct (highest <? x)%float eqn:L.
      * apply ltb_rank in L; try assumption.
        destruct (IH x Nx Nl') as (N & H & A & I).
        repeat split; [exact N | lra | constructor; [lra | exact A] |].
        right. destruct I as [-> | I]; [left; reflexivity | right; exact I].
      * assert (L' : (rank x <= rank highest)%R).
        { destruct (Rle_or_lt (rank x) (rank highest)) as [?|G]; [assumption|].
          apply ltb_rank in G; try assumption. congruence. }
        destruct (IH highest Nh Nl') as (N & H & A & I).
        repeat split; [exact N | exact H | constructor; [lra | exact A] |].
        destruct I as [I | I]; [left; exact I | right; right; exact I].
Qed.

Lemma minFrom_spec (l : list float) : forall lowest,
  isNaN lowest = false -> Forall (fun x => isNaN x = false) l ->
  isNaN (minFrom lowest l) = false
  /\ (rank (minFrom lowest l) <= rank lowest)%R
  /\ Forall (fun x => (rank (minFrom lowest l) <= rank x)%R) l
  /\ (minFrom lowest l = lowest \/ In (minFrom lowest l) l).
Proof.
  induction l as [|x l IH]; intros lowest Nh Nl; cbn [minFrom].
  - repeat split; [exact Nh | lra | constructor | left; reflexivity].
  - inversion Nl as [|? ? Nx Nl']; subst. rewrite Nx.
    assert (Z : PrimFloat.is_zero x = true -> PrimFloat.is_zero lowest = true ->
                rank x = rank lowest).
    { unfold PrimFloat.is_zero. intros Zx Zh.
      apply eqb_rank in Zx, Zh; try assumption; try reflexivity. congruence. }
    destruct ((PrimFloat.is_zero x && PrimFloat.get_sign x)
              && (PrimFloat.is_zero lowest && negb (PrimFloat.get_sign lowest))) eqn:B.
    + apply andb_prop in B as [B1 B2].
      apply andb_prop in B1 as [Zx _]. apply andb_prop in B2 as [Zh _].
      specialize (Z Zx Zh).
      destruct (IH x Nx Nl') as (N & H & A & I).
      repeat split; [exact N | lra | constructor; [lra | exact A] |].
      right. destruct I as [-> | I]; [left; reflexivity | right; exact I].
    + destruct (x <? lowest)%float eqn:L.
      * apply ltb_rank in L; try assumption.
        destruct (IH x Nx Nl') as (N & H & A & I).
        repeat split; [exact N | lra | constructor; [lra | exact A] |].
        right. destruct I as [-> | I]; [left; reflexivity | right; exact I].
      * assert (L' : (rank lowest <= rank x)%R).
        { destruct (Rle_or_lt (rank lowest) (rank x)) as [?|G]; [assumption|].
          apply ltb_rank in G; try assumption. congruence. }
        destruct (IH lowest Nh Nl') as (N & H & A & I).
        repeat split; [exact N | exact H | constructor; [lra | exact A] |].
        destruct I as [I | I]; [left; exact I | right; right; exact I].
Qed.

Lemma Math_max_spec (l : list float) :
  Forall (fun x => isNaN x = false) l ->
  isNaN (Math_max l) = false
  /\ Forall (fun x => (x <=? Math_max l)%float = true) l
  /\ (l <> [] -> In (Math_max l) l).
Proof.
  intros Nl. destruct (maxFrom_spec l neg_infinity eq_refl Nl) as (N & _ & A & I).
  fold (Math_max l) in *. split; [exact N|]. split.
  - apply Forall_forall. intros x Hx.
    apply leb_rank;
      [exact (proj1 (Forall_forall _ _) Nl x Hx) | exact N
      | exact (proj1 (Forall_forall _ _) A x Hx)].
  - intros NE. destruct I as [I|I]; [|exact I].
    destruct l as [|x l]; [congruence|].
    inversion Nl as [|? ? Nx _]; subst. inversion A as [|? ? Ax _]; subst.
    rewrite I in Ax. rewrite (rank_neg_infinity x Nx Ax) at 2. rewrite I. now left.
Qed.

Lemma Math_min_spec (l : list float) :
  Forall (fun x => isNaN x = false) l ->
  isNaN (Math_min l) = false
  /\ Forall (fun x => (Math_min l <=? x)%float = true) l
  /\ (l <> [] -> In (Math_min l) l).
Proof.
  intros Nl. destruct (minFrom_spec l infinity eq_refl Nl) as (N & _ & A & I).
  fold (Math_min l) in *. split; [exact N|]. split.
  - apply Forall_forall. intros x Hx.
    apply leb_rank;
      [exact N | exact (proj1 (Forall_forall _ _) Nl x Hx)
      | exact (proj1 (Forall_forall _ _) A x Hx)].
  - intros NE. destruct I as [I|I]; [|exact I].
    destruct l as [|x l]; [congruence|].
    inversion Nl as [|? ? Nx _]; subst. inversion A as [|? ? Ax _]; subst.
    rewrite I in Ax. rewrite (rank_infinity x Nx Ax) at 2. rewrite I. now left.
Qed.

(** ** prepareData: the range it returns *)

Lemma existsb_isNaN_false (l : list float) :
  existsb isNaN l = false -> Forall (fun x => isNaN x = false) l.
Proof.
  induction l as [|x l IH]; cbn [existsb]; intros H; constructor.
  - now apply orb_false_elim in H.
  - apply IH. now apply orb_false_elim in H.
Qed.

Lemma prepareData_returns LocalTZA data r :
  prepareData LocalTZA data = Returns r ->
  Forall (fun x => isNaN x = false) (map (parsedDate LocalTZA) data)
  /\ Forall (fun x => isNaN x = false) (map parsedPrice data)
  /\ minDate r = Math_min (map (parsedDate LocalTZA) data)
  /\ maxDate r = Math_max (map (parsedDate LocalTZA) data)
  /\ minPrice r = Math_min (map parsedPrice data)
  /\ maxPrice r = Math_max (map parsedPrice data)
  /\ xs r = map (fun date => normalize date (minDate r) (maxDate r))
                (map (parsedDate LocalTZA) data)
  /\ ys r = map (fun price => normalize price (minPrice r) (maxPrice r))
                (map parsedPrice data).
Proof.
  unfold prepareData.
  destruct (existsb isNaN (map (parsedDate LocalTZA) data)) eqn:D; [discriminate|].
  destruct (existsb isNaN (map parsedPrice data)) eqn:P; [discriminate|].
  cbn [orb]. intros H. injection H as <-. cbn [minDate maxDate minPrice maxPrice xs ys].
  repeat split; auto using existsb_isNaN_false.
Qed.

(** X13.  The range that [prepareData] returns holds every parsed value:
    each timestamp lies between [minDate] and [maxDate] and each price
    between [minPrice] and [maxPrice]; and when the table has a row, each of
    the four is the value parsed from one of the rows. *)
Theorem prepareData_range LocalTZA data r :
  prepareData LocalTZA data = Returns r ->
  (forall row, In row data ->
     (minDate r <=? parsedDate LocalTZA row)%float = true
     /\ (parsedDate LocalTZA row <=? maxDate r)%float = true
     /\ (minPrice r <=? parsedPrice row)%float = true
     /\ (parsedPrice row <=? maxPrice r)%float = true)
  /\ (data <> [] ->
      (exists row, In row data /\ parsedDate LocalTZA row = minDate r)
      /\ (exists row, In row data /\ parsedDate LocalTZA row = maxDate r)
      /\ (exists row, In row data /\ parsedPrice row = minPrice r)
      /\ (exists row, In row data /\ parsedPrice row = maxPrice r)).
Proof.
  intros H.
  destruct (prepareData_returns LocalTZA data r H)
    as (ND & NP & -> & -> & -> & -> & _ & _).
  destruct (Math_min_spec _ ND) as (_ & D1 & D1').
  destruct (Math_max_spec _ ND) as (_ & D2 & D2').
  destruct (Math_min_spec _ NP) as (_ & P1 & P1').
  destruct (Math_max_spec _ NP) as (_ & P2 & P2').
  rewrite Forall_forall in D1, D2, P1, P2.
  split.
  - intros row Hin.
    pose proof (in_map (parsedDate LocalTZA) data row Hin) as ID.
    pose proof (in_map parsedPrice data row Hin) as IP.
    auto.
  - intros NE.
    assert (ED : map (parsedDate LocalTZA) data <> [])
      by (destruct data; [congruence | discriminate]).
    assert (EP : map parsedPrice data <> [])
      by (destruct data; [congruence | discriminate]).
    specialize (D1' ED). specialize (D2' ED). specialize (P1' EP). specialize (P2' EP).
    apply in_map_iff in D1', D2', P1', P2'.
    destruct D1' as (r1 & E1 & I1), D2' as (r2 & E2 & I2),
             P1' as (r3 & E3 & I3), P2' as (r4 & E4 & I4).
    repeat split; eauto.
Qed.

Lemma prepareData_range_witness :
  let data := [ {| Raw.Date := "01-Apr-2024"; Raw.close := "3,883.85" |};
                {| Raw.Date := "02-Apr-2024"; Raw.close := "3,900.50" |} ] in
  exists r,
    prepareData 19800000 data = Returns r
    /\ (forall row, In row data ->
          (minDate r <=? parsedDate 19800000 row)%float = true
          /\ (parsedDate 19800000 row <=? maxDate r)%float = true
          /\ (minPrice r <=? parsedPrice row)%float = true
          /\ (parsedPrice row <=? maxPrice r)%float = true)
    /\ (data <> [] ->
        (exists row, In row data /\ parsedDate 19800000 row = minDate r)
        /\ (exists row, In row data /\ parsedDate 19800000 row = maxDate r)
        /\ (exists row, In row data /\ parsedPrice row = minPrice r)
        /\ (exists row, In row data /\ parsedPrice row = maxPrice r)).
Proof.
  intros data. eexists. split; [vm_compute; reflexivity|].
  apply (prepareData_range 19800000 data). vm_compute. reflexivity.
Defined.

(** ** main *)

Lemma newDateOfString_valid LocalTZA s t :
  newDateOfString LocalTZA s = Some t -> (- maxTime) <= t <= maxTime.
Proof.
  unfold newDateOfString, newDateOfTime, TimeClip.
  destruct (Date_parse LocalTZA s) as [u|]; [|discriminate].
  destruct (Z.leb_spec (Z.abs u) maxTime) as [B|B]; [|discriminate].
  intros E. injection E as <-. lia.
Qed.

(** With 42 passes the loop has always ended: by an array of thirty dates
    or by the RangeError. *)
Lemma getNext30Weekdays_total LocalTZA s :
  exists r,
    getNext30Weekdays LocalTZA 42 (newDateOfString LocalTZA s) = Some r
    /\ (r = Throws RangeError
        \/ exists weekdays, r = Returns weekdays /\ List.length weekdays = 30%nat).
Proof.
  destruct (newDateOfString LocalTZA s) as [t|] eqn:D.
  - pose proof (newDateOfString_valid LocalTZA s t D) as Ht.
    rewrite (getNext30Weekdays_scan LocalTZA t Ht).
    assert (Hv : 1 <= Z.min 42 ((maxTime - t) / msPerDay + 1) <= 42).
    { pose proof (Z.div_pos (maxTime - t) msPerDay) as P.
      unfold msPerDay, maxTime in *. lia. }
    destruct (scan_outcome (WeekDay (LocalTime LocalTZA t)) _ (WeekDay_range _) Hv)
      as [_ ->].
    destruct (_ <? _); eexists; (split; [reflexivity|]); [right | left; reflexivity].
    eexists. split; [reflexivity|]. rewrite length_map.
    apply (first30Weekdays_in_order _ (WeekDay_range _)).
  - eexists. split; [reflexivity | left; reflexivity].
Qed.

Lemma resultsFrom_rows rmse mse futurePredictions next30Weekdays :
  forall index rows,
    resultsFrom index next30Weekdays futurePredictions rmse mse = Some rows ->
    map Forecast.Date rows = next30Weekdays
    /\ Forall (fun row => Forecast.RMSE row = rmse /\ Forecast.MSE row = mse) rows
    /\ (forall i row, nth_error rows i = Some row ->
          nth_error futurePredictions (index + i) = Some (Forecast.PredictedPrice row)).
Proof.
  induction next30Weekdays as [|date rest IH]; intros index rows H; cbn [resultsFrom] in H.
  - injection H as <-. repeat split; [constructor|]. intros [|i] row E; discriminate E.
  - destruct (nth_error futurePredictions index) as [price|] eqn:P; [|discriminate].
    destruct (resultsFrom (S index) rest futurePredictions rmse mse) as [rows'|] eqn:R;
      [|discriminate].
    injection H as <-. destruct (IH (S index) rows' R) as (D & F & N).
    cbn [map Forecast.Date]. rewrite D. repeat split.
    + constructor; [split; reflexivity | exact F].
    + intros [|i] row E; cbn [nth_error] in E.
      * injection E as <-. rewrite Nat.add_0_r. exact P.
      * rewrite <- Nat.add_succ_comm. apply N, E.
Qed.

(** X14.  [main] always comes to an end, and it writes all or nothing:
    either the file system is left as it was and the last console line is
    the error caught, or exactly one file is written, the output file, with
    the header and thirty rows that all carry the same RMSE and the same
    MSE, and the last console line reports the file saved. *)
Theorem main_all_or_nothing LocalTZA arraySync trainModel outputFilePath data fs :
  exists fs' written,
    main LocalTZA arraySync trainModel outputFilePath data fs = Some (fs', written)
    /\ ((fs' = fs /\ exists e, last written (ConsoleWarn "") = ConsoleError "Error:" e)
        \/ exists results rmse mse,
             fs' = saveToCSV outputFilePath results fs
             /\ List.length results = 30%nat
             /\ Forall (fun row => Forecast.RMSE row = rmse /\ Forecast.MSE row = mse)
                       results
             /\ fs' outputFilePath
                = Some (join newline ("Date,PredictedPrice,RMSE,MSE" :: map csvLine results))
             /\ (forall p, String.eqb p outputFilePath = false -> fs' p = fs p)
             /\ last written (ConsoleWarn "")
                = ConsoleLog "Predictions and metrics saved to" outputFilePath).
Proof.
  unfold main.
  destruct (prepareData LocalTZA data) as [r|e].
  2:{ do 2 eexists. split; [reflexivity|]. left. split; [reflexivity|]. eexists. reflexivity. }
  destruct (predictPrices _ _ _ _ _ _) as [predictions warnings].
  destruct data as [|first rest].
  { do 2 eexists. split; [reflexivity|]. left. split; [reflexivity|].
    eexists. apply last_last. }
  destruct (getNext30Weekdays_total LocalTZA (formatDateToISO LocalTZA (Raw.Date first)))
    as (res & -> & [-> | (weekdays & -> & L)]).
  { do 2 eexists. split; [reflexivity|]. left. split; [reflexivity|].
    eexists. apply last_last. }
  destruct (predictPrices _ _ _ _ _ _) as [futurePredictions futureWarnings].
  destruct (resultsFrom 0 weekdays futurePredictions _ _) as [results|] eqn:R.
  2:{ do 2 eexists. split; [reflexivity|]. left. split; [reflexivity|].
      eexists. apply last_last. }
  destruct (resultsFrom_rows _ _ _ _ _ _ R) as (D & F & _).
  assert (L30 : List.length results = 30%nat).
  { rewrite <- L, <- D. now rewrite length_map. }
  do 2 eexists. split; [reflexivity|]. right.
  exists results. do 2 eexists. split; [reflexivity|]. split; [exact L30|].
  split; [exact F|]. split; [|split].
  - rewrite saveToCSV_lines. unfold writeFileSync. rewrite String.eqb_refl.
    destruct results; [discriminate L30 | reflexivity].
  - intros p Hp. rewrite saveToCSV_lines. unfold writeFileSync. now rewrite Hp.
  - apply last_last.
Qed.

(** ** From the Date cell to the timestamp *)

Lemma digitValue_digitChar k : 0 <= k < 10 -> digitValue (digitChar k) = k.
Proof.
  intros Hk.
  assert (C : k = 0 \/ k = 1 \/ k = 2 \/ k = 3 \/ k = 4 \/ k = 5 \/ k = 6 \/ k = 7
              \/ k = 8 \/ k = 9) by lia.
  destruct C as [->|[->|[->|[->|[->|[->|[->|[->|[->| ->]]]]]]]]]; reflexivity.
Qed.

(** The ISO form of a date is read back field by field. *)
Lemma isoFields_date y m d :
  0 <= y <= 9999 -> 1 <= m <= 12 -> 1 <= d <= 31 ->
  isoFields (fixedWidth 4 y ++ "-" ++ fixedWidth 2 m ++ "-" ++ fixedWidth 2 d)
  = Some (y, m - 1, d).
Proof.
  intros Hy Hm Hd.
  cbn [fixedWidth append isoFields forallb].
  assert (D : forall k, 0 <= k mod 10 < 10) by (intros k; apply Z.mod_pos_bound; lia).
  rewrite !isDigit_digitChar by apply D. cbn [andb].
  rewrite !digitValue_digitChar by apply D.
  assert (Y : 1000 * (y / 10 / 10 / 10 mod 10) + 100 * (y / 10 / 10 mod 10)
              + 10 * (y / 10 mod 10) + y mod 10 = y)
    by (Z.div_mod_to_equations; lia).
  assert (M : 10 * (m / 10 mod 10) + m mod 10 = m) by (Z.div_mod_to_equations; lia).
  assert (E : 10 * (d / 10 mod 10) + d mod 10 = d) by (Z.div_mod_to_equations; lia).
  rewrite Y, M, E.
  destruct (Z.leb_spec 1 m), (Z.leb_spec m 12), (Z.leb_spec 1 d), (Z.leb_spec d 31);
    try lia.
  reflexivity.
Qed.

Lemma MakeDay_of_civil d :
  MakeDay (YearFromDay d) (MonthFromDay d) (DateFromDay d) = d.
Proof.
  unfold MakeDay, DateFromDay, DayWithinYear.
  pose proof (MonthFromDay_range d) as Hm.
  rewrite (Z.div_small (MonthFromDay d) 12), (Z.mod_small (MonthFromDay d) 12) by lia.
  rewrite Z.add_0_r. lia.
Qed.

(** The date part of [toISOString] is read back by [Date.parse] as midnight
    UTC of the same day, whatever the time zone of the host. *)
Lemma Date_parse_isoDateOfDay LocalTZA d :
  DayFromYear 0 <= d < DayFromYear 10000 ->
  Date_parse LocalTZA (isoDateOfDay d) = Some (d * msPerDay).
Proof.
  intros Hd.
  pose proof (YearFromDay_between d 0 9999 Hd) as HY.
  pose proof (MonthFromDay_range d) as HM.
  pose proof (DateFromDay_range d) as HD.
  unfold Date_parse, isoDateOfDay, isoYear.
  destruct (Z.leb_spec 0 (YearFromDay d)), (Z.leb_spec (YearFromDay d) 9999); try lia.
  cbn [andb].
  rewrite isoFields_date by lia.
  replace (MonthFromDay d + 1 - 1) with (MonthFromDay d) by lia.
  rewrite MakeDay_of_civil. unfold MakeDate. rewrite Z.add_0_r.
  apply TimeClip_valid.
  revert Hd. unfold DayFromYear, maxTime, msPerDay.
  change ((0 - 1969) / 4) with (-493). change ((0 - 1901) / 100) with (-20).
  change ((0 - 1601) / 400) with (-5).
  change ((10000 - 1969) / 4) with 2007. change ((10000 - 1901) / 100) with 80.
  change ((10000 - 1601) / 400) with 20. lia.
Qed.

Lemma numberOfZ_not_NaN z : isNaN (numberOfZ z) = false.
Proof.
  destruct (isNaN (numberOfZ z)) eqn:N; [|reflexivity].
  apply isNaN_spec in N. exfalso. revert N. unfold numberOfZ.
  destruct z as [|p|p]; cbn [binary_normalize].
  - discriminate.
  - destruct (binary_round_shape false p 0) as (V & S & _).
    rewrite Prim2SF_SF2Prim by exact V.
    destruct S as [->|[(m & e & ->)| ->]]; discriminate.
  - destruct (binary_round_shape true p 0) as (V & S & _).
    rewrite Prim2SF_SF2Prim by exact V.
    destruct S as [->|[(m & e & ->)| ->]]; discriminate.
Qed.

(** A day of the month from 1 to 31 stays in the year it is written in. *)
Lemma MakeDay_in_year y m d :
  0 <= m <= 11 -> 1 <= d <= 31 ->
  DayFromYear y <= MakeDay y m d < DayFromYear (y + 1).
Proof.
  intros Hm Hd. rewrite DayFromYear_succ. unfold MakeDay, DaysInYear.
  rewrite (Z.div_small m 12), (Z.mod_small m 12), Z.add_0_r by lia.
  destruct (InLeapYear y); month_cases m Hm; cbn [monthStart]; lia.
Qed.

(** For a year of four digits, a month abbreviation and a day from 1 to 31,
    [formatDateToISO] gives the date part that [toISOString] gives to the day
    [MakeDay y m d]. *)
Lemma formatDateToISO_isoDateOfDay LocalTZA y m d :
  (- msPerDay) < LocalTZA < msPerDay ->
  1000 <= y <= 9999 -> 0 <= m <= 11 -> 1 <= d <= 31 ->
  formatDateToISO LocalTZA
    (fixedWidth 2 d ++ "-" ++ monthAbbreviation m ++ "-" ++ fixedWidth 4 y)
  = isoDateOfDay (MakeDay y m d)
  /\ DayFromYear 1000 <= MakeDay y m d < DayFromYear 10000.
Proof.
  intros Hz Hy Hm Hd.
  pose proof (MakeDay_in_year y m d Hm Hd) as B.
  assert (Y : YearFromDay (MakeDay y m d) = y).
  { pose proof (YearFromDay_between (MakeDay y m d) y y B). lia. }
  assert (F : MakeFullYear y = y).
  { unfold MakeFullYear. destruct (Z.leb_spec y 99); [lia|]. now rewrite andb_false_r. }
  split.
  - rewrite formatDateToISO_fields by lia. rewrite F, Y.
    unfold isoDateOfDay, isoYear. rewrite Y.
    destruct (Z.leb_spec 0 y), (Z.leb_spec y 9999); try lia. cbn [andb].
    now rewrite decimalOfZ_four_digits by exact Hy.
  - pose proof (DayFromYear_monotone 1000 y ltac:(lia)).
    pose proof (DayFromYear_monotone (y + 1) 10000 ltac:(lia)). lia.
Qed.



(** ** main: what it does with a table *)

Lemma prepareData_accepts LocalTZA data :
  (forall row, In row data ->
     isNaN (parsedDate LocalTZA row) = false /\ isNaN (parsedPrice row) = false) ->
  exists r, prepareData LocalTZA data = Returns r.
Proof.
  intros H. unfold prepareData.
  destruct (existsb isNaN (map (parsedDate LocalTZA) data)
            || existsb isNaN (map parsedPrice data)) eqn:E; [|eexists; reflexivity].
  exfalso. apply orb_true_iff in E.
  destruct E as [E|E]; apply existsb_isNaN_map in E; destruct E as (row & Hin & N);
    destruct (H row Hin) as [D P]; congruence.
Qed.

Lemma predictPrices_length model dates (minDate maxDate minPrice maxPrice : float) :
  List.length (fst (predictPrices model dates minDate maxDate minPrice maxPrice))
  = List.length
      (model (map (fun date => ((date - minDate) / (maxDate - minDate))%float) dates)).
Proof. unfold predictPrices. apply mapLogged_length. Qed.

Lemma resultsFrom_enough rmse mse futurePredictions next30Weekdays :
  forall index,
    (index + List.length next30Weekdays <= List.length futurePredictions)%nat ->
    exists rows,
      resultsFrom index next30Weekdays futurePredictions rmse mse = Some rows.
Proof.
  induction next30Weekdays as [|date rest IH]; intros index H; cbn [resultsFrom].
  - eexists. reflexivity.
  - cbn [List.length] in H.
    destruct (nth_error futurePredictions index) as [price|] eqn:P.
    + destruct (IH (S index) ltac:(lia)) as [rows ->]. eexists. reflexivity.
    + apply nth_error_None in P. lia.
Qed.

(** After [prepareData] has returned, the last line on the console is the
    TypeError, the RangeError or the message of success. *)
Lemma main_after_prepareData LocalTZA arraySync trainModel outputFilePath data fs r :
  prepareData LocalTZA data = Returns r ->
  exists fs' written,
    main LocalTZA arraySync trainModel outputFilePath data fs = Some (fs', written)
    /\ (last written (ConsoleWarn "") = ConsoleError "Error:" TypeError
        \/ last written (ConsoleWarn "") = ConsoleError "Error:" (Thrown RangeError)
        \/ last written (ConsoleWarn "")
           = ConsoleLog "Predictions and metrics saved to" outputFilePath).
Proof.
  intros P. unfold main. rewrite P.
  destruct (predictPrices _ _ _ _ _ _) as [predictions warnings].
  destruct data as [|first rest].
  { do 2 eexists. split; [reflexivity|]. left. apply last_last. }
  destruct (getNext30Weekdays_total LocalTZA (formatDateToISO LocalTZA (Raw.Date first)))
    as (res & -> & [-> | (weekdays & -> & L)]).
  { do 2 eexists. split; [reflexivity|]. right. left. apply last_last. }
  destruct (predictPrices _ _ _ _ _ _) as [futurePredictions futureWarnings].
  destruct (resultsFrom 0 weekdays futurePredictions _ _) as [results|].
  - do 2 eexists. split; [reflexivity|]. right. right. apply last_last.
  - do 2 eexists. split; [reflexivity|]. left. apply last_last.
Qed.

(** X16.  The console shows the error "Data contains NaN values", alone,
    exactly when some row of the table has a date or a price that is parsed
    to NaN; the script then stops before training and writes no file. *)
Theorem main_rejects_bad_data LocalTZA arraySync trainModel outputFilePath data fs :
  (exists row, In row data
     /\ (isNaN (parsedDate LocalTZA row) = true \/ isNaN (parsedPrice row) = true))
  <-> main LocalTZA arraySync trainModel outputFilePath data fs
      = Some (fs, [ConsoleError "Error:" (Thrown (Error "Data contains NaN values"))]).
Proof.
  split.
  - intros (row & Hin & N). unfold main.
    now rewrite (prepareData_rejects LocalTZA data row Hin N).
  - intros M.
    destruct (prepareData LocalTZA data) as [r|e] eqn:P.
    + destruct (main_after_prepareData LocalTZA arraySync trainModel outputFilePath
                  data fs r P) as (fs' & written & M' & L).
      rewrite M in M'. injection M' as <- <-. cbn [last] in L.
      destruct L as [L|[L|L]]; discriminate L.
    + unfold prepareData in P.
      destruct (existsb isNaN (map (parsedDate LocalTZA) data)
                || existsb isNaN (map parsedPrice data)) eqn:E; [|discriminate P].
      apply orb_true_iff in E.
      destruct E as [E|E]; apply existsb_isNaN_map in E; destruct E as (row & Hin & N);
        exists row; auto.
Qed.



(** ** main on a table of one row *)

Lemma prepareData_one_row LocalTZA row :
  isNaN (parsedDate LocalTZA row) = false -> isNaN (parsedPrice row) = false ->
  prepareData LocalTZA [row]
  = Returns {| xs := [nan]; ys := [nan];
               minDate := parsedDate LocalTZA row; maxDate := parsedDate LocalTZA row;
               minPrice := parsedPrice row; maxPrice := parsedPrice row |}.
Proof.
  intros D P. unfold prepareData. cbn [map existsb]. rewrite D, P. cbn [orb].
  rewrite !Math_max_singleton, !Math_min_singleton by assumption.
  now rewrite !normalize_degenerate.
Qed.

Lemma denormalize_NaN (minPrice maxPrice : float) : denormalize nan minPrice maxPrice = nan.
Proof.
  unfold denormalize. cbn [plus_ times_ minus_ NumberArithmetic].
  apply Prim2SF_inj. rewrite add_spec, mul_spec.
  change (Prim2SF nan) with S754_nan. reflexivity.
Qed.

(** An actual price that is NaN makes both metrics NaN, whatever the
    predictions. *)
Lemma calculateErrorMetrics_NaN_only (predictions : list float) :
  calculateErrorMetrics [nan] predictions = {| mse := nan; rmse := nan |}.
Proof.
  unfold calculateErrorMetrics, reduce. cbn [reduceFrom List.length].
  generalize (numberAt predictions 0). intros p.
  assert (E : ((zero + (nan - p) * (nan - p)) / numberOfZ (Z.of_nat 1) = nan)%float).
  { apply Prim2SF_inj. rewrite div_spec, add_spec, mul_spec, sub_spec.
    change (Prim2SF nan) with S754_nan. change (Prim2SF zero) with (S754_zero false).
    reflexivity. }
  rewrite E. reflexivity.
Qed.

(** Scaled back over a range of one point, a prediction gives that point
    or NaN. *)
Lemma SFdenormalize_degenerate x p :
  SF64add (SF64mul x (SF64sub p p)) p = S754_nan
  \/ SFeqb (SF64add (SF64mul x (SF64sub p p)) p) p = true.
Proof.
  unfold SF64add, SF64mul, SF64sub, SFeqb.
  destruct p as [sp|sp| |sp mp ep].
  - destruct x as [sx|sx| |sx mx ex], sp; try destruct sx; cbn; auto.
  - destruct sp; cbn; destruct x; auto.
  - destruct x; auto.
  - cbn [SFsub]. rewrite Z.sub_diag. cbn [cond_Zopp binary_normalize].
    assert (R : SFcompare (S754_finite sp mp ep) (S754_finite sp mp ep) = Some Eq)
      by (apply SFcompare_refl; reflexivity).
    destruct x as [sx|sx| |sx mx ex]; cbn [SFmul SFadd];
      [right | left | left | right]; try reflexivity; rewrite R; reflexivity.
Qed.

Lemma denormalizeOrZero_degenerate (prediction price : float) :
  fst (denormalizeOrZero prediction price price) = zero
  \/ (fst (denormalizeOrZero prediction price price) =? price)%float = true.
Proof.
  unfold denormalizeOrZero.
  destruct (isNaN (denormalize prediction price price)) eqn:V; cbn [fst]; [left; reflexivity|].
  right. apply Prim2SF_not_nan in V. rewrite FloatAxioms.eqb_spec.
  revert V. unfold denormalize. cbn [plus_ times_ minus_ NumberArithmetic].
  rewrite add_spec, mul_spec, sub_spec. intros V.
  destruct (SFdenormalize_degenerate (Prim2SF prediction) (Prim2SF price)) as [N|E];
    [contradiction | exact E].
Qed.

(** X18.  A table of one row leaves nothing to learn from: both columns
    handed to the model hold NaN alone, and whatever the model answers, any
    report that [main] writes has NaN as RMSE and as MSE in every row, and
    each predicted price is 0 or equal to the price of the one row. *)
Theorem main_single_row LocalTZA arraySync trainModel outputFilePath row fs :
  isNaN (parsedDate LocalTZA row) = false ->
  isNaN (parsedPrice row) = false ->
  arraySync [nan] = [nan] ->
  (exists r, prepareData LocalTZA [row] = Returns r /\ xs r = [nan] /\ ys r = [nan])
  /\ exists fs' written,
       main LocalTZA arraySync trainModel outputFilePath [row] fs = Some (fs', written)
       /\ (fs' = fs
           \/ exists results,
                fs' = saveToCSV outputFilePath results fs
                /\ Forall (fun result =>
                             isNaN (Forecast.RMSE result) = true
                             /\ isNaN (Forecast.MSE result) = true
                             /\ (Forecast.PredictedPrice result = zero
                                 \/ (Forecast.PredictedPrice result =? parsedPrice row)%float
                                    = true))
                          results).
Proof.
  intros D P A.
  pose proof (prepareData_one_row LocalTZA row D P) as R.
  split; [eexists; split; [exact R | split; reflexivity]|].
  unfold main. rewrite R. cbn [xs ys minDate maxDate minPrice maxPrice].
  rewrite !A. cbn [map]. rewrite !denormalize_NaN.
  destruct (predictPrices _ _ _ _ _ _) as [predictions warnings].
  rewrite calculateErrorMetrics_NaN_only. cbn [rmse mse].
  destruct (getNext30Weekdays_total LocalTZA (formatDateToISO LocalTZA (Raw.Date row)))
    as (res & -> & [-> | (weekdays & -> & L)]).
  { do 2 eexists. split; [reflexivity|]. left. reflexivity. }
  destruct (predictPrices _ _ _ _ _ _) as [futurePredictions futureWarnings] eqn:Q.
  assert (F : Forall (fun price => price = zero \/ (price =? parsedPrice row)%float = true)
                     futurePredictions).
  { change futurePredictions with (fst (futurePredictions, futureWarnings)).
    rewrite <- Q. unfold predictPrices. apply mapLogged_Forall.
    intros prediction. apply denormalizeOrZero_degenerate. }
  destruct (resultsFrom 0 weekdays futurePredictions nan nan) as [results|] eqn:S.
  2:{ do 2 eexists. split; [reflexivity|]. left. reflexivity. }
  destruct (resultsFrom_rows _ _ _ _ _ _ S) as (_ & M & N).
  do 2 eexists. split; [reflexivity|]. right. exists results. split; [reflexivity|].
  apply Forall_forall. intros result Hin.
  destruct (proj1 (Forall_forall _ _) M result Hin) as [-> ->].
  split; [reflexivity|]. split; [reflexivity|].
  destruct (In_nth_error _ _ Hin) as [i Hi].
  apply N in Hi. apply nth_error_In in Hi.
  exact (proj1 (Forall_forall _ _) F _ Hi).
Qed.

Lemma main_single_row_witness :
  let row := {| Raw.Date := "01-Apr-2024"; Raw.close := "3,883.85" |} in
  (exists r, prepareData 19800000 [row] = Returns r /\ xs r = [nan] /\ ys r = [nan])
  /\ exists fs' written,
       main 19800000 (fun values => values) (fun _ _ dates => dates) "tcs_result.csv"
            [row] (fun _ => None) = Some (fs', written)
       /\ (fs' = (fun _ => None)
           \/ exists results,
                fs' = saveToCSV "tcs_result.csv" results (fun _ => None)
                /\ Forall (fun result =>
                             isNaN (Forecast.RMSE result) = true
                             /\ isNaN (Forecast.MSE result) = true
                             /\ (Forecast.PredictedPrice result = zero
                                 \/ (Forecast.PredictedPrice result =? parsedPrice row)%float
                                    = true))
                          results).
Proof.
  apply (main_single_row 19800000 (fun values => values) (fun _ _ dates => dates)
           "tcs_result.csv" {| Raw.Date := "01-Apr-2024"; Raw.close := "3,883.85" |}
           (fun _ => None)).
  - vm_compute. reflexivity.
  - vm_compute. reflexivity.
  - reflexivity.
Defined.

(** ** Rounding to nearest, ties to even *)

Lemma IZR_xO p : IZR (Zpos p~0) = (2 * IZR (Zpos p))%R.
Proof. rewrite Pos2Z.inj_xO, mult_IZR. reflexivity. Qed.

Lemma IZR_xI p : IZR (Zpos p~1) = (2 * IZR (Zpos p) + 1)%R.
Proof. rewrite Pos2Z.inj_xI, plus_IZR, mult_IZR. reflexivity. Qed.

Lemma shr_1_located x mrs e :
  0 <= shr_m mrs ->
  located x (shr_m mrs) e (loc_of_shr_record mrs) ->
  located x (shr_m (shr_1 mrs)) (e + 1) (loc_of_shr_record (shr_1 mrs)).
Proof.
  destruct mrs as [m r s]. cbn [shr_m]. intros Hm.
  pose proof (pow2_pos e) as P.
  destruct m as [|[p|p|]|p]; try lia.
  - destruct r, s; cbn [shr_1 shr_m loc_of_shr_record orb located];
      rewrite pow2_succ; intros H; lra.
  - destruct r, s; cbn [shr_1 shr_m loc_of_shr_record orb located];
      rewrite pow2_succ, (IZR_xI p); set (a := IZR (Zpos p)); intros H; nra.
  - destruct r, s; cbn [shr_1 shr_m loc_of_shr_record orb located];
      rewrite pow2_succ, (IZR_xO p); set (a := IZR (Zpos p)); intros H; nra.
  - destruct r, s; cbn [shr_1 shr_m loc_of_shr_record orb located];
      rewrite pow2_succ; intros H; lra.
Qed.

Lemma loc_of_shr_record_of_loc m l : loc_of_shr_record (shr_record_of_loc m l) = l.
Proof. destruct l as [|[| |]]; reflexivity. Qed.

Lemma shr_m_record_of_loc m l : shr_m (shr_record_of_loc m l) = m.
Proof. destruct l as [|[| |]]; reflexivity. Qed.

Lemma shr_iter_located x n : forall mrs e,
  0 <= shr_m mrs ->
  located x (shr_m mrs) e (loc_of_shr_record mrs) ->
  located x (shr_m (Nat.iter n shr_1 mrs)) (e + Z.of_nat n)
          (loc_of_shr_record (Nat.iter n shr_1 mrs)).
Proof.
  induction n as [|n IH]; intros mrs e Hm H.
  - cbn [Nat.iter]. now rewrite Z.add_0_r.
  - rewrite Nat.iter_succ, Nat2Z.inj_succ.
    replace (e + Z.succ (Z.of_nat n)) with (e + Z.of_nat n + 1) by lia.
    apply shr_1_located; [|apply IH; assumption].
    rewrite shr_iter_m by exact Hm.
    apply Z.div_pos; [exact Hm | apply Z.pow_pos_nonneg; lia].
Qed.

(** The first shift of [binary_round_aux] keeps track of the place of [x]. *)
Lemma shr_fexp_located x m e l :
  0 <= m -> located x m e l ->
  e <= fexp prec emax (Zdigits2 m + e) ->
  located x (shr_m (fst (shr_fexp prec emax m e l)))
          (fexp prec emax (Zdigits2 m + e))
          (loc_of_shr_record (fst (shr_fexp prec emax m e l))).
Proof.
  intros Hm H HE. unfold shr_fexp.
  set (E := fexp prec emax (Zdigits2 m + e)) in *.
  unfold shr. destruct (E - e) as [|p|p] eqn:Q; cbn [fst]; try lia.
  - rewrite shr_m_record_of_loc, loc_of_shr_record_of_loc.
    replace E with e by lia. exact H.
  - rewrite iter_pos_nat.
    replace E with (e + Z.of_nat (Pos.to_nat p)) by (rewrite positive_nat_Z; lia).
    apply shr_iter_located.
    + now rewrite shr_m_record_of_loc.
    + now rewrite shr_m_record_of_loc, loc_of_shr_record_of_loc.
Qed.

(** Rounding the mantissa by the place gives the nearest multiple, the even
    one of the two at a tie. *)
Lemma round_nearest_even_located x m e l :
  located x m e l ->
  (Rabs (IZR (round_nearest_even m l) * pow2 e - x) <= pow2 e / 2)%R
  /\ (Rabs (IZR (round_nearest_even m l) * pow2 e - x) = (pow2 e / 2)%R ->
      Z.even (round_nearest_even m l) = true).
Proof.
  pose proof (pow2_pos e) as P. set (a := IZR m).
  destruct l as [|[| |]]; cbn [located round_nearest_even]; fold a; intros H.
  - subst x. replace (a * pow2 e - a * pow2 e)%R with 0%R by ring.
    rewrite Rabs_R0. split; [lra|]. intros T. lra.
  - destruct (Z.even m) eqn:Ev.
    + fold a. split; [|intros _; exact Ev].
      subst x. rewrite Rabs_left1 by nra. nra.
    + change (Z.pos 1) with 1. rewrite plus_IZR. fold a. split.
      * subst x. rewrite Rabs_right by nra. nra.
      * intros _. rewrite Z.even_add, Ev. reflexivity.
  - split.
    + rewrite Rabs_left1 by nra. nra.
    + intros T. rewrite Rabs_left1 in T by nra. nra.
  - change (Z.pos 1) with 1. rewrite plus_IZR. fold a. split.
    + rewrite Rabs_right by nra. nra.
    + intros T. rewrite Rabs_right in T by nra. nra.
Qed.

(** The outcome of [binary_round_aux], for the mantissa [n] rounded at the
    exponent [E] of the format: a zero, the finite Number of value
    [n * 2^E], or the infinity when that value is out of range. *)
Lemma binary_round_aux_result sx mx ex lx :
  0 <= mx ->
  let E := fexp prec emax (Zdigits2 mx + ex) in
  ex <= E ->
  let n := round_nearest_even (shr_m (fst (shr_fexp prec emax mx ex lx)))
             (loc_of_shr_record (fst (shr_fexp prec emax mx ex lx))) in
  let r := binary_round_aux prec emax sx mx ex lx in
  0 <= n
  /\ valid_binary r = true
  /\ ((n = 0 /\ r = S754_zero sx)
      \/ (0 < n /\ (IZR n * pow2 E < pow2 1024)%R
          /\ exists m e, r = S754_finite sx m e
                         /\ (IZR (Zpos m) * pow2 e = IZR n * pow2 E)%R)
      \/ ((pow2 1024 <= IZR n * pow2 E)%R /\ r = S754_infinity sx)).
Proof.
  intros Hmx E HE n r.
  destruct (shr_fexp_spec mx ex lx Hmx HE) as (S1 & S2 & _). fold E in S1, S2.
  set (k := E - ex) in *.
  assert (Hk : 0 <= k) by (unfold k; lia).
  set (m' := mx / 2 ^ k) in *.
  assert (P2 : 0 < 2 ^ k) by (apply Z.pow_pos_nonneg; lia).
  assert (Hm'0 : 0 <= m') by (apply Z.div_pos; lia).
  assert (HE0 : -1074 <= E) by (unfold E; rewrite fexp_spec; lia).
  assert (Hm'53 : m' < 2 ^ 53).
  { destruct (Z.eq_dec mx 0) as [Z0|NZ].
    - unfold m'. rewrite Z0, Z.div_0_l by lia. reflexivity.
    - pose proof (Zdigits2_bounds mx ltac:(lia)) as B.
      assert (Zdigits2 mx <= k + 53) by (unfold k, E; rewrite fexp_spec; lia).
      assert (0 < Zdigits2 mx).
      { destruct mx; try lia. rewrite Zdigits2_pos. lia. }
      assert (2 ^ Zdigits2 mx <= 2 ^ (k + 53)) by (apply Z.pow_le_mono_r; lia).
      rewrite Z.pow_add_r in H1 by lia.
      apply Z.div_lt_upper_bound; lia. }
  assert (Hnorm : -1074 < E -> 2 ^ 52 <= m').
  { intros H.
    assert (EQ : E = Zdigits2 mx + ex - 53) by (unfold E in *; rewrite fexp_spec in *; lia).
    assert (NZ : 0 < mx).
    { destruct (Z.eq_dec mx 0) as [Z0|NZ]; [|lia].
      rewrite Z0 in EQ. change (Zdigits2 0) with 0 in EQ. lia. }
    pose proof (Zdigits2_bounds mx NZ) as B.
    assert (KQ : Zdigits2 mx - 1 = 52 + k) by (unfold k; lia).
    rewrite KQ, Z.pow_add_r in B by lia.
    unfold m'. apply Z.div_le_lower_bound; lia. }
  assert (R : n = m' \/ n = m' + 1).
  { unfold n. rewrite <- S1. apply round_nearest_even_cases. }
  split; [lia|].
  unfold r, binary_round_aux.
  destruct (shr_fexp prec emax mx ex lx) as [mrs1 e1] eqn:Q1.
  cbn [fst snd] in S2, n. subst e1.
  change (round_nearest_even (shr_m mrs1) (loc_of_shr_record mrs1)) with n.
  destruct (Z.eq_dec n 0) as [Z0|NZ].
  - rewrite Z0.
    assert (F0 : shr_fexp prec emax 0 E loc_Exact = (shr_record_of_loc 0 loc_Exact, E)).
    { unfold shr_fexp. apply shr_nonpos. rewrite fexp_spec.
      change (Zdigits2 0) with 0. lia. }
    rewrite F0. cbn. split; [reflexivity|]. left. split; reflexivity.
  - destruct (shr_fexp_canonical n E) as (mf & ef & mrs2 & Q2 & M2 & V2 & C2 & O2).
    { lia. } { exact HE0. } { intros H. specialize (Hnorm H). lia. }
    rewrite Q2, M2. change (emax - prec) with 971.
    destruct (Z.leb_spec ef 971) as [L|L].
    + assert (V : valid_binary (S754_finite sx mf ef) = true).
      { cbn [SpecFloat.valid_binary]. unfold bounded. rewrite C2.
        apply andb_true_iff; split; [reflexivity|]. apply Z.leb_le. exact L. }
      split; [exact V|]. right. left. split; [lia|].
      pose proof (SF2R_below_infinity sx mf ef V) as B. rewrite V2 in B.
      split; [apply B|]. exists mf, ef. split; [reflexivity | exact V2].
    + split; [reflexivity|]. right. right. split; [|reflexivity].
      rewrite <- V2.
      unfold canonical_mantissa in C2. apply Z.eqb_eq in C2. rewrite fexp_spec in C2.
      pose proof (digits2_pos_bounds mf) as D.
      assert (Zpos (digits2_pos mf) = 53) by lia.
      replace (Zpos (digits2_pos mf) - 1) with 52 in D by lia.
      apply Rle_trans with (pow2 (52 + ef)); [apply pow2_le; lia|].
      rewrite pow2_add, (pow2_IZR 52) by lia.
      apply Rmult_le_compat_r; [left; apply pow2_pos | apply IZR_le; lia].
Qed.

(** [binary_round_aux] rounds to nearest, ties to even: the value of its
    result is [rounded] from the real number that its arguments locate. *)
Lemma binary_round_aux_rounded sx mx ex lx (x : R) :
  0 <= mx -> located x mx ex lx ->
  ex <= fexp prec emax (Zdigits2 mx + ex) ->
  exists V : R,
    rounded x V /\ numbered sx V (binary_round_aux prec emax sx mx ex lx).
Proof.
  intros Hmx Hx HE.
  destruct (binary_round_aux_result sx mx ex lx Hmx HE) as (N0 & V & C).
  pose proof (shr_fexp_located x mx ex lx Hmx Hx HE) as L.
  apply round_nearest_even_located in L. destruct L as [L1 L2].
  set (E := fexp prec emax (Zdigits2 mx + ex)) in *.
  set (n := round_nearest_even (shr_m (fst (shr_fexp prec emax mx ex lx)))
              (loc_of_shr_record (fst (shr_fexp prec emax mx ex lx)))) in *.
  pose proof (pow2_pos E) as PE. pose proof (pow2_pos ex) as Pex.
  assert (HE0 : -1074 <= E) by (unfold E; rewrite fexp_spec; lia).
  (* the bounds of x *)
  assert (Xlo : (IZR mx * pow2 ex <= x)%R).
  { destruct lx as [|[| |]]; cbn [located] in Hx; lra. }
  assert (Xhi : (x < (IZR mx + 1) * pow2 ex)%R).
  { destruct lx as [|[| |]]; cbn [located] in Hx; lra. }
  assert (M0 : (0 <= IZR mx)%R) by (apply IZR_le; exact Hmx).
  exists (IZR n * pow2 E)%R. split.
  - exists E, n. split; [exact HE0|]. split; [|split; [|split; [reflexivity|split; assumption]]].
    + split; [nra|].
      eapply Rlt_le_trans; [exact Xhi|].
      destruct (Z.eq_dec mx 0) as [Z0|NZ].
      * subst mx. change (Zdigits2 0) with 0 in *.
        replace (0 + 1)%R with 1%R by ring. rewrite Rmult_1_l.
        apply pow2_le. unfold E in *. rewrite fexp_spec in *. lia.
      * pose proof (Zdigits2_bounds mx ltac:(lia)) as B.
        assert (D0 : 0 < Zdigits2 mx) by (destruct mx; try lia; rewrite Zdigits2_pos; lia).
        apply Rle_trans with (pow2 (Zdigits2 mx + ex)).
        -- rewrite pow2_add, (pow2_IZR (Zdigits2 mx)) by lia.
           apply Rmult_le_compat_r; [lra|].
           rewrite <- (plus_IZR mx 1). apply IZR_le. lia.
        -- apply pow2_le. unfold E. rewrite fexp_spec. lia.
    + intros H.
      assert (EQ : E = Zdigits2 mx + ex - 53) by (unfold E in *; rewrite fexp_spec in *; lia).
      assert (NZ : 0 < mx).
      { destruct (Z.eq_dec mx 0) as [Z0|NZ]; [|lia].
        rewrite Z0 in EQ. change (Zdigits2 0) with 0 in EQ. lia. }
      pose proof (Zdigits2_bounds mx NZ) as B.
      assert (D0 : 0 < Zdigits2 mx) by (destruct mx; try lia; rewrite Zdigits2_pos; lia).
      eapply Rle_trans; [|exact Xlo].
      replace (E + 52) with (Zdigits2 mx - 1 + ex) by lia.
      rewrite pow2_add, (pow2_IZR (Zdigits2 mx - 1)) by lia.
      apply Rmult_le_compat_r; [lra | apply IZR_le; lia].
  - split; [exact V|].
    destruct C as [(Z0 & ->) | [(P & B & m & e & -> & Q) | (B & ->)]].
    + left. split; [rewrite Z0; ring | reflexivity].
    + right. left. split.
      * split; [|exact B]. apply Rmult_lt_0_compat; [apply IZR_lt; exact P | exact PE].
      * exists m, e. split; [reflexivity | exact Q].
    + right. right. split; [exact B | reflexivity].
Qed.

(** *** The rounded value as a function of the real number *)

Lemma nearest_below (n K : Z) (P x : R) :
  (0 < P)%R -> (Rabs (IZR n * P - x) <= P / 2)%R -> (x < IZR K * P)%R -> n <= K.
Proof.
  intros HP H Hx. apply Rabs_bounds in H.
  destruct (Z_le_gt_dec n K) as [L|G]; [exact L | exfalso].
  assert (I : (IZR K + 1 <= IZR n)%R) by (rewrite <- (plus_IZR K 1); apply IZR_le; lia).
  nra.
Qed.

Lemma nearest_above (n K : Z) (P x : R) :
  (0 < P)%R -> (Rabs (IZR n * P - x) <= P / 2)%R -> (IZR K * P <= x)%R -> K <= n.
Proof.
  intros HP H Hx. apply Rabs_bounds in H.
  destruct (Z_le_gt_dec K n) as [L|G]; [exact L | exfalso].
  assert (I : (IZR n + 1 <= IZR K)%R) by (rewrite <- (plus_IZR n 1); apply IZR_le; lia).
  nra.
Qed.

Lemma pow2_scaled E k : 0 <= k -> pow2 (E + k) = (IZR (2 ^ k) * pow2 E)%R.
Proof. intros Hk. rewrite Z.add_comm, pow2_add, (pow2_IZR k Hk). reflexivity. Qed.

(** Rounding is monotone. *)
Lemma rounded_monotone x y Vx Vy :
  rounded x Vx -> rounded y Vy -> (x <= y)%R -> (Vx <= Vy)%R.
Proof.
  intros (Ex & nx & HEx & [X0 X1] & X2 & -> & X4 & X5)
         (Ey & ny & HEy & [Y0 Y1] & Y2 & -> & Y4 & Y5) L.
  pose proof (pow2_pos Ex) as Px. pose proof (pow2_pos Ey) as Py.
  destruct (Z.lt_trichotomy Ex Ey) as [C|[C|C]].
  - (* the spacing grows: a power of two lies between the two *)
    specialize (Y2 ltac:(lia)).
    rewrite (pow2_scaled Ex 53) in X1 by lia.
    rewrite (pow2_scaled Ey 52) in Y2 by lia.
    pose proof (nearest_below nx (2 ^ 53) _ x Px X4 X1) as Nx.
    pose proof (nearest_above ny (2 ^ 52) _ y Py Y4 Y2) as Ny.
    apply Rle_trans with (pow2 (Ey + 52)).
    + apply Rle_trans with (pow2 (Ex + 53)); [|apply pow2_le; lia].
      rewrite (pow2_scaled Ex 53) by lia.
      apply Rmult_le_compat_r; [lra | apply IZR_le; exact Nx].
    + rewrite (pow2_scaled Ey 52) by lia.
      apply Rmult_le_compat_r; [lra | apply IZR_le; exact Ny].
  - (* the same spacing *)
    subst Ey. set (P := pow2 Ex) in *.
    destruct (Z_le_gt_dec nx ny) as [Le|Gt].
    + apply Rmult_le_compat_r; [lra | apply IZR_le; exact Le].
    + exfalso.
      assert (I : (IZR ny + 1 <= IZR nx)%R)
        by (rewrite <- (plus_IZR ny 1); apply IZR_le; lia).
      pose proof (Rabs_bounds _ _ X4) as Bx. pose proof (Rabs_bounds _ _ Y4) as By.
      assert (Tx : (IZR nx * P - x = P / 2)%R) by nra.
      assert (Ty : (IZR ny * P - y = - (P / 2))%R) by nra.
      assert (N : (IZR nx = IZR ny + 1)%R) by nra.
      rewrite <- (plus_IZR ny 1) in N. apply eq_IZR in N.
      assert (Evx : Z.even nx = true).
      { apply X5. rewrite Tx. apply Rabs_pos_eq. lra. }
      assert (Evy : Z.even ny = true).
      { apply Y5. rewrite Ty, Rabs_Ropp. apply Rabs_pos_eq. lra. }
      rewrite N, Z.even_add, Evy in Evx. discriminate Evx.
  - (* impossible: the spacing does not shrink *)
    exfalso. specialize (X2 ltac:(lia)).
    assert (pow2 (Ey + 53) <= pow2 (Ex + 52))%R by (apply pow2_le; lia). lra.
Qed.

Lemma rounded_unique x V1 V2 : rounded x V1 -> rounded x V2 -> V1 = V2.
Proof.
  intros H1 H2.
  pose proof (rounded_monotone x x V1 V2 H1 H2 ltac:(lra)).
  pose proof (rounded_monotone x x V2 V1 H2 H1 ltac:(lra)). lra.
Qed.

Lemma rounded_zero : rounded 0 0.
Proof.
  exists (-1074), 0. pose proof (pow2_pos (-1074)). pose proof (pow2_pos (-1074 + 53)).
  split; [lia|]. split; [lra|]. split; [lia|]. split; [ring|].
  replace (0 - 0)%R with 0%R by ring. rewrite Rabs_R0. split; [lra | reflexivity].
Qed.

(** A Number is the rounded value of its own value. *)
Lemma rounded_representable s m e :
  valid_binary (S754_finite s m e) = true ->
  rounded (IZR (Zpos m) * pow2 e) (IZR (Zpos m) * pow2 e).
Proof.
  intros V. destruct (valid_finite_bounds s m e V) as (E & M & N).
  pose proof (pow2_pos e) as P.
  exists e, (Zpos m). split; [lia|]. split; [|split; [|split; [reflexivity|]]].
  - split; [pose proof (magnitude_pos m e); lra|].
    rewrite (pow2_scaled e 53) by lia.
    apply Rmult_lt_compat_r; [exact P | apply IZR_lt; exact M].
  - intros H. rewrite (pow2_scaled e 52) by lia.
    apply Rmult_le_compat_r; [lra | apply IZR_le; apply N; exact H].
  - replace (IZR (Zpos m) * pow2 e - IZR (Zpos m) * pow2 e)%R with 0%R by ring.
    rewrite Rabs_R0. split; [lra|]. intros T. lra.
Qed.

Lemma rounded_one : rounded 1 1.
Proof.
  pose proof (rounded_representable false 4503599627370496 (-52) eq_refl) as H.
  assert (E : (IZR (Zpos 4503599627370496) * pow2 (-52) = 1)%R).
  { change (Zpos 4503599627370496) with (2 ^ 52). rewrite <- (pow2_IZR 52) by lia.
    rewrite <- pow2_add. reflexivity. }
  now rewrite E in H.
Qed.

Lemma rounded_nonneg x V : rounded x V -> (0 <= V)%R.
Proof.
  intros H. apply (rounded_monotone 0 x 0 V rounded_zero H).
  destruct H as (E & n & _ & [X0 _] & _). exact X0.
Qed.

(** *** The operations round to nearest *)

Lemma binary_round_rounded s m e :
  exists V : R,
    rounded (IZR (Zpos m) * pow2 e) V /\ numbered s V (binary_round prec emax s m e).
Proof.
  unfold binary_round.
  set (E := fexp prec emax (Zpos (digits2_pos m) + e)).
  destruct (shl_align_spec m e E) as [(L & m' & -> & Q) | (L & ->)].
  - assert (D : Zdigits2 (Zpos m') + E = Zpos (digits2_pos m) + e).
    { rewrite Q, Zdigits2_shift by lia. rewrite Zdigits2_pos. lia. }
    apply binary_round_aux_rounded; [lia | | rewrite D; fold E; lia].
    cbn [located]. rewrite Q, scale_shift by lia. f_equal. f_equal. lia.
  - apply binary_round_aux_rounded; [lia | reflexivity |].
    rewrite Zdigits2_pos. fold E. exact L.
Qed.

(** The difference of two Numbers of the same value is a zero. *)
Lemma SFsub_equal x y :
  fin x -> fin y -> SF2R x = SF2R y -> exists s, SFsub prec emax x y = S754_zero s.
Proof.
  intros [Fx Vx] [Fy Vy] H.
  destruct x as [sx|sx| |sx mx ex]; try discriminate Fx;
    destruct y as [sy|sy| |sy my ey]; try discriminate Fy; cbn [SF2R] in H.
  - destruct sx, sy; eexists; reflexivity.
  - exfalso. pose proof (magnitude_pos my ey). destruct sy; cbn [sgn] in H; lra.
  - exfalso. pose proof (magnitude_pos mx ex). destruct sx; cbn [sgn] in H; lra.
  - cbn [SFsub].
    set (ez := IntDef.Z.min ex ey).
    assert (Hz : ez = Z.min ex ey) by reflexivity.
    set (p := cond_Zopp sx (Zpos (fst (shl_align mx ex ez)))
              - cond_Zopp sy (Zpos (fst (shl_align my ey ez)))).
    assert (P : (IZR p * pow2 ez
                 = SF2R (S754_finite sx mx ex) - SF2R (S754_finite sy my ey))%R).
    { unfold p. rewrite minus_IZR, Rmult_minus_distr_r.
      rewrite !aligned_value by lia. reflexivity. }
    cbn [SF2R] in P. pose proof (pow2_pos ez) as Pz.
    assert (Z0 : IZR p = 0%R) by nra.
    apply eq_IZR in Z0. rewrite Z0. exists false. reflexivity.
Qed.

(** The difference of two Numbers, the larger first, is rounded to
    nearest. *)
Lemma SFsub_rounded x y :
  fin x -> fin y -> (SF2R y < SF2R x)%R ->
  exists V : R,
    rounded (SF2R x - SF2R y) V /\ numbered false V (SFsub prec emax x y).
Proof.
  intros [Fx Vx] [Fy Vy] H.
  destruct x as [sx|sx| |sx mx ex]; try discriminate Fx;
    destruct y as [sy|sy| |sy my ey]; try discriminate Fy; cbn [SF2R] in H.
  - lra.
  - pose proof (magnitude_pos my ey) as M.
    destruct sy; cbn [sgn] in H; [|lra].
    cbn [SFsub negb SF2R sgn].
    exists (IZR (Zpos my) * pow2 ey)%R. split.
    + match goal with
      | |- rounded ?a _ => replace a with (IZR (Zpos my) * pow2 ey)%R by ring
      end.
      apply (rounded_representable true my ey Vy).
    + split; [exact Vy|]. right. left. split.
      * apply (SF2R_below_infinity true my ey Vy).
      * exists my, ey. split; reflexivity.
  - pose proof (magnitude_pos mx ex) as M.
    destruct sx; cbn [sgn] in H; [lra|].
    cbn [SFsub SF2R sgn].
    exists (IZR (Zpos mx) * pow2 ex)%R. split.
    + match goal with
      | |- rounded ?a _ => replace a with (IZR (Zpos mx) * pow2 ex)%R by ring
      end.
      apply (rounded_representable false mx ex Vx).
    + split; [exact Vx|]. right. left. split.
      * apply (SF2R_below_infinity false mx ex Vx).
      * exists mx, ex. split; reflexivity.
  - cbn [SFsub].
    set (ez := IntDef.Z.min ex ey).
    assert (Hz : ez = Z.min ex ey) by reflexivity.
    set (p := cond_Zopp sx (Zpos (fst (shl_align mx ex ez)))
              - cond_Zopp sy (Zpos (fst (shl_align my ey ez)))).
    assert (P : (IZR p * pow2 ez
                 = SF2R (S754_finite sx mx ex) - SF2R (S754_finite sy my ey))%R).
    { unfold p. rewrite minus_IZR, Rmult_minus_distr_r.
      rewrite !aligned_value by lia. reflexivity. }
    rewrite <- P. cbn [SF2R] in P. pose proof (pow2_pos ez) as Pz.
    assert (Pp : (0 < IZR p)%R) by nra.
    apply lt_IZR in Pp.
    destruct p as [|m|m]; try lia.
    cbn [binary_normalize]. apply binary_round_rounded.
Qed.

(** The place that the division gives to its remainder. *)
Lemma new_location_located (q m2 r e' : Z) :
  0 < m2 -> 0 <= r < m2 ->
  located ((IZR q + IZR r / IZR m2) * pow2 e') q e' (new_location m2 r).
Proof.
  intros Hm Hr. pose proof (pow2_pos e') as P.
  assert (M : (0 < IZR m2)%R) by (apply IZR_lt; exact Hm).
  set (t := (IZR r / IZR m2)%R).
  assert (T : (t * IZR m2 = IZR r)%R) by (unfold t; field; lra).
  assert (L : new_location m2 r
              = if r =? 0 then loc_Exact else loc_Inexact (2 * r ?= m2)).
  { unfold new_location, new_location_even, new_location_odd.
    change (IntDef.Z.even m2) with (Z.even m2).
    change (IntDef.Z.eqb r 0) with (r =? 0).
    destruct (Z.even m2) eqn:Ev; [reflexivity|].
    destruct (r =? 0); [reflexivity|]. f_equal.
    change (IntDef.Z.compare (IntDef.Z.add (IntDef.Z.mul 2 r) 1) m2)
      with (2 * r + 1 ?= m2).
    assert (O : Z.odd m2 = true) by (rewrite <- Z.negb_even, Ev; reflexivity).
    apply Z.odd_spec in O. destruct O as [k O].
    destruct (Z.compare_spec (2 * r + 1) m2), (Z.compare_spec (2 * r) m2);
      try reflexivity; lia. }
  rewrite L. destruct (Z.eqb_spec r 0) as [R0|R0].
  - cbn [located]. unfold t. rewrite R0. unfold Rdiv. rewrite Rmult_0_l, Rplus_0_r.
    reflexivity.
  - assert (R1 : (1 <= IZR r)%R) by (apply IZR_le; lia).
    assert (R2 : (IZR r + 1 <= IZR m2)%R)
      by (rewrite <- (plus_IZR r 1); apply IZR_le; lia).
    destruct (Z.compare_spec (2 * r) m2) as [C|C|C]; cbn [located].
    + assert (2 * IZR r = IZR m2)%R by (rewrite <- C, mult_IZR; reflexivity).
      assert (t = 1 / 2)%R by nra. rewrite H0. reflexivity.
    + assert (2 * IZR r + 1 <= IZR m2)%R
        by (rewrite <- (mult_IZR 2 r), <- (plus_IZR _ 1); apply IZR_le; lia).
      assert (0 < t < 1 / 2)%R by (split; nra). nra.
    + assert (IZR m2 + 1 <= 2 * IZR r)%R
        by (rewrite <- (mult_IZR 2 r), <- (plus_IZR _ 1); apply IZR_le; lia).
      assert (1 / 2 < t < 1)%R by (split; nra). nra.
Qed.

(** The quotient handed to the rounding, with its place. *)
Lemma SFdiv_core_located m1 e1 m2 e2 :
  let x := ((IZR (Zpos m1) * pow2 e1) / (IZR (Zpos m2) * pow2 e2))%R in
  exists q e' l,
    SFdiv_core_binary prec emax (Zpos m1) e1 (Zpos m2) e2 = (q, e', l)
    /\ 0 <= q
    /\ located x q e' l
    /\ e' <= fexp prec emax (Zdigits2 q + e').
Proof.
  intros x.
  destruct (SFdiv_core_spec m1 e1 m2 e2) as (q0 & e0 & l0 & Q0 & Hq & _ & _ & HE).
  revert Q0. unfold SFdiv_core_binary.
  rewrite !Zdigits2_pos.
  set (d1 := Zpos (digits2_pos m1)). set (d2 := Zpos (digits2_pos m2)).
  set (e' := IntDef.Z.min (fexp prec emax (d1 + e1 - (d2 + e2))) (e1 - e2)).
  assert (He' : e' = Z.min (fexp prec emax (d1 + e1 - (d2 + e2))) (e1 - e2))
    by reflexivity.
  set (s := e1 - e2 - e').
  assert (Hs : 0 <= s) by (unfold s; lia).
  set (m' := match s with
             | 0 => Zpos m1
             | Zpos _ => IntDef.Z.shiftl (Zpos m1) s
             | Zneg _ => 0
             end).
  assert (Hm' : m' = Zpos m1 * 2 ^ s).
  { unfold m'. destruct s as [|p|p] eqn:Q; [lia | | lia].
    change (IntDef.Z.shiftl (Zpos m1) (Zpos p)) with (Z.shiftl (Zpos m1) (Zpos p)).
    apply Z.shiftl_mul_pow2. lia. }
  clearbody m'.
  pose proof (Z.div_eucl_eq m' (Zpos m2) ltac:(lia)) as DE.
  pose proof (Z.mod_pos_bound m' (Zpos m2) ltac:(lia)) as MB.
  unfold Z.modulo in MB.
  change (IntDef.Z.div_eucl m' (Zpos m2)) with (Z.div_eucl m' (Zpos m2)).
  destruct (Z.div_eucl m' (Zpos m2)) as [q r] eqn:QR.
  intros Q0. injection Q0 as <- <- <-.
  exists q, e', (new_location (Zpos m2) r).
  split; [reflexivity|]. split; [exact Hq|]. split; [|exact HE].
  pose proof (pow2_pos e') as Pe'. pose proof (pow2_pos e2) as Pe2.
  assert (M2 : (0 < IZR (Zpos m2))%R) by (apply IZR_lt; lia).
  assert (X : x = ((IZR q + IZR r / IZR (Zpos m2)) * pow2 e')%R).
  { assert (N : (IZR (Zpos m1) * pow2 e1 = IZR m' * pow2 e' * pow2 e2)%R).
    { rewrite Hm', mult_IZR, <- (pow2_IZR s Hs).
      replace (pow2 e1) with (pow2 (s + e' + e2)) by (f_equal; unfold s; lia).
      rewrite !pow2_add. ring. }
    unfold x. rewrite N, DE, plus_IZR, mult_IZR. field. split; lra. }
  rewrite X. apply new_location_located; lia.
Qed.

(** The quotient of two positive Numbers is rounded to nearest. *)
Lemma SFdiv_rounded mx ex my ey :
  exists V : R,
    rounded ((IZR (Zpos mx) * pow2 ex) / (IZR (Zpos my) * pow2 ey)) V
    /\ numbered false V
         (SFdiv prec emax (S754_finite false mx ex) (S754_finite false my ey)).
Proof.
  cbn [SFdiv xorb].
  destruct (SFdiv_core_located mx ex my ey) as (q & e' & l & -> & Hq & L & HE).
  apply binary_round_aux_rounded; assumption.
Qed.

(** *** The scaling of prepareData stays between 0 and 1 *)

Lemma Prim2SF_one : Prim2SF one = S754_finite false 4503599627370496 (-52).
Proof. reflexivity. Qed.

Lemma NaNOrUnit_zero s : NaNOrUnit (S754_zero s).
Proof. right. rewrite Prim2SF_one. split; reflexivity. Qed.

Lemma numbered_infinity V :
  (pow2 1024 <= V)%R -> numbered false V (S754_infinity false).
Proof. intros H. split; [reflexivity|]. right. right. split; [exact H | reflexivity]. Qed.

(** A zero divided by a Number that is not negative. *)
Lemma SFdiv_zero_numbered s V b :
  numbered false V b -> NaNOrUnit (SFdiv prec emax (S754_zero s) b).
Proof.
  intros [_ [(_ & ->) | [(_ & m & e & -> & _) | (_ & ->)]]]; cbn [SFdiv].
  - left. reflexivity.
  - apply NaNOrUnit_zero.
  - apply NaNOrUnit_zero.
Qed.

(** The quotient of two Numbers that are not negative, the smaller by the
    larger. *)
Lemma SFdiv_ordered Va Vb a b :
  numbered false Va a -> numbered false Vb b -> (Va <= Vb)%R ->
  NaNOrUnit (SFdiv prec emax a b).
Proof.
  pose proof (pow2_pos 1024) as P1024.
  intros [VA [(A0 & ->) | [(A1 & ma & ea & -> & QA) | (A2 & ->)]]] HB L.
  - apply (SFdiv_zero_numbered false Vb b HB).
  - destruct HB as [VB [(B0 & ->) | [(B1 & mb & eb & -> & QB) | (B2 & ->)]]].
    + lra.
    + destruct (SFdiv_rounded ma ea mb eb) as (V & R & N).
      rewrite QA, QB in R.
      assert (X : (Va / Vb <= 1)%R).
      { apply Rmult_le_reg_r with Vb; [lra|]. unfold Rdiv.
        rewrite Rmult_assoc, Rinv_l, Rmult_1_r, Rmult_1_l by lra. exact L. }
      pose proof (rounded_monotone _ _ _ _ R rounded_one X) as V1.
      pose proof (pow2_le 1 1024 ltac:(lia)) as P. change (pow2 1) with (2 * 1)%R in P.
      destruct N as [VN [(N0 & ->) | [(N1 & m & e & EN & QN) | (N2 & _)]]].
      * apply NaNOrUnit_zero.
      * rewrite EN in *. right. split; [reflexivity|].
        unfold SFleb.
        destruct (SFcompare_spec (S754_finite false m e) (Prim2SF one))
          as (c & -> & C).
        { split; [reflexivity | exact VN]. }
        { split; reflexivity. }
        rewrite Prim2SF_one in C. cbn [SF2R sgn] in C.
        assert (O : (1 * IZR (Zpos 4503599627370496) * pow2 (-52) = 1)%R).
        { change (Zpos 4503599627370496) with (2 ^ 52).
          rewrite <- (pow2_IZR 52), Rmult_1_l, <- pow2_add by lia. reflexivity. }
        rewrite O in C.
        destruct c; cbn [Rcomparison] in C; try reflexivity. lra.
      * lra.
    + cbn [SFdiv xorb]. apply NaNOrUnit_zero.
  - destruct HB as [VB [(B0 & ->) | [(B1 & mb & eb & -> & QB) | (B2 & ->)]]].
    + lra.
    + lra.
    + left. reflexivity.
Qed.

(** The scaled value, for three finite Numbers in order. *)
Lemma SFnormalize_fin v lo hi :
  fin v -> fin lo -> fin hi ->
  (SF2R lo <= SF2R v <= SF2R hi)%R ->
  NaNOrUnit (SFdiv prec emax (SFsub prec emax v lo) (SFsub prec emax hi lo)).
Proof.
  intros Fv Fl Fh [L1 L2].
  destruct (Req_dec (SF2R hi) (SF2R lo)) as [EY|NY].
  - destruct (SFsub_equal hi lo Fh Fl EY) as [sb ->].
    destruct (SFsub_equal v lo Fv Fl ltac:(lra)) as [sa ->].
    left. reflexivity.
  - destruct (SFsub_rounded hi lo Fh Fl ltac:(lra)) as (Vb & Rb & Nb).
    destruct (Req_dec (SF2R v) (SF2R lo)) as [EX|NX].
    + destruct (SFsub_equal v lo Fv Fl EX) as [sa ->].
      apply (SFdiv_zero_numbered sa Vb _ Nb).
    + destruct (SFsub_rounded v lo Fv Fl ltac:(lra)) as (Va & Ra & Na).
      apply (SFdiv_ordered Va Vb _ _ Na Nb).
      apply (rounded_monotone _ _ _ _ Ra Rb). lra.
Qed.

(** The scaled value when the upper end of the range is infinite. *)
Lemma SFnormalize_upto_infinity v lo :
  fin v -> fin lo -> (SF2R lo <= SF2R v)%R ->
  NaNOrUnit (SFdiv prec emax (SFsub prec emax v lo) (S754_infinity false)).
Proof.
  intros Fv Fl L.
  destruct (Req_dec (SF2R v) (SF2R lo)) as [EX|NX].
  - destruct (SFsub_equal v lo Fv Fl EX) as [sa ->]. apply NaNOrUnit_zero.
  - destruct (SFsub_rounded v lo Fv Fl ltac:(lra)) as (Va & Ra & Na).
    apply (SFdiv_ordered Va (Rmax Va (pow2 1024)) _ _ Na).
    + apply numbered_infinity. apply Rmax_r.
    + apply Rmax_l.
Qed.

Lemma SFnormalize_unit v lo hi :
  valid_binary v = true -> valid_binary lo = true -> valid_binary hi = true ->
  SFleb lo v = true -> SFleb v hi = true ->
  NaNOrUnit (SFdiv prec emax (SFsub prec emax v lo) (SFsub prec emax hi lo)).
Proof.
  intros Vv Vl Vh L1 L2.
  destruct lo as [sl|[|]| |sl ml el]; destruct v as [sv|[|]| |sv mv ev];
    destruct hi as [sh|[|]| |sh mh eh];
    try discriminate L1; try discriminate L2;
    try (left; reflexivity);
    try (apply SFnormalize_fin;
         [split; [reflexivity | assumption] ..
         | split; apply SFleb_sound;
           first [assumption | split; [reflexivity | assumption]]]);
    try (match goal with
         | |- NaNOrUnit (SFdiv _ _ _ (SFsub _ _ (S754_infinity false) ?l)) =>
             change (SFsub prec emax (S754_infinity false) l) with (S754_infinity false)
         end;
         apply SFnormalize_upto_infinity;
         [split; [reflexivity | assumption] ..
         | apply SFleb_sound;
           first [assumption | split; [reflexivity | assumption]]]).
  all: try (destruct sv; discriminate L1).
  all: try (destruct sv; discriminate L2).
  all: try (destruct sl; discriminate L1).
  all: try (destruct sh; discriminate L2).
Qed.

(** Every finite Number is a multiple of the least positive one. *)
Lemma fin_grid x : fin x -> exists k : Z, SF2R x = (IZR k * pow2 (-1074))%R.
Proof.
  intros [F V]. destruct x as [s|s| |s m e]; try discriminate F.
  - exists 0. cbn [SF2R]. ring.
  - destruct (valid_finite_bounds s m e V) as (E & _).
    exists (cond_Zopp s (Zpos m * 2 ^ (e + 1074))).
    rewrite IZR_cond_Zopp, Rmult_assoc, scale_shift by lia. cbn [SF2R].
    replace (-1074 + (e + 1074)) with e by lia. ring.
Qed.

Lemma fin_gap x y :
  fin x -> fin y -> (SF2R y < SF2R x)%R -> (pow2 (-1074) <= SF2R x - SF2R y)%R.
Proof.
  intros Fx Fy H.
  destruct (fin_grid x Fx) as [kx Ex]. destruct (fin_grid y Fy) as [ky Ey].
  rewrite Ex, Ey in *.
  pose proof (pow2_pos (-1074)) as P.
  assert (L : (IZR ky < IZR kx)%R) by nra.
  apply lt_IZR in L.
  assert (I : (IZR ky + 1 <= IZR kx)%R)
    by (rewrite <- (plus_IZR ky 1); apply IZR_le; lia).
  nra.
Qed.

Lemma rounded_positive x V : rounded x V -> (pow2 (-1074) <= x)%R -> (0 < V)%R.
Proof.
  intros (E & n & HE & [X0 X1] & X2 & -> & X4 & _) H.
  pose proof (pow2_pos E) as P.
  assert (L : (IZR 1 * pow2 E <= x)%R).
  { rewrite Rmult_1_l. destruct (Z.eq_dec E (-1074)) as [->|NE]; [exact H|].
    apply Rle_trans with (pow2 (E + 52)); [apply pow2_le; lia | apply X2; lia]. }
  pose proof (nearest_above n 1 _ x P X4 L) as N.
  apply Rmult_lt_0_compat; [apply IZR_lt; lia | exact P].
Qed.

(** The difference of two finite Numbers, the larger first, is positive
    after rounding. *)
Lemma SFsub_positive x y :
  fin x -> fin y -> (SF2R y < SF2R x)%R ->
  exists V : R,
    rounded (SF2R x - SF2R y) V /\ (0 < V)%R
    /\ numbered false V (SFsub prec emax x y).
Proof.
  intros Fx Fy H.
  destruct (SFsub_rounded x y Fx Fy H) as (V & R & N).
  exists V. split; [exact R|]. split; [|exact N].
  apply (rounded_positive _ _ R). apply fin_gap; assumption.
Qed.

(** The Number of value 1 in canonical form is [one]. *)
Lemma finite_one m e :
  valid_binary (S754_finite false m e) = true ->
  (IZR (Zpos m) * pow2 e)%R = 1%R ->
  S754_finite false m e = Prim2SF one.
Proof.
  intros V H. rewrite Prim2SF_one.
  destruct (SFcompare_spec (S754_finite false m e)
              (S754_finite false 4503599627370496 (-52))) as (c & C & RC).
  { split; [reflexivity | exact V]. }
  { split; reflexivity. }
  cbn [SF2R sgn] in RC.
  assert (O : (1 * IZR (Zpos 4503599627370496) * pow2 (-52) = 1)%R).
  { change (Zpos 4503599627370496) with (2 ^ 52).
    rewrite <- (pow2_IZR 52), Rmult_1_l, <- pow2_add by lia. reflexivity. }
  rewrite O, Rmult_1_l, H in RC.
  destruct c; cbn [Rcomparison] in RC; try lra.
  cbn [SFcompare] in C.
  destruct (Z.compare_spec e (-52)) as [Q|Q|Q].
  2: discriminate C.
  2: discriminate C.
  rewrite Pos.compare_cont_spec in C.
  destruct (Pos.compare_spec m 4503599627370496) as [M|M|M];
    cbn [Pos.switch_Eq] in C; [|discriminate C ..].
  subst. reflexivity.
Qed.

(** The ends of a range that is not a single point and whose width is
    finite are scaled to 0 and to 1, and nothing in between to NaN. *)
Lemma SFnormalize_ends lo hi :
  valid_binary lo = true -> valid_binary hi = true ->
  SFltb lo hi = true ->
  SFfinite (SFsub prec emax hi lo) = true ->
  SFdiv prec emax (SFsub prec emax lo lo) (SFsub prec emax hi lo) = S754_zero false
  /\ SFdiv prec emax (SFsub prec emax hi lo) (SFsub prec emax hi lo) = Prim2SF one
  /\ forall v, valid_binary v = true -> SFleb lo v = true -> SFleb v hi = true ->
       SFdiv prec emax (SFsub prec emax v lo) (SFsub prec emax hi lo) <> S754_nan.
Proof.
  intros Vl Vh L F.
  assert (Fl : fin lo).
  { split; [|exact Vl].
    destruct lo as [sl|[|]| |sl ml el]; try reflexivity;
      destruct hi as [sh|[|]| |sh mh eh]; try discriminate L; discriminate F. }
  assert (Fh : fin hi).
  { split; [|exact Vh].
    destruct hi as [sh|[|]| |sh mh eh]; try reflexivity;
      destruct lo as [sl|[|]| |sl ml el]; try discriminate L;
      try discriminate F; destruct Fl; discriminate. }
  pose proof (SFltb_sound lo hi Fl Fh L) as LR.
  destruct (SFsub_positive hi lo Fh Fl LR) as (Vb & Rb & Pb & Vbv & Nb).
  pose proof (pow2_pos 1024) as P1024.
  destruct Nb as [(B0 & _) | [(B1 & mb & eb & Eb & Qb) | (B2 & Eb)]];
    [lra | | rewrite Eb in F; discriminate F].
  rewrite Eb in *.
  assert (D : SFsub prec emax lo lo = S754_zero false).
  { destruct Fl as [Fl _].
    destruct lo as [[]|[]| |sl ml el]; try discriminate Fl; try reflexivity.
    cbn [SFsub]. rewrite Z.sub_diag. reflexivity. }
  split; [rewrite D; reflexivity|]. split.
  - destruct (SFdiv_rounded mb eb mb eb) as (V & R & VN & N).
    assert (Xb : (IZR (Zpos mb) * pow2 eb / (IZR (Zpos mb) * pow2 eb) = 1)%R).
    { unfold Rdiv. apply Rinv_r. rewrite Qb. lra. }
    rewrite Xb in R.
    pose proof (rounded_unique 1 V 1 R rounded_one) as V1. subst V.
    destruct N as [(N0 & _) | [(N1 & m & e & EN & QN) | (N2 & _)]]; [lra | | ].
    + rewrite EN in *. apply finite_one; assumption.
    + pose proof (pow2_le 1 1024 ltac:(lia)) as P. change (pow2 1) with (2 * 1)%R in P.
      lra.
  - intros v Vv L1 L2 N.
    assert (Fv : fin v).
    { split; [|exact Vv].
      destruct v as [sv|[|]| |sv mv ev]; try reflexivity;
        destruct Fl as [Fl _], Fh as [Fh _];
        destruct lo as [sl|[|]| |sl ml el]; try discriminate Fl; try discriminate L1;
        destruct hi as [sh|[|]| |sh mh eh]; try discriminate Fh; discriminate L2. }
    pose proof (SFleb_sound lo v Fl Fv L1) as R1.
    pose proof (SFleb_sound v hi Fv Fh L2) as R2.
    destruct (Req_dec (SF2R v) (SF2R lo)) as [EX|NX].
    + destruct (SFsub_equal v lo Fv Fl EX) as [sa Ea]. rewrite Ea in N.
      discriminate N.
    + destruct (SFsub_rounded v lo Fv Fl ltac:(lra)) as (Va & Ra & VA & Na).
      pose proof (rounded_monotone _ _ _ _ Ra Rb ltac:(lra)) as Le.
      destruct Na as [(A0 & Ea) | [(A1 & ma & ea & Ea & Qa) | (A2 & Ea)]];
        rewrite Ea in *.
      * discriminate N.
      * destruct (SFdiv_rounded ma ea mb eb) as (V & _ & VN & NN).
        rewrite N in NN.
        destruct NN as [(_ & NN) | [(_ & m & e & NN & _) | (_ & NN)]]; discriminate NN.
      * lra.
Qed.

(** The scaling of [prepareData], in binary64 arithmetic with all its
    roundings: for every value of a range, [(value - min) / (max - min)] is
    NaN or a Number from 0 to 1. *)
Lemma normalize_unit_interval (value min max : float) :
  (min <=? value)%float = true -> (value <=? max)%float = true ->
  isNaN (normalize value min max) = true
  \/ ((0 <=? normalize value min max)%float = true
      /\ (normalize value min max <=? 1)%float = true).
Proof.
  rewrite !FloatAxioms.leb_spec. intros L1 L2.
  unfold normalize. cbn [divide_ minus_ NumberArithmetic].
  rewrite div_spec, !sub_spec.
  destruct (SFnormalize_unit (Prim2SF value) (Prim2SF min) (Prim2SF max)
              (Prim2SF_valid _) (Prim2SF_valid _) (Prim2SF_valid _) L1 L2) as [N|U].
  - left. apply isNaN_spec. rewrite div_spec, !sub_spec. exact N.
  - right. exact U.
Qed.

(** When the range is not a single point and its width [max - min] is
    finite, the scaling sends [min] to 0 and [max] to 1 exactly, and no
    value of the range to NaN. *)
Lemma normalize_ends (min max : float) :
  (min <? max)%float = true ->
  PrimFloat.is_finite (max - min) = true ->
  normalize min min max = zero
  /\ normalize max min max = one
  /\ forall value,
       (min <=? value)%float = true -> (value <=? max)%float = true ->
       isNaN (normalize value min max) = false.
Proof.
  rewrite FloatAxioms.ltb_spec. intros L F.
  apply is_finite_Prim2SF in F. rewrite sub_spec in F.
  assert (F' : SFfinite (SFsub prec emax (Prim2SF max) (Prim2SF min)) = true).
  { change SF64sub with (SFsub prec emax) in F.
    destruct (SFsub prec emax (Prim2SF max) (Prim2SF min)); (reflexivity || contradiction). }
  destruct (SFnormalize_ends (Prim2SF min) (Prim2SF max)
              (Prim2SF_valid _) (Prim2SF_valid _) L F') as (E0 & E1 & EN).
  unfold normalize. cbn [divide_ minus_ NumberArithmetic].
  split; [|split].
  - apply Prim2SF_inj. rewrite div_spec, !sub_spec. exact E0.
  - apply Prim2SF_inj. rewrite div_spec, !sub_spec. exact E1.
  - intros value L1 L2. rewrite FloatAxioms.leb_spec in L1, L2.
    destruct (isNaN ((value - min) / (max - min))) eqn:N; [|reflexivity].
    exfalso. apply isNaN_spec in N. rewrite div_spec, !sub_spec in N.
    exact (EN (Prim2SF value) (Prim2SF_valid _) L1 L2 N).
Qed.

(** ** prepareData: the arrays handed to the model *)

Lemma scaled_unit (l : list float) :
  Forall (fun x => isNaN x = false) l ->
  Forall (fun s => isNaN s = true
                   \/ ((0 <=? s)%float = true /\ (s <=? 1)%float = true))
         (map (fun x => normalize x (Math_min l) (Math_max l)) l).
Proof.
  intros N. destruct (Math_min_spec l N) as (_ & Lo & _).
  destruct (Math_max_spec l N) as (_ & Hi & _).
  apply Forall_forall. intros s Hs. apply in_map_iff in Hs.
  destruct Hs as (x & <- & Hx).
  apply normalize_unit_interval;
    [exact (proj1 (Forall_forall _ _) Lo x Hx) | exact (proj1 (Forall_forall _ _) Hi x Hx)].
Qed.

Lemma scaled_ends (l : list float) :
  Forall (fun x => isNaN x = false) l ->
  (Math_min l <? Math_max l)%float = true ->
  PrimFloat.is_finite (Math_max l - Math_min l) = true ->
  Forall (fun s => isNaN s = false)
         (map (fun x => normalize x (Math_min l) (Math_max l)) l)
  /\ In zero (map (fun x => normalize x (Math_min l) (Math_max l)) l)
  /\ In one (map (fun x => normalize x (Math_min l) (Math_max l)) l).
Proof.
  intros N L F.
  assert (NE : l <> []) by (intros ->; discriminate L).
  destruct (Math_min_spec l N) as (_ & Lo & Imin). specialize (Imin NE).
  destruct (Math_max_spec l N) as (_ & Hi & Imax). specialize (Imax NE).
  destruct (normalize_ends (Math_min l) (Math_max l) L F) as (E0 & E1 & EN).
  split; [|split].
  - apply Forall_forall. intros s Hs. apply in_map_iff in Hs.
    destruct Hs as (x & <- & Hx).
    apply EN;
      [exact (proj1 (Forall_forall _ _) Lo x Hx) | exact (proj1 (Forall_forall _ _) Hi x Hx)].
  - apply in_map_iff. exists (Math_min l). split; [exact E0 | exact Imin].
  - apply in_map_iff. exists (Math_max l). split; [exact E1 | exact Imax].
Qed.

(** A timestamp that is not NaN is the Number of a time value in the range
    of a Date, and the difference of two of them is finite. *)
Lemma parsedDate_time LocalTZA row :
  isNaN (parsedDate LocalTZA row) = false ->
  exists t, (- maxTime) <= t <= maxTime /\ parsedDate LocalTZA row = numberOfZ t.
Proof.
  unfold parsedDate, getTime, numberOfTime.
  destruct (newDateOfString LocalTZA (formatDateToISO LocalTZA (Raw.Date row)))
    as [t|] eqn:D; [|discriminate].
  intros _. exists t. split; [|reflexivity].
  exact (newDateOfString_valid LocalTZA _ t D).
Qed.

Lemma numberOfZ_time t :
  (- maxTime) <= t <= maxTime ->
  finite (numberOfZ t) /\ (Rabs (B2R (numberOfZ t)) <= pow2 54)%R.
Proof.
  intros Ht. unfold finite, B2R, numberOfZ.
  assert (X : (Rabs (IZR t * pow2 0) <= pow2 53)%R).
  { change (pow2 0) with 1%R. rewrite Rmult_1_r, (pow2_IZR 53) by lia.
    change (2 ^ 53) with 9007199254740992.
    apply Rabs_le. rewrite <- opp_IZR. unfold maxTime in Ht. split; apply IZR_le; lia. }
  destruct (binary_normalize_spec t 0 ltac:(lia)) as [F B].
  { eapply Rle_trans; [exact X | apply pow2_le; lia]. }
  rewrite Prim2SF_SF2Prim by apply F.
  split; [exact F|].
  pose proof EPSILON_quarter as U. pose proof EPSILON_pos as U0.
  pose proof (Rabs_pos (IZR t * pow2 0)) as A0.
  assert (T : (Rabs (SF2R (binary_normalize prec emax t 0 false))
               <= Rabs (IZR t * pow2 0)
                  + Rabs (SF2R (binary_normalize prec emax t 0 false) - IZR t * pow2 0))%R).
  { replace (SF2R (binary_normalize prec emax t 0 false))
      with (IZR t * pow2 0
            + (SF2R (binary_normalize prec emax t 0 false) - IZR t * pow2 0))%R at 1 by ring.
    apply Rabs_triang. }
  replace 54 with (53 + 1) by lia. rewrite pow2_succ. nra.
Qed.

Lemma timestamps_width (a b : float) :
  finite a -> finite b ->
  (Rabs (B2R a) <= pow2 54)%R -> (Rabs (B2R b) <= pow2 54)%R ->
  PrimFloat.is_finite (a - b) = true.
Proof.
  intros Fa Fb Ba Bb. apply finite_is_finite. unfold finite. rewrite sub_spec.
  apply SFsub_spec; [exact Fa | exact Fb |].
  unfold B2R in *.
  set (A := SF2R (Prim2SF a)) in *. set (B := SF2R (Prim2SF b)) in *.
  assert (T : (Rabs (A - B) <= Rabs A + Rabs B)%R).
  { replace (A - B)%R with (A + - B)%R by ring.
    eapply Rle_trans; [apply Rabs_triang|]. rewrite Rabs_Ropp. lra. }
  assert (P : (pow2 55 <= pow2 1023)%R) by (apply pow2_le; lia).
  replace 55 with (54 + 1) in P by lia. rewrite pow2_succ in P. lra.
Qed.

(** X19.  Every number of the two arrays that [prepareData] hands to the
    model is NaN or a Number from 0 to 1: the roundings of the two
    subtractions and of the division never take a scaled date or a scaled
    price outside the unit interval. *)
Theorem prepareData_scaled_unit LocalTZA data r :
  prepareData LocalTZA data = Returns r ->
  Forall (fun x => isNaN x = true
                   \/ ((0 <=? x)%float = true /\ (x <=? 1)%float = true)) (xs r)
  /\ Forall (fun y => isNaN y = true
                      \/ ((0 <=? y)%float = true /\ (y <=? 1)%float = true)) (ys r).
Proof.
  intros H.
  destruct (prepareData_returns LocalTZA data r H)
    as (ND & NP & -> & -> & -> & -> & -> & ->).
  split; apply scaled_unit; assumption.
Qed.

Lemma prepareData_scaled_unit_witness :
  let data := [ {| Raw.Date := "01-Apr-2024"; Raw.close := "3,883.85" |};
                {| Raw.Date := "02-Apr-2024"; Raw.close := "3,900.50" |} ] in
  exists r,
    prepareData 19800000 data = Returns r
    /\ Forall (fun x => isNaN x = true
                        \/ ((0 <=? x)%float = true /\ (x <=? 1)%float = true)) (xs r)
    /\ Forall (fun y => isNaN y = true
                        \/ ((0 <=? y)%float = true /\ (y <=? 1)%float = true)) (ys r).
Proof.
  intros data. eexists. split; [vm_compute; reflexivity|].
  apply (prepareData_scaled_unit 19800000 data). vm_compute. reflexivity.
Defined.

(** X20.  When the table holds two different dates, no scaled date is NaN,
    and the earliest date is scaled to 0 and the latest to 1, exactly. *)
Theorem prepareData_scaled_dates LocalTZA data r :
  prepareData LocalTZA data = Returns r ->
  (minDate r <? maxDate r)%float = true ->
  Forall (fun x => isNaN x = false) (xs r) /\ In zero (xs r) /\ In one (xs r).
Proof.
  intros H.
  destruct (prepareData_returns LocalTZA data r H)
    as (ND & NP & -> & -> & _ & _ & -> & _).
  intros L. apply scaled_ends; [exact ND | exact L |].
  set (l := map (parsedDate LocalTZA) data) in *.
  assert (NE : l <> []) by (intros E; rewrite E in L; discriminate L).
  assert (T : forall d, In d l -> finite d /\ (Rabs (B2R d) <= pow2 54)%R).
  { intros d Hd. unfold l in Hd. apply in_map_iff in Hd.
    destruct Hd as (row & <- & Hrow).
    assert (N : isNaN (parsedDate LocalTZA row) = false).
    { apply (proj1 (Forall_forall _ _) ND). apply in_map. exact Hrow. }
    destruct (parsedDate_time LocalTZA row N) as (t & Ht & ->).
    apply numberOfZ_time. exact Ht. }
  destruct (Math_max_spec l ND) as (_ & _ & Imax).
  destruct (Math_min_spec l ND) as (_ & _ & Imin).
  destruct (T _ (Imax NE)) as [F1 B1]. destruct (T _ (Imin NE)) as [F2 B2].
  apply timestamps_width; assumption.
Qed.

Lemma prepareData_scaled_dates_witness :
  let data := [ {| Raw.Date := "01-Apr-2024"; Raw.close := "3,883.85" |};
                {| Raw.Date := "02-Apr-2024"; Raw.close := "3,900.50" |} ] in
  exists r,
    prepareData 19800000 data = Returns r
    /\ (minDate r <? maxDate r)%float = true
    /\ Forall (fun x => isNaN x = false) (xs r) /\ In zero (xs r) /\ In one (xs r).
Proof.
  intros data. eexists. split; [vm_compute; reflexivity|].
  split; [vm_compute; reflexivity|].
  apply (prepareData_scaled_dates 19800000 data); vm_compute; reflexivity.
Defined.

(** X21.  When two prices of the table differ and the width of their range
    is finite, no scaled price is NaN, and the lowest price is scaled to 0
    and the highest to 1, exactly. *)
Theorem prepareData_scaled_prices LocalTZA data r :
  prepareData LocalTZA data = Returns r ->
  (minPrice r <? maxPrice r)%float = true ->
  PrimFloat.is_finite (maxPrice r - minPrice r) = true ->
  Forall (fun y => isNaN y = false) (ys r) /\ In zero (ys r) /\ In one (ys r).
Proof.
  intros H.
  destruct (prepareData_returns LocalTZA data r H)
    as (ND & NP & _ & _ & -> & -> & _ & ->).
  intros L F. apply scaled_ends; assumption.
Qed.

Lemma prepareData_scaled_prices_witness :
  let data := [ {| Raw.Date := "01-Apr-2024"; Raw.close := "3,883.85" |};
                {| Raw.Date := "02-Apr-2024"; Raw.close := "3,900.50" |} ] in
  exists r,
    prepareData 19800000 data = Returns r
    /\ (minPrice r <? maxPrice r)%float = true
    /\ PrimFloat.is_finite (maxPrice r - minPrice r) = true
    /\ Forall (fun y => isNaN y = false) (ys r) /\ In zero (ys r) /\ In one (ys r).
Proof.
  intros data. eexists. split; [vm_compute; reflexivity|].
  split; [vm_compute; reflexivity|]. split; [vm_compute; reflexivity|].
  apply (prepareData_scaled_prices 19800000 data); vm_compute; reflexivity.
Defined.

(** ** Prices that prepareData rejects *)

(** X22.  A close cell in which, once the commas are removed, nothing is
    left, or the first character is neither white space nor a digit, a
    sign, a point or the I of Infinity (a currency symbol, a letter, a
    quote), is parsed to NaN, and [prepareData] throws its error for any
    table that holds such a row. *)
Theorem prepareData_rejects_unreadable_price LocalTZA data row :
  In row data ->
  match replaceAll "," "" (Raw.close row) with
  | "" => True
  | String c _ =>
      isWhiteSpace c = false /\ isDigit c = false
      /\ ~ In c ["+"; "-"; "."; "I"]%char
  end ->
  isNaN (parsedPrice row) = true
  /\ prepareData LocalTZA data = Throws (Error "Data contains NaN values").
Proof.
  intros Hin H.
  assert (N : isNaN (parsedPrice row) = true).
  { unfold parsedPrice, parseFloat.
    destruct (replaceAll "," "" (Raw.close row)) as [|c rest]; [reflexivity|].
    destruct H as (W & D & S).
    cbn [trimStart]. rewrite W. unfold scanDecimal.
    assert (Plus : Ascii.eqb c "+" = false)
      by (apply Ascii.eqb_neq; intros ->; apply S; cbn; auto).
    assert (Minus : Ascii.eqb c "-" = false)
      by (apply Ascii.eqb_neq; intros ->; apply S; cbn; auto).
    assert (Point : Ascii.eqb c "." = false)
      by (apply Ascii.eqb_neq; intros ->; apply S; cbn; auto).
    assert (Inf : Ascii.eqb c "I" = false)
      by (apply Ascii.eqb_neq; intros ->; apply S; cbn; auto).
    assert (B : (match String c rest with
                 | String "+" r => (false, r)
                 | String "-" r => (true, r)
                 | _ => (false, String c rest)
                 end) = (false, String c rest)).
    { destruct c as [[] [] [] [] [] [] [] []]; try reflexivity;
        cbn in Plus, Minus; discriminate. }
    rewrite B.
    assert (I : startsWith "Infinity" (String c rest) = None).
    { unfold startsWith. cbn [String.prefix].
      destruct (ascii_dec "I" c) as [<-|NE]; [discriminate Inf | reflexivity]. }
    rewrite I. cbn [scanDigits]. rewrite D.
    destruct c as [[] [] [] [] [] [] [] []]; try reflexivity; discriminate Point. }
  split; [exact N|].
  apply (prepareData_rejects LocalTZA data row Hin). right. exact N.
Qed.

Lemma prepareData_rejects_unreadable_price_witness :
  let row := {| Raw.Date := "01-Apr-2024"; Raw.close := "Rs 3,883.85" |} in
  let good := {| Raw.Date := "02-Apr-2024"; Raw.close := "3,900.00" |} in
  isNaN (parsedPrice row) = true
  /\ prepareData 19800000 [good; row] = Throws (Error "Data contains NaN values").
Proof.
  apply (prepareData_rejects_unreadable_price 19800000
           [ {| Raw.Date := "02-Apr-2024"; Raw.close := "3,900.00" |};
             {| Raw.Date := "01-Apr-2024"; Raw.close := "Rs 3,883.85" |} ]
           {| Raw.Date := "01-Apr-2024"; Raw.close := "Rs 3,883.85" |}).
  - right. left. reflexivity.
  - cbn. repeat split; try reflexivity.
    intros [H|[H|[H|[H|[]]]]]; discriminate H.
Defined.

(** ** The price of a row *)

Lemma digitValue_range c : isDigit c = true -> 0 <= digitValue c <= 9.
Proof.
  intros H. apply isDigit_cases in H. cbn [In] in H.
  repeat (destruct H as [<-|H]; [vm_compute; split; discriminate|]). contradiction.
Qed.

Lemma digitsValueFrom_nonneg s : forall acc,
  allDigits s = true -> 0 <= acc -> 0 <= digitsValueFrom acc s.
Proof.
  induction s as [|c s IH]; intros acc H Hacc; cbn [digitsValueFrom]; [exact Hacc|].
  cbn [allDigits] in H. apply andb_prop in H as [Hc Hs].
  apply IH; [exact Hs|]. pose proof (digitValue_range c Hc). lia.
Qed.

(** [decimalToNumber] rounds to nearest, ties to even: its result is the
    Number whose value is [rounded] from [m / 10 ^ k], the infinity when
    that value is past the largest finite Number. *)
Lemma decimalToNumber_rounded m k :
  0 <= m -> 0 <= k ->
  exists V : R,
    rounded (IZR m / IZR (10 ^ k)) V
    /\ numbered false V (Prim2SF (decimalToNumber false m (- k))).
Proof.
  intros Hm Hk. unfold decimalToNumber.
  assert (P10 : 0 < 10 ^ k) by (apply Z.pow_pos_nonneg; lia).
  destruct m as [|p|p]; [| |lia].
  - exists 0%R. split.
    + unfold Rdiv. rewrite Rmult_0_l. exact rounded_zero.
    + rewrite Prim2SF_SF2Prim by reflexivity.
      split; [reflexivity|]. left. split; reflexivity.
  - destruct (Z.leb_spec 0 (- k)) as [L|L].
    + assert (k = 0) by lia. subst k.
      change (- 0) with 0. change (10 ^ 0) with 1. rewrite Z.mul_1_r.
      destruct (binary_round_rounded false p 0) as (V & R & N).
      exists V. split.
      * change (pow2 0) with 1%R in R. rewrite Rmult_1_r in R.
        unfold Rdiv. now rewrite Rinv_1, Rmult_1_r.
      * rewrite Prim2SF_SF2Prim by apply N. exact N.
    + rewrite Z.opp_involutive.
      destruct (10 ^ k) as [|q|q] eqn:Q; try lia.
      destruct (SFdiv_core_located p 0 q 0) as (n & e & l & -> & Hn & Loc & HE).
      destruct (binary_round_aux_rounded false n e l _ Hn Loc HE) as (V & R & N).
      exists V. split.
      * change (pow2 0) with 1%R in R. rewrite !Rmult_1_r in R. exact R.
      * rewrite Prim2SF_SF2Prim by apply N. exact N.
Qed.

(** C8.  The price of a row is read from its [close] text with every comma
    removed and nothing else changed.  For a decimal number written with
    comma separators (groups of digits joined by commas, with or without a
    fraction) the price is the Number nearest to the decimal number that
    the digits denote, the even one of two that are equally near: its
    value is [rounded] from the integer of all the digits divided by the
    power of ten of the number of fraction digits. *)
Theorem parsedPrice_strips_commas (row : Raw.row) groups fraction :
  forallb allDigits groups = true ->
  concatAll groups <> "" ->
  allDigits (fractionDigits fraction) = true ->
  Raw.close row = separatedDecimal groups fraction ->
  list_ascii_of_string (replaceAll "," "" (Raw.close row))
  = filter (fun a => negb (Ascii.eqb a ",")) (list_ascii_of_string (Raw.close row))
  /\ replaceAll "," "" (Raw.close row) = separatedDecimal [concatAll groups] fraction
  /\ exists V : R,
       rounded (IZR (digitsValue (concatAll groups ++ fractionDigits fraction))
                / IZR (10 ^ Z.of_nat (String.length (fractionDigits fraction)))) V
       /\ numbered false V (Prim2SF (parsedPrice row)).
Proof.
  intros Hg Hne Hf Hclose.
  split; [apply replaceAll_filter|].
  pose proof (allDigits_concatAll groups Hg) as Hint.
  destruct (parseFloat_decimal (concatAll groups) (fractionDigits fraction) Hne Hint Hf)
    as [Pint Pfrac].
  assert (S : replaceAll "," "" (Raw.close row) = separatedDecimal [concatAll groups] fraction).
  { rewrite Hclose. destruct fraction as [f|]; cbn [separatedDecimal join].
    - rewrite replaceAll_app, (replaceAll_join groups Hg). f_equal.
      apply replaceAll_absent. cbn [append absent]. split; [reflexivity|].
      apply allDigits_absent; [reflexivity | exact Hf].
    - apply (replaceAll_join groups Hg). }
  split; [exact S|].
  assert (E : parsedPrice row
              = decimalToNumber false
                  (digitsValue (concatAll groups ++ fractionDigits fraction))
                  (- Z.of_nat (String.length (fractionDigits fraction)))).
  { unfold parsedPrice. rewrite S.
    destruct fraction as [f|]; cbn [separatedDecimal join fractionDigits] in *.
    - exact Pfrac.
    - rewrite string_app_nil_r. exact Pint. }
  rewrite E. apply decimalToNumber_rounded; [|lia].
  apply digitsValueFrom_nonneg; [|lia].
  now rewrite allDigits_app, Hint, Hf.
Qed.

(** The price text "1,234.50": the digits denote 123450 / 100, which is the
    Number 1234.5. *)
Lemma parsedPrice_strips_commas_witness :
  let row := {| Raw.Date := "05-Apr-2024"; Raw.close := "1,234.50" |} in
  (list_ascii_of_string (replaceAll "," "" (Raw.close row))
   = filter (fun a => negb (Ascii.eqb a ",")) (list_ascii_of_string (Raw.close row))
   /\ replaceAll "," "" (Raw.close row) = "1234.50"
   /\ exists V : R,
        rounded (IZR 123450 / IZR (10 ^ 2)) V
        /\ numbered false V (Prim2SF (parsedPrice row)))
  /\ parsedPrice row = 1234.5%float.
Proof.
  intros row. split; [|vm_compute; reflexivity].
  apply (parsedPrice_strips_commas row ["1"; "234"] (Some "50"));
    [reflexivity | discriminate | reflexivity | reflexivity].
Defined.

(** ** The text that saveToCSV writes *)

(** *** trim *)

Lemma trimStart_spec s :
  exists pre,
    s = (pre ++ trimStart s)%string /\ allWhiteSpace pre = true
    /\ forall c rest, trimStart s = String c rest -> isWhiteSpace c = false.
Proof.
  induction s as [|a s (pre & E & W & F)]; cbn [trimStart].
  - exists "". repeat split. intros c rest H. discriminate H.
  - destruct (isWhiteSpace a) eqn:A.
    + exists (String a pre). cbn [append allWhiteSpace]. rewrite A, W, <- E.
      repeat split. exact F.
    + exists "". repeat split. intros c rest H. injection H as <- _. exact A.
Qed.

Lemma trimEnd_spec s :
  (exists post, s = (trimEnd s ++ post)%string /\ allWhiteSpace post = true)
  /\ (forall front c, trimEnd s = (front ++ String c "")%string -> isWhiteSpace c = false)
  /\ (forall c rest, trimEnd s = String c rest -> exists rest', s = String c rest').
Proof.
  induction s as [|a s ((post & E & W) & L & F)].
  - split; [exists ""; split; reflexivity|]. split.
    + intros [|x front] c H; discriminate H.
    + intros c rest H. discriminate H.
  - cbn [trimEnd]. destruct (trimEnd s) as [|b r] eqn:T.
    + destruct (isWhiteSpace a) eqn:A.
      * split; [exists (String a post); cbn [append allWhiteSpace] in *;
                rewrite A, W, <- E; split; reflexivity|].
        split; [intros [|x front] c H; discriminate H | intros c rest H; discriminate H].
      * split; [exists post; cbn [append] in *; split; [now rewrite <- E | exact W]|].
        split.
        -- intros [|x front] c H; cbn [append] in H.
           ++ injection H as <-. exact A.
           ++ injection H as _ H. destruct front; discriminate H.
        -- intros c rest H. injection H as <- _. eexists. reflexivity.
    + split; [exists post; cbn [append] in *; split; [now rewrite <- E | exact W]|].
      split.
      * intros [|x front] c H; cbn [append] in H.
        -- injection H as _ H. discriminate H.
        -- injection H as _ H. exact (L front c H).
      * intros c rest H. injection H as <- _. eexists. reflexivity.
Qed.

(** [trim] leaves out the white space of the two ends and nothing else. *)
Lemma trim_trimmedOf s : trimmedOf s (trim s).
Proof.
  unfold trim.
  destruct (trimStart_spec s) as (pre & E & W & F).
  destruct (trimEnd_spec (trimStart s)) as ((post & E' & W') & L & K).
  split; [|split].
  - exists pre, post. split; [|split; assumption].
    rewrite E at 1. now rewrite E' at 1.
  - intros c rest H. destruct (K c rest H) as [rest' H']. exact (F c rest' H').
  - exact L.
Qed.

(** *** The digits of an integer *)

Lemma digitsOf_spec fuel : forall n acc,
  (0 < fuel)%nat -> 0 <= n < 2 ^ Z.of_nat fuel ->
  exists d,
    digitsOf fuel n acc = (d ++ acc)%string
    /\ allDigits d = true /\ d <> ""
    /\ digitsValue d = n
    /\ (n = 0 -> d = "0")
    /\ (0 < n -> forall rest, d <> String "0" rest).
Proof.
  induction fuel as [|fuel IH]; intros n acc Hf Hn; [lia|].
  cbn [digitsOf].
  assert (M : 0 <= n mod 10 < 10) by (apply Z.mod_pos_bound; lia).
  destruct (Z.eqb_spec (n / 10) 0) as [Q|Q].
  - assert (N : n mod 10 = n) by (Z.div_mod_to_equations; lia).
    exists (String (digitChar (n mod 10)) ""). split; [reflexivity|].
    split; [cbn [allDigits]; now rewrite isDigit_digitChar|].
    split; [discriminate|]. split; [|split].
    + unfold digitsValue. cbn [digitsValueFrom]. rewrite digitValue_digitChar by exact M. lia.
    + intros Z0. rewrite N, Z0. reflexivity.
    + intros P rest H. injection H as H _. rewrite N in H.
      assert (D : digitValue (digitChar n) = digitValue "0") by now rewrite H.
      rewrite digitValue_digitChar in D by lia. change (digitValue "0") with 0 in D. lia.
  - assert (Q1 : 0 < n / 10) by (Z.div_mod_to_equations; lia).
    assert (F1 : (0 < fuel)%nat).
    { destruct fuel; [|lia]. cbn in Hn. Z.div_mod_to_equations. lia. }
    assert (B : 0 <= n / 10 < 2 ^ Z.of_nat fuel).
    { rewrite Nat2Z.inj_succ, Z.pow_succ_r in Hn by lia.
      Z.div_mod_to_equations. lia. }
    destruct (IH (n / 10) (String (digitChar (n mod 10)) acc) F1 B)
      as (d & E & A & NE & V & _ & L).
    exists (d ++ String (digitChar (n mod 10)) "")%string.
    split; [rewrite E, string_app_assoc; reflexivity|].
    split; [rewrite allDigits_app, A; cbn [allDigits]; now rewrite isDigit_digitChar|].
    split; [destruct d; [congruence | discriminate]|].
    split; [|split].
    + unfold digitsValue in *. rewrite digitsValueFrom_app, V. cbn [digitsValueFrom].
      rewrite digitValue_digitChar by exact M. Z.div_mod_to_equations. lia.
    + intros Z0. exfalso. revert Q1. rewrite Z0. discriminate.
    + intros _ rest H. destruct d as [|c d]; [congruence|].
      cbn [append] in H. injection H as -> _. exact (L Q1 d eq_refl).
Qed.

Lemma decimalOfZ_spec n :
  0 <= n ->
  allDigits (decimalOfZ n) = true /\ decimalOfZ n <> ""
  /\ digitsValue (decimalOfZ n) = n
  /\ (decimalOfZ n = "0" \/ forall rest, decimalOfZ n <> String "0" rest).
Proof.
  intros Hn. unfold decimalOfZ. destruct (Z.ltb_spec n 0) as [|_]; [lia|].
  rewrite Z.abs_eq by exact Hn.
  destruct (digitsOf_spec (S (Z.to_nat (Z.log2 n))) n "") as (d & E & A & NE & V & Z0 & L).
  { lia. }
  { split; [exact Hn|]. rewrite Nat2Z.inj_succ, Z2Nat.id by apply Z.log2_nonneg.
    destruct (Z.eq_dec n 0) as [->|]; [reflexivity|].
    apply Z.log2_spec. lia. }
  rewrite E, string_app_nil_r. split; [exact A|]. split; [exact NE|]. split; [exact V|].
  destruct (Z.eq_dec n 0) as [Q|Q]; [left; exact (Z0 Q) | right; apply L; lia].
Qed.

(** *** toFixed *)

(** [scaledRound x k] is the integer nearest to [k] times the magnitude of
    [x], the larger of two that are equally near. *)
Lemma scaledRound_nearest x k :
  0 < k ->
  match Prim2SF x with S754_zero _ | S754_finite _ _ _ => True | _ => False end ->
  (IZR (scaledRound x k) - 1 / 2 <= IZR k * Rabs (B2R x)
   < IZR (scaledRound x k) + 1 / 2)%R.
Proof.
  intros Hk F. unfold scaledRound, B2R.
  assert (K : (0 < IZR k)%R) by (apply IZR_lt; exact Hk).
  destruct (Prim2SF x) as [s|s| |s m e]; try contradiction; cbn [SF2R].
  - rewrite Rabs_R0. lra.
  - pose proof (magnitude_pos m e) as P.
    assert (A : Rabs (sgn s * IZR (Zpos m) * pow2 e) = (IZR (Zpos m) * pow2 e)%R).
    { rewrite Rmult_assoc. apply Rabs_sgn. lra. }
    rewrite A.
    destruct (Z.leb_spec 0 e) as [L|L].
    + rewrite !mult_IZR, <- (pow2_IZR e L). lra.
    + set (D := 2 ^ (- e)).
      assert (PD : 0 < D) by (apply Z.pow_pos_nonneg; lia).
      assert (RD : (0 < IZR D)%R) by (apply IZR_lt; exact PD).
      assert (E : (pow2 e * IZR D = 1)%R).
      { unfold D. rewrite <- (pow2_IZR (- e)), <- pow2_add by lia.
        replace (e + - e) with 0 by lia. reflexivity. }
      set (n := (2 * (Zpos m * k) + D) / (2 * D)).
      assert (B : 2 * D * n <= 2 * (Zpos m * k) + D < 2 * D * n + 2 * D).
      { unfold n. pose proof (Z.mul_div_le (2 * (Zpos m * k) + D) (2 * D) ltac:(lia)).
        pose proof (Z.mul_succ_div_gt (2 * (Zpos m * k) + D) (2 * D) ltac:(lia)). lia. }
      destruct B as [B1 B2]. apply IZR_le in B1. apply IZR_lt in B2.
      repeat (rewrite plus_IZR in B1 || rewrite mult_IZR in B1).
      repeat (rewrite plus_IZR in B2 || rewrite mult_IZR in B2).
      set (M := IZR (Zpos m)) in *. set (N := IZR n) in *. set (p := pow2 e) in *.
      set (d := IZR D) in *. set (K' := IZR k) in *.
      clearbody M N p d K'.
      assert (X : (K' * (M * p) * d = K' * M)%R).
      { replace (K' * (M * p) * d)%R with (K' * M * (p * d))%R by ring.
        rewrite E. ring. }
      split.
      * apply Rmult_le_reg_r with d; [exact RD|]. rewrite X. lra.
      * apply Rmult_lt_reg_r with d; [exact RD|]. rewrite X. lra.
Qed.

Lemma B2R_abs x : Rabs (B2R (PrimFloat.abs x)) = Rabs (B2R x).
Proof.
  unfold B2R. rewrite abs_spec.
  destruct (Prim2SF x) as [s|s| |s m e]; cbn [SFabs SF2R]; try reflexivity.
  pose proof (magnitude_pos m e) as P.
  rewrite !Rmult_assoc, !Rabs_sgn by lra. reflexivity.
Qed.

(** [x.toFixed(2)] of a finite Number of magnitude below 1e21 is the text
    of the nearest hundredth. *)
Lemma toFixed_twoDecimalsOf x :
  PrimFloat.is_finite x = true ->
  (1e21 <=? PrimFloat.abs x)%float = false ->
  twoDecimalsOf x (toFixed x 2).
Proof.
  intros Hf Hb.
  set (n := scaledRound (PrimFloat.abs x) 100).
  assert (T : toFixed x 2
              = ((if (x <? 0)%float then "-" else "") ++ decimalOfZ (n / 100) ++ "."
                 ++ fixedWidth 2 (n mod 100))%string).
  { unfold toFixed. pose proof Hf as Hf'.
    unfold PrimFloat.is_finite in Hf'.
    apply negb_true_iff, orb_false_iff in Hf' as [Hn Hi].
    unfold isNaN. rewrite Hn, Hi, Hb. reflexivity. }
  assert (Fa : match Prim2SF (PrimFloat.abs x) with
               | S754_zero _ | S754_finite _ _ _ => True | _ => False end).
  { pose proof (is_finite_Prim2SF x Hf) as F. rewrite abs_spec.
    destruct (Prim2SF x); (exact I || contradiction). }
  pose proof (scaledRound_nearest (PrimFloat.abs x) 100 ltac:(lia) Fa) as N.
  fold n in N. rewrite B2R_abs in N.
  assert (N0 : 0 <= n).
  { destruct (Z_le_gt_dec 0 n) as [L|G]; [exact L | exfalso].
    assert (IZR n + 1 <= 0)%R by (rewrite <- (plus_IZR n 1); apply IZR_le; lia).
    pose proof (Rabs_pos (B2R x)). lra. }
  assert (I0 : 0 <= n / 100) by (apply Z.div_pos; lia).
  destruct (decimalOfZ_spec (n / 100) I0) as (A & NE & V & L).
  assert (M : 0 <= n mod 100 < 100) by (apply Z.mod_pos_bound; lia).
  exists (decimalOfZ (n / 100)), (digitChar (n mod 100 / 10 mod 10)),
         (digitChar (n mod 100 mod 10)).
  split; [rewrite T, fixedWidth_two; reflexivity|].
  split; [exact A|]. split; [exact NE|]. split; [exact L|].
  split; [apply isDigit_digitChar, Z.mod_pos_bound; lia|].
  split; [apply isDigit_digitChar, Z.mod_pos_bound; lia|].
  rewrite V, !digitValue_digitChar by (apply Z.mod_pos_bound; lia).
  replace (100 * (n / 100) + 10 * (n mod 100 / 10 mod 10) + n mod 100 mod 10) with n
    by (Z.div_mod_to_equations; lia).
  exact N.
Qed.

Lemma toFixed_numberField x : numberField x (safe (Some (toFixed x 2))).
Proof.
  split; [|split].
  - intros N. unfold toFixed. rewrite N. reflexivity.
  - intros Inf. unfold toFixed.
    assert (N : isNaN x = false).
    { destruct (is_infinity_Prim2SF x Inf) as [s E].
      destruct (isNaN x) eqn:N; [|reflexivity].
      apply isNaN_spec in N. congruence. }
    rewrite N, Inf. destruct (x <? 0)%float; reflexivity.
  - intros Hf Hb.
    destruct (toFixed_two_decimals x Hf Hb) as [_ ->].
    apply toFixed_twoDecimalsOf; assumption.
Qed.

(** *** The table *)

Lemma absent_contains c s : absent c s -> contains c s = false.
Proof.
  induction s as [|a s IH]; cbn [absent contains]; [reflexivity|].
  intros [H Hs]. now rewrite H, (IH Hs).
Qed.

Lemma lastChar_app s : forall c,
  lastChar s = Some c -> exists front, s = (front ++ String c "")%string.
Proof.
  induction s as [|a s IH]; intros c H; [discriminate H|].
  cbn [lastChar] in H. destruct s as [|b s].
  - injection H as <-. exists "". reflexivity.
  - destruct (IH c H) as [front ->]. exists (String a front). reflexivity.
Qed.

Lemma trim_dateField s : dateField s (safe (Some (trim s))).
Proof.
  exists (trim s). destruct (trim_trimmedOf s) as (E & F & L).
  split; [split; [exact E | split; [exact F | exact L]]|].
  intros C Q R N. apply safe_unquoted. unfold needsQuotes.
  rewrite !absent_contains by assumption. cbn [orb].
  assert (S1 : isSpace (firstChar (trim s)) = false).
  { destruct (trim s) as [|c rest] eqn:T; [reflexivity|].
    cbn [firstChar isSpace]. specialize (F c rest eq_refl).
    destruct (Ascii.eqb_spec c " ") as [->|]; [discriminate F | reflexivity]. }
  assert (S2 : isSpace (lastChar (trim s)) = false).
  { destruct (lastChar (trim s)) as [c|] eqn:T; [|reflexivity].
    destruct (lastChar_app _ c T) as [front H]. specialize (L front c H).
    cbn [isSpace]. destruct (Ascii.eqb_spec c " ") as [->|]; [discriminate L | reflexivity]. }
  now rewrite S1, S2.
Qed.

Lemma csvLine_rowLine row : rowLine row (csvLine row).
Proof.
  unfold csvLine. do 4 eexists. split; [cbn [join]; reflexivity|].
  split; [apply trim_dateField|].
  repeat split; apply toFixed_numberField.
Qed.

Lemma join_lines sep : forall lines first,
  join sep (first :: lines)
  = (first ++ concatAll (map (fun line => sep ++ line) lines))%string.
Proof.
  induction lines as [|line lines IH]; intros first.
  - cbn [join map concatAll]. now rewrite string_app_nil_r.
  - change (join sep (first :: line :: lines))
      with (first ++ sep ++ join sep (line :: lines))%string.
    rewrite IH. cbn [map concatAll]. now rewrite string_app_assoc.
Qed.

(** C9, as amended.  For a non-empty array of rows, [saveToCSV] writes to
    the file the header "Date,PredictedPrice,RMSE,MSE" and then, each after
    a line break, one line for each row, in order, with the four fields in
    that order between commas, and leaves every other file alone.  The Date
    field is the Date of the row without the white space at its two ends,
    written as it is when it holds no comma, quote or line break.  A
    PredictedPrice, RMSE or MSE that is finite and of magnitude below 1e21
    is written with exactly two decimal places, as the hundredth nearest to
    it; NaN and the infinities are written by their names. *)
Theorem saveToCSV_table filePath data fs :
  data <> [] ->
  exists lines,
    saveToCSV filePath data fs filePath
    = Some ("Date,PredictedPrice,RMSE,MSE"
            ++ concatAll (map (fun line => newline ++ line) lines))%string
    /\ (forall p, String.eqb p filePath = false -> saveToCSV filePath data fs p = fs p)
    /\ Forall2 rowLine data lines.
Proof.
  intros Hne. exists (map csvLine data). split; [|split].
  - rewrite saveToCSV_lines. unfold writeFileSync. rewrite String.eqb_refl. f_equal.
    destruct data as [|row0 data0]; [congruence|]. apply join_lines.
  - intros p Hp. rewrite saveToCSV_lines. unfold writeFileSync. now rewrite Hp.
  - clear Hne. induction data as [|row data IH]; cbn [map]; constructor;
      [apply csvLine_rowLine | exact IH].
Qed.

Lemma saveToCSV_table_witness :
  let data := [ {| Forecast.Date := " 2024-04-01 "; Forecast.PredictedPrice := 3883.4375;
                   Forecast.RMSE := 12.5; Forecast.MSE := 156.25;
                   Forecast.others := [] |} ] in
  let fs : fileSystem := fun _ => None in
  (exists lines,
     saveToCSV "tcs_result.csv" data fs "tcs_result.csv"
     = Some ("Date,PredictedPrice,RMSE,MSE"
             ++ concatAll (map (fun line => newline ++ line) lines))%string
     /\ (forall p, String.eqb p "tcs_result.csv" = false ->
                   saveToCSV "tcs_result.csv" data fs p = fs p)
     /\ Forall2 rowLine data lines)
  /\ saveToCSV "tcs_result.csv" data fs "tcs_result.csv"
     = Some ("Date,PredictedPrice,RMSE,MSE" ++ newline
             ++ "2024-04-01,3883.44,12.50,156.25")%string.
Proof.
  intros data fs. split; [|vm_compute; reflexivity].
  apply (saveToCSV_table "tcs_result.csv" data fs). discriminate.
Defined.
